(** * GitSync: the reconciliation engine of the folder-to-repository sync tool

    A shallow embedding of the sync core: the Git blob hasher and the path
    normalizer of [utils/fileUtils], the request wrapper of
    [services/githubService], the commit-message helper of
    [services/geminiService] and the [startSync] run of [App].

    Strings are Rocq strings, that is sequences of 8-bit characters, and
    hold the UTF-8 encoding of the source's strings; the source's
    operations used here (tests on the characters '/', '\' and '.',
    concatenation, prefix and suffix test, equality) act the same on UTF-16
    code units and on UTF-8 bytes, and [trim] strips the white space of
    ECMAScript in its UTF-8 encoding. *)

From Stdlib Require Import ZArith NArith List String Ascii Lia Bool.
From Stdlib Require Import DecimalString HexadecimalString.
From Stdlib.Strings Require Import Byte.
From stdpp Require Import gmap strings list fin_maps.

Open Scope string_scope.
Open Scope list_scope.

(** ** JavaScript string and array primitives used by the sources *)

Module Js.

(** [`${n}`] for a non-negative integer. *)
Definition decimal (n : nat) : string :=
  DecimalString.NilZero.string_of_uint (Nat.to_uint n).

(** [n.toString(16)] for a non-negative integer: lowercase, no padding. *)
Definition toString16 (n : N) : string :=
  HexadecimalString.NilZero.string_of_uint (N.to_hex_uint n).

(** [c.repeat(k)] for a one-character string. *)
Fixpoint repeat_char (c : ascii) (k : nat) : string :=
  match k with
  | O => EmptyString
  | S k' => String c (repeat_char c k')
  end.

(** [s.padStart(width, c)] with a one-character filler. *)
Definition padStart (width : nat) (c : ascii) (s : string) : string :=
  repeat_char c (width - String.length s) +:+ s.

(** The double quote, as a string. *)
Definition dquote : string := String (ascii_of_nat 34) EmptyString.

(** [parts.join(sep)]. *)
Definition join (sep : string) (parts : list string) : string :=
  String.concat sep parts.

(** [s.startsWith(p)]. *)
Definition startsWith (s p : string) : bool := String.prefix p s.

(** Truthiness of a string: every string but the empty one. *)
Definition truthy (s : string) : bool := negb (String.eqb s "").

(** [a || b] on strings. *)
Definition or_else (a b : string) : string := if truthy a then a else b.

(** [new TextEncoder().encode(s)]: the characters of the model are already
    bytes. *)
Definition TextEncoder_encode (s : string) : list byte := list_byte_of_string s.

(** [new Uint8Array(n)]: [n] zero bytes. *)
Definition Uint8Array_new (n : nat) : list byte := List.repeat x00 n.

(** [target.set(source, offset)]: copies [source] over [target] from
    [offset] on.  The platform throws a RangeError when the source does not
    fit, hence the [option]. *)
Definition Uint8Array_set (target source : list byte) (offset : nat)
  : option (list byte) :=
  if (offset + List.length source <=? List.length target)%nat then
    Some (firstn offset target ++ source
            ++ skipn (offset + List.length source) target)
  else None.

(** [a.slice(i, j)] for [0 <= i <= j]; both bounds are clamped to the
    length, which [firstn] and [skipn] do. *)
Definition slice {A} (i j : nat) (l : list A) : list A :=
  firstn (j - i) (skipn i l).

(** The white space that [trim] strips is the WhiteSpace and the
    LineTerminator of ECMAScript; the strings of the model are in UTF-8,
    where these characters take one, two or three bytes.

    One byte: tab, line feed, vertical tab, form feed, carriage return,
    space. *)
Definition is_space (c : ascii) : bool :=
  match nat_of_ascii c with
  | 9 | 10 | 11 | 12 | 13 | 32 => true
  | _ => false
  end.

(** Two bytes: U+00A0 (C2 A0). *)
Definition is_space2 (a b : ascii) : bool :=
  (N_of_ascii a =? 194)%N && (N_of_ascii b =? 160)%N.

(** Three bytes: U+1680 (E1 9A 80), U+2000 to U+200A (E2 80 80 to 8A),
    U+2028, U+2029, U+202F (E2 80 A8, A9, AF), U+205F (E2 81 9F), U+3000
    (E3 80 80) and U+FEFF (EF BB BF). *)
Definition is_space3 (a b c : ascii) : bool :=
  (N_of_ascii a =? 225)%N && (N_of_ascii b =? 154)%N && (N_of_ascii c =? 128)%N
  || (N_of_ascii a =? 226)%N && (N_of_ascii b =? 128)%N
     && ((128 <=? N_of_ascii c)%N && (N_of_ascii c <=? 138)%N
         || (N_of_ascii c =? 168)%N || (N_of_ascii c =? 169)%N
         || (N_of_ascii c =? 175)%N)
  || (N_of_ascii a =? 226)%N && (N_of_ascii b =? 129)%N && (N_of_ascii c =? 159)%N
  || (N_of_ascii a =? 227)%N && (N_of_ascii b =? 128)%N && (N_of_ascii c =? 128)%N
  || (N_of_ascii a =? 239)%N && (N_of_ascii b =? 187)%N && (N_of_ascii c =? 191)%N.

(** [s] is one white-space character. *)
Definition whiteSpace (s : string) : bool :=
  match s with
  | String a EmptyString => is_space a
  | String a (String b EmptyString) => is_space2 a b
  | String a (String b (String c EmptyString)) => is_space3 a b c
  | _ => false
  end.

(** [s.trimStart()]: the white-space characters at the start are dropped
    one after the other. *)
Fixpoint trimStart (s : string) : string :=
  match s with
  | EmptyString => EmptyString
  | String a r =>
      if is_space a then trimStart r
      else
        match r with
        | String b r2 =>
            if is_space2 a b then trimStart r2
            else
              match r2 with
              | String c r3 => if is_space3 a b c then trimStart r3 else s
              | EmptyString => s
              end
        | EmptyString => s
        end
  end.

(** [s.trimEnd()]: once the rest is trimmed, a character goes when what
    is left with it is one white-space character. *)
Fixpoint trimEnd (s : string) : string :=
  match s with
  | EmptyString => EmptyString
  | String c s' =>
      let kept := String c (trimEnd s') in
      if whiteSpace kept then EmptyString else kept
  end.

(** [s.trim()]. *)
Definition trim (s : string) : string := trimEnd (trimStart s).

(** [s.replace(/c/g, d)] for single characters. *)
Fixpoint replace_char (c d : ascii) (s : string) : string :=
  match s with
  | EmptyString => EmptyString
  | String x s' => String (if Ascii.eqb x c then d else x) (replace_char c d s')
  end.

(** [s.replace(/c+/g, c)]: every maximal run of [c] becomes one [c]. *)
Fixpoint collapse_runs (c : ascii) (s : string) : string :=
  match s with
  | EmptyString => EmptyString
  | String x s' =>
      let r := collapse_runs c s' in
      if Ascii.eqb x c then
        match r with
        | String y _ => if Ascii.eqb y c then r else String x r
        | EmptyString => String x EmptyString
        end
      else String x r
  end.

(** [s.replace(/^c+/, '')]. *)
Fixpoint strip_leading (c : ascii) (s : string) : string :=
  match s with
  | EmptyString => EmptyString
  | String x s' => if Ascii.eqb x c then strip_leading c s' else s
  end.

(** [s.replace(/c+$/, '')]. *)
Fixpoint strip_trailing (c : ascii) (s : string) : string :=
  match s with
  | EmptyString => EmptyString
  | String x s' =>
      match strip_trailing c s' with
      | EmptyString => if Ascii.eqb x c then EmptyString else String x EmptyString
      | t => String x t
      end
  end.

(** [s.split(c)] on a one-character separator; the empty string splits
    into one empty part. *)
Fixpoint split (c : ascii) (s : string) : list string :=
  match s with
  | EmptyString => [EmptyString]
  | String x s' =>
      if Ascii.eqb x c then EmptyString :: split c s'
      else match split c s' with
           | part :: parts => String x part :: parts
           | [] => [String x EmptyString]
           end
  end.

End Js.

(** ** SHA-1, the digest the platform provides

    [crypto.subtle.digest('SHA-1', data)] is a primitive of the browser.
    It is modelled after FIPS 180-4 on 32-bit words held in [Z], with the
    wrap-around written out, and checked below on the standard vectors. *)

Module Sha1.

Open Scope Z_scope.

Definition w32 (x : Z) : Z := x mod 2 ^ 32.

Definition add32 (x y : Z) : Z := w32 (x + y).

Definition rotl (n x : Z) : Z :=
  w32 (Z.lor (Z.shiftl x n) (Z.shiftr x (32 - n))).

Definition not32 (x : Z) : Z := Z.lxor x (2 ^ 32 - 1).

Definition Ch (x y z : Z) : Z := Z.lxor (Z.land x y) (Z.land (not32 x) z).
Definition Parity (x y z : Z) : Z := Z.lxor (Z.lxor x y) z.
Definition Maj (x y z : Z) : Z :=
  Z.lxor (Z.lxor (Z.land x y) (Z.land x z)) (Z.land y z).

Definition f (t : nat) (x y z : Z) : Z :=
  if (t <? 20)%nat then Ch x y z
  else if (t <? 40)%nat then Parity x y z
  else if (t <? 60)%nat then Maj x y z
  else Parity x y z.

Definition K (t : nat) : Z :=
  if (t <? 20)%nat then 0x5a827999
  else if (t <? 40)%nat then 0x6ed9eba1
  else if (t <? 60)%nat then 0x8f1bbcdc
  else 0xca62c1d6.

Definition byteZ (b : byte) : Z := Z.of_N (Byte.to_N b).

Definition Zbyte (z : Z) : byte :=
  match Byte.of_N (Z.to_N (z mod 256)) with
  | Some b => b
  | None => x00
  end.

(** Big-endian bytes of the low [8 * n] bits of [z]. *)
Fixpoint be_bytes (n : nat) (z : Z) : list byte :=
  match n with
  | O => []
  | S n' => be_bytes n' (Z.shiftr z 8) ++ [Zbyte z]
  end.

Definition be_word (bs : list byte) : Z :=
  fold_left (fun acc b => acc * 256 + byteZ b) bs 0.

(** The message followed by the bit 1, zero bits up to 448 modulo 512, and
    the length in bits as a 64-bit big-endian integer. *)
Definition pad (msg : list byte) : list byte :=
  let len := Z.of_nat (List.length msg) in
  let zeros := Z.to_nat ((55 - len) mod 64) in
  msg ++ [x80] ++ List.repeat x00 zeros ++ be_bytes 8 (8 * len).

Fixpoint words_of (n : nat) (bs : list byte) : list Z :=
  match n with
  | O => []
  | S n' => be_word (firstn 4 bs) :: words_of n' (skipn 4 bs)
  end.

(** The message schedule: the 16 words of the block, then
    [W t = rotl 1 (W (t-3) xor W (t-8) xor W (t-14) xor W (t-16))].
    The schedule is kept most recent word first. *)
Fixpoint extend (n : nat) (rev_w : list Z) : list Z :=
  match n with
  | O => rev_w
  | S n' =>
      let w := rotl 1 (Z.lxor (Z.lxor (nth 2 rev_w 0) (nth 7 rev_w 0))
                         (Z.lxor (nth 13 rev_w 0) (nth 15 rev_w 0))) in
      extend n' (w :: rev_w)
  end.

Definition schedule (block : list byte) : list Z :=
  List.rev (extend 64 (List.rev (words_of 16 block))).

Record regs := Regs { ra : Z; rb : Z; rc : Z; rd : Z; re : Z }.

Definition round (t : nat) (w : Z) (r : regs) : regs :=
  let T := add32 (add32 (add32 (add32 (rotl 5 (ra r)) (f t (rb r) (rc r) (rd r)))
                           (re r)) (K t)) w in
  Regs T (ra r) (rotl 30 (rb r)) (rc r) (rd r).

Fixpoint rounds (t : nat) (ws : list Z) (r : regs) : regs :=
  match ws with
  | [] => r
  | w :: ws' => rounds (S t) ws' (round t w r)
  end.

Definition compress (h : regs) (block : list byte) : regs :=
  let r := rounds 0 (schedule block) h in
  Regs (add32 (ra h) (ra r)) (add32 (rb h) (rb r)) (add32 (rc h) (rc r))
       (add32 (rd h) (rd r)) (add32 (re h) (re r)).

Fixpoint blocks (n : nat) (h : regs) (bs : list byte) : regs :=
  match n with
  | O => h
  | S n' => blocks n' (compress h (firstn 64 bs)) (skipn 64 bs)
  end.

Definition H0 : regs :=
  Regs 0x67452301 0xefcdab89 0x98badcfe 0x10325476 0xc3d2e1f0.

Definition digest (msg : list byte) : list byte :=
  let p := pad msg in
  let h := blocks (List.length p / 64) H0 p in
  be_bytes 4 (ra h) ++ be_bytes 4 (rb h) ++ be_bytes 4 (rc h)
    ++ be_bytes 4 (rd h) ++ be_bytes 4 (re h).

End Sha1.

(** ** utils/fileUtils *)

(** A [File] of the platform, as far as the sync reads it: [arrayBuffer]
    is the content that [file.arrayBuffer()] resolves to, [None] when the
    read is rejected; [dataURL_base64] is the base64 payload that
    [FileReader.readAsDataURL] yields after the comma, [None] when the
    reader reports an error. *)
Record File := {
  arrayBuffer : option (list byte);
  dataURL_base64 : option string
}.

(** The body of [computeGitBlobSha] once the buffer is read. *)
Definition gitBlobSha_of_buffer (buffer : list byte) : option string :=
  let size := List.length buffer in
  let header := "blob " +:+ Js.decimal size +:+ String zero EmptyString in
  let headerBuffer := Js.TextEncoder_encode header in
  let combined := Js.Uint8Array_new (List.length headerBuffer + size) in
  match Js.Uint8Array_set combined headerBuffer 0 with
  | None => None
  | Some combined =>
      match Js.Uint8Array_set combined buffer (List.length headerBuffer) with
      | None => None
      | Some combined =>
          let hashArray := Sha1.digest combined in
          Some (Js.join ""
                  (List.map (fun b => Js.padStart 2 "0" (Js.toString16 (Byte.to_N b)))
                     hashArray))
      end
  end.

(** [computeGitBlobSha]: [None] stands for a rejected promise. *)
Definition computeGitBlobSha (file : File) : option string :=
  match arrayBuffer file with
  | None => None
  | Some buffer => gitBlobSha_of_buffer buffer
  end.

(** [readFileAsBase64]: [None] stands for a rejected promise. *)
Definition readFileAsBase64 (file : File) : option string :=
  dataURL_base64 file.

(** [sanitizeGitPath]. *)
Definition sanitizeGitPath (path : string) : string :=
  let cleanPath :=
    Js.join "/"
      (List.filter
         (fun part => Js.truthy part && negb (String.eqb part ".")
                      && negb (String.eqb part ".."))
         (Js.split "/"
            (Js.strip_trailing "/"
               (Js.strip_leading "/"
                  (Js.collapse_runs "/"
                     (Js.replace_char "\" "/" path)))))) in
  cleanPath.

(** ** types *)

Record SyncConfig := {
  token : string;
  repoUrl : string;
  branch : string;
  targetPath : string;
  deleteMissing : bool;
  autoCommitMessage : bool
}.

Inductive LogType := info | success | warning | error.

(** A [LogEntry] without its random [id] and its [timestamp]. *)
Record LogEntry := { message : string; type : LogType }.

(** A [FileToSync]; its [status] is written once ('pending') and never
    read by the sync. *)
Module FileToSync.
Record t := { path : string; file : File }.
End FileToSync.

Inductive SyncState :=
  IDLE | SCANNING | ANALYZING | UPLOADING | COMMITTING | SUCCESS | ERROR.

Record RepoDetails := { owner : string; repo : string }.

(** A [GitTreeItem]; the optional [size] and [url] are never read. *)
Module GitTreeItem.
Record t := { path : string; mode : string; type : string; sha : string }.
End GitTreeItem.

Record TreeData := { tree : list GitTreeItem.t; truncated : bool }.

(** ** The run's effects

    What a JavaScript function throws: an [Error] with its message, or the
    progress event a [FileReader] rejects with (which has no message). *)
Inductive exn := Error (msg : string) | ProgressEvent.

(** [(e as Error).message], as a template literal prints it. *)
Definition exn_message (e : exn) : string :=
  match e with
  | Error m => m
  | ProgressEvent => "undefined"
  end.

(** The requests of the Git data API that the sync issues. *)
Inductive ApiCall :=
| GetRef (branch : string)
| GetTreeRecursive (treeSha : string)
| CreateBlob (contentBase64 : string)
| CreateTree (entries : list GitTreeItem.t)
| CreateCommit (message treeSha : string) (parents : list string)
| UpdateRef (branch commitSha : string)
| CreateRef (branch commitSha : string).

(** What the run does that can be observed from outside: a request, or a
    batch of uploads handed to [Promise.all] (named by its remote paths). *)
Inductive Event :=
| Call (c : ApiCall)
| BatchStarted (remotePaths : list string).

(** How the provider answers a request: a 2xx answer with its JSON, an
    answer with another status and the [message] of its JSON body (empty
    when the body has none), or no answer at all ([fetch] rejects). *)
Inductive Response (A : Type) :=
| Ok (json : A)
| NotOk (status : nat) (message : string)
| FetchRejected (message : string).
Arguments Ok {A}.
Arguments NotOk {A}.
Arguments FetchRejected {A}.

(** The provider's answers for the repository of the run; within one run
    they are taken to depend on the request only. *)
Record Provider := {
  GET_ref : string -> Response string;
  GET_tree : string -> Response TreeData;
  POST_blobs : string -> Response string;
  POST_trees : list GitTreeItem.t -> Response string;
  POST_commits : string -> string -> list string -> Response string;
  PATCH_ref : string -> string -> Response unit;
  POST_refs : string -> string -> Response unit
}.

(** The message collaborator: the key of the build, and the text the model
    answers for the three path lists the prompt is made of ([None] when the
    call is rejected or the answer has no text). *)
Record Gemini := {
  API_KEY : string;
  generateContent : list string -> list string -> list string -> option string
}.

(** The state a run reads and writes: the component's [syncState] and
    [logs], the events so far (oldest first), and the commit the remote
    branch points to. *)
Record World := {
  syncState : SyncState;
  logs : list LogEntry;
  events : list Event;
  branchHead : option string
}.

Inductive Completion (A : Type) := Normal (a : A) | Throw (e : exn).
Arguments Normal {A}.
Arguments Throw {A}.

Definition M (A : Type) : Type := World -> World * Completion A.

Definition ret {A} (a : A) : M A := fun w => (w, Normal a).

Definition bind {A B} (m : M A) (k : A -> M B) : M B :=
  fun w => match m w with
           | (w', Normal a) => k a w'
           | (w', Throw e) => (w', Throw e)
           end.

Definition throw {A} (e : exn) : M A := fun w => (w, Throw e).

(** [try { m } catch (e) { handler e }]. *)
Definition try_catch {A} (m : M A) (handler : exn -> M A) : M A :=
  fun w => match m w with
           | (w', Normal a) => (w', Normal a)
           | (w', Throw e) => handler e w'
           end.

Declare Scope sync_scope.
Delimit Scope sync_scope with sync.
Notation "'let*' x ':=' c 'in' k" := (bind c (fun x => k))
  (at level 10, x pattern, c at level 100, k at level 200) : sync_scope.
Notation "c ';;' k" := (bind c (fun _ => k))
  (at level 100, k at level 200, right associativity) : sync_scope.
Open Scope sync_scope.

Definition when (b : bool) (m : M unit) : M unit := if b then m else ret tt.

Definition setSyncState (s : SyncState) : M unit :=
  fun w => ({| syncState := s; logs := logs w; events := events w;
               branchHead := branchHead w |}, Normal tt).

(** [addLog]: appends an entry. *)
Definition addLog (message : string) (type : LogType) : M unit :=
  fun w => ({| syncState := syncState w;
               logs := logs w ++ [{| message := message; type := type |}];
               events := events w; branchHead := branchHead w |}, Normal tt).

Definition emit (e : Event) : M unit :=
  fun w => ({| syncState := syncState w; logs := logs w;
               events := events w ++ [e]; branchHead := branchHead w |}, Normal tt).

(** The remote branch moves when a ref request is answered with success. *)
Definition moveBranch (commitSha : string) : M unit :=
  fun w => ({| syncState := syncState w; logs := logs w; events := events w;
               branchHead := Some commitSha |}, Normal tt).

(** ** services/githubService *)

Module GitHubService.

(** [request]: issues the request; any answer that is not ok throws an
    [Error] with the provider's message, or with the status when there is
    no message. *)
Definition request {A} (c : ApiCall) (r : Response A) : M A :=
  emit (Call c);;
  match r with
  | Ok json => ret json
  | NotOk status message =>
      throw (Error (Js.or_else message ("GitHub API Error: " +:+ Js.decimal status)))
  | FetchRejected message => throw (Error message)
  end.

(** [getRef]; the result is [ref.object.sha]. *)
Definition getRef (gh : Provider) (branch : string) : M string :=
  try_catch (request (GetRef branch) (GET_ref gh branch))
    (fun e => throw (Error ("Branch '" +:+ branch +:+ "' not found."))).

Definition getTreeRecursive (gh : Provider) (treeSha : string) : M TreeData :=
  request (GetTreeRecursive treeSha) (GET_tree gh treeSha).

Definition createBlob (gh : Provider) (contentBase64 : string) : M string :=
  request (CreateBlob contentBase64) (POST_blobs gh contentBase64).

(** [createTree], called without a base tree. *)
Definition createTree (gh : Provider) (tree : list GitTreeItem.t) : M string :=
  request (CreateTree tree) (POST_trees gh tree).

Definition createCommit (gh : Provider) (message treeSha : string)
    (parentSha : option string) : M string :=
  let parents :=
    match parentSha with
    | Some p => if Js.truthy p then [p] else []
    | None => []
    end in
  request (CreateCommit message treeSha parents) (POST_commits gh message treeSha parents).

Definition updateRef (gh : Provider) (branch commitSha : string) : M unit :=
  request (UpdateRef branch commitSha) (PATCH_ref gh branch commitSha);;
  moveBranch commitSha.

Definition createRef (gh : Provider) (branch sha : string) : M unit :=
  request (CreateRef branch sha) (POST_refs gh branch sha);;
  moveBranch sha.

End GitHubService.

(** ** services/geminiService *)

(** [generateCommitMessage]; it never throws. *)
Definition generateCommitMessage (ai : Gemini)
    (filesAdded filesModified filesDeleted : list string) : string :=
  if negb (Js.truthy (API_KEY ai)) then "chore: sync files via GitSync Mobile"
  else
    match generateContent ai filesAdded filesModified filesDeleted with
    | Some text => Js.trim text
    | None => "chore: batch update via GitSync Mobile"
    end.

(** ** App: the sync run *)

Record UploadItem := {
  item_file : FileToSync.t;
  remotePath : string;
  isNew : bool
}.

(** The three collections the analysis loop fills. *)
Record Analysis := {
  filesToUpload : list UploadItem;
  filesSkipped : list string;
  processedRemotePaths : gset string
}.

Definition CHUNK_SIZE : nat := 5.

(** [config.targetPath ? sanitizeGitPath(config.targetPath) + '/' : '']. *)
Definition targetPrefix (config : SyncConfig) : string :=
  if Js.truthy (targetPath config) then sanitizeGitPath (targetPath config) +:+ "/"
  else "".

(** [remoteFileMap]: the blobs of the listing by path; a later entry of the
    same path overwrites an earlier one. *)
Definition remoteFileMap (baseTreeData : TreeData) : gmap string string :=
  fold_left
    (fun m item =>
       if String.eqb (GitTreeItem.type item) "blob"
       then <[GitTreeItem.path item := GitTreeItem.sha item]> m
       else m)
    (tree baseTreeData) ∅.

(** One turn of the loop over [files]. *)
Definition analyzeFile (prefix : string) (remote : gmap string string)
    (acc : Analysis) (f : FileToSync.t) : Analysis :=
  let remotePath := sanitizeGitPath (prefix +:+ FileToSync.path f) in
  let push isNew :=
    filesToUpload acc
      ++ [{| item_file := f; remotePath := remotePath; isNew := isNew |}] in
  match remote !! remotePath with
  | Some remoteSha =>
      if Js.truthy remoteSha then
        let processed := {[remotePath]} ∪ processedRemotePaths acc in
        let modified :=
          {| filesToUpload := push false; filesSkipped := filesSkipped acc;
             processedRemotePaths := processed |} in
        match computeGitBlobSha (FileToSync.file f) with
        | Some localSha =>
            if String.eqb localSha remoteSha then
              {| filesToUpload := filesToUpload acc;
                 filesSkipped := filesSkipped acc ++ [remotePath];
                 processedRemotePaths := processed |}
            else modified
        | None => modified
        end
      else
        {| filesToUpload := push true; filesSkipped := filesSkipped acc;
           processedRemotePaths := processedRemotePaths acc |}
  | None =>
      {| filesToUpload := push true; filesSkipped := filesSkipped acc;
         processedRemotePaths := processedRemotePaths acc |}
  end.

Definition analyze (config : SyncConfig) (files : list FileToSync.t)
    (baseTreeData : TreeData) : Analysis :=
  fold_left (analyzeFile (targetPrefix config) (remoteFileMap baseTreeData)) files
    {| filesToUpload := []; filesSkipped := []; processedRemotePaths := ∅ |}.

(** [filesToDelete]: the paths the loop over the listing pushes. *)
Definition computeFilesToDelete (config : SyncConfig) (baseTreeData : TreeData)
    (processed : gset string) : list string :=
  if deleteMissing config && negb (truncated baseTreeData) then
    List.map GitTreeItem.path
      (List.filter
         (fun item =>
            String.eqb (GitTreeItem.type item) "blob"
            && negb (Js.truthy (targetPrefix config)
                     && negb (Js.startsWith (GitTreeItem.path item) (targetPrefix config)))
            && negb (bool_decide (GitTreeItem.path item ∈ processed)))
         (tree baseTreeData))
  else [].

(** The slices the upload loop takes: [i] starts at 0 and grows by
    [CHUNK_SIZE] while it is below the length. *)
Fixpoint chunksFrom {A} (fuel i : nat) (l : list A) : list (list A) :=
  match fuel with
  | O => []
  | S fuel' =>
      if (i <? List.length l)%nat
      then Js.slice i (i + CHUNK_SIZE) l :: chunksFrom fuel' (i + CHUNK_SIZE) l
      else []
  end.

Definition chunks {A} (l : list A) : list (list A) := chunksFrom (List.length l) 0 l.

(** The callback of [chunk.map]: one upload. *)
Definition uploadItem (gh : Provider) (item : UploadItem) : M GitTreeItem.t :=
  try_catch
    (let* base64 :=
       match readFileAsBase64 (FileToSync.file (item_file item)) with
       | Some base64 => ret base64
       | None => throw ProgressEvent
       end in
     let* blobSha := GitHubService.createBlob gh base64 in
     when (negb (isNew item)) (addLog ("Updating: " +:+ remotePath item) warning);;
     ret {| GitTreeItem.path := remotePath item; GitTreeItem.mode := "100644";
            GitTreeItem.type := "blob"; GitTreeItem.sha := blobSha |})
    (fun e => addLog ("Failed upload: " +:+ remotePath item) error;; throw e).

(** [await Promise.all(tasks)], in one of its schedules: every task of the
    batch has been started and runs to its end, in the order of the list;
    the batch throws what its first failing task threw.

    In the source the tasks of a batch run concurrently: their blob
    requests go out as the file reads complete, their entries are pushed as
    the answers arrive, and the batch rejects with the failure that comes
    first in time.  The properties documented below are stated so that
    they hold in every schedule: the lists that the schedule orders (the
    blob requests, the entries of the tree request) are given up to a
    permutation; the lemmas that lead to them follow the schedule of the
    model. *)
Fixpoint promiseAll {A} (tasks : list (M A)) : M (list A) :=
  match tasks with
  | [] => ret []
  | task :: rest =>
      fun w =>
        match task w with
        | (w1, Normal a) =>
            match promiseAll rest w1 with
            | (w2, Normal l) => (w2, Normal (a :: l))
            | (w2, Throw e) => (w2, Throw e)
            end
        | (w1, Throw e) => (fst (promiseAll rest w1), Throw e)
        end
  end.

(** The upload loop over the chunks; [newTree] and [uploadedPaths] are the
    arrays the callbacks push to. *)
Fixpoint uploadChunks (gh : Provider) (cs : list (list UploadItem))
    (newTree : list GitTreeItem.t) (uploadedPaths : list string)
  : M (list GitTreeItem.t * list string) :=
  match cs with
  | [] => ret (newTree, uploadedPaths)
  | chunk :: cs' =>
      emit (BatchStarted (List.map remotePath chunk));;
      let* entries := promiseAll (List.map (uploadItem gh) chunk) in
      uploadChunks gh cs' (newTree ++ entries)
        (uploadedPaths ++ List.map GitTreeItem.path entries)
  end.

(** [finalTree]: the new entries, then the entries of the listing that the
    loop over it keeps. *)
Definition assembleFinalTree (config : SyncConfig) (baseTreeData : TreeData)
    (newTree : list GitTreeItem.t) (uploadedPaths filesToDelete : list string)
    (processed : gset string) : list GitTreeItem.t :=
  let uploadedSet : gset string := list_to_set uploadedPaths in
  newTree ++
  List.map
    (fun t => {| GitTreeItem.path := GitTreeItem.path t; GitTreeItem.mode := GitTreeItem.mode t;
                 GitTreeItem.type := GitTreeItem.type t; GitTreeItem.sha := GitTreeItem.sha t |})
    (List.filter
       (fun t =>
          String.eqb (GitTreeItem.type t) "blob"
          && negb (bool_decide (GitTreeItem.path t ∈ uploadedSet))
          && negb (bool_decide (GitTreeItem.path t ∈ filesToDelete))
          && negb (Js.truthy (targetPrefix config)
                   && Js.startsWith (GitTreeItem.path t) (targetPrefix config)
                   && negb (bool_decide (GitTreeItem.path t ∈ processed))
                   && deleteMissing config))
       (tree baseTreeData)).

Definition emptyTreeData : TreeData := {| tree := []; truncated := false |}.

(** The inner [try] of the scan: [latestCommitSha] is assigned as soon as
    the ref is resolved, [baseTreeData] only when the listing arrives; the
    [catch] logs and goes on with what is assigned. *)
Definition scan (gh : Provider) (defaultBranch : string)
  : M (option string * TreeData) :=
  let notFound :=
    addLog ("Branch '" +:+ defaultBranch
            +:+ "' not found (or repo empty). Initializing fresh upload.") info in
  try_catch
    (let* latestCommitSha := GitHubService.getRef gh defaultBranch in
     try_catch
       (let* baseTreeData := GitHubService.getTreeRecursive gh latestCommitSha in
        ret (Some latestCommitSha, baseTreeData))
       (fun e => notFound;; ret (Some latestCommitSha, emptyTreeData)))
    (fun e => notFound;; ret (None, emptyTreeData)).

Definition isTruthySha (latestCommitSha : option string) : bool :=
  match latestCommitSha with
  | Some s => Js.truthy s
  | None => false
  end.

(** The end of the body: tree, commit, ref, in this order. *)
Definition commitPhase (gh : Provider) (defaultBranch : string)
    (latestCommitSha : option string) (finalTree : list GitTreeItem.t)
    (commitMessage : string) : M unit :=
  let* newTreeSha := GitHubService.createTree gh finalTree in
  let* newCommitSha :=
    GitHubService.createCommit gh commitMessage newTreeSha latestCommitSha in
  (if isTruthySha latestCommitSha
   then GitHubService.updateRef gh defaultBranch newCommitSha
   else GitHubService.createRef gh defaultBranch newCommitSha);;
  setSyncState SUCCESS;;
  addLog "Sync completed successfully." success.

(** [commitMessage], before the tree is created. *)
Definition chooseCommitMessage (ai : Gemini) (config : SyncConfig)
    (filesToUpload : list UploadItem) (filesToDelete : list string) : string :=
  if autoCommitMessage config then
    generateCommitMessage ai
      (List.map remotePath (List.filter isNew filesToUpload))
      (List.map remotePath (List.filter (fun f => negb (isNew f)) filesToUpload))
      filesToDelete
  else "chore: sync " +:+ Js.decimal (List.length filesToUpload) +:+ " files".

Definition defaultBranchOf (config : SyncConfig) : string :=
  Js.or_else (Js.trim (branch config)) "main".

(** What follows the analysis. *)
Definition syncPlan (gh : Provider) (ai : Gemini) (config : SyncConfig)
    (latestCommitSha : option string) (baseTreeData : TreeData)
    (a : Analysis) (filesToDelete : list string) : M unit :=
  if (List.length (filesToUpload a) =? 0)%nat && (List.length filesToDelete =? 0)%nat then
    addLog "Remote is already up to date!" success;;
    setSyncState SUCCESS
  else
    setSyncState UPLOADING;;
    let* (newTree, uploadedPaths) := uploadChunks gh (chunks (filesToUpload a)) [] [] in
    let finalTree :=
      assembleFinalTree config baseTreeData newTree uploadedPaths filesToDelete
        (processedRemotePaths a) in
    setSyncState COMMITTING;;
    let commitMessage := chooseCommitMessage ai config (filesToUpload a) filesToDelete in
    commitPhase gh (defaultBranchOf config) latestCommitSha finalTree commitMessage.

(** The body of the outer [try] of [startSync]. *)
Definition syncBody (gh : Provider) (ai : Gemini) (config : SyncConfig)
    (files : list FileToSync.t) : M unit :=
  let defaultBranch := defaultBranchOf config in
  addLog ("Targeting branch: " +:+ defaultBranch) info;;
  let* (latestCommitSha, baseTreeData) := scan gh defaultBranch in
  when (truncated baseTreeData && deleteMissing config)
    (addLog ("Repo too large. " +:+ Js.dquote +:+ "Delete missing" +:+ Js.dquote
             +:+ " disabled safely.") warning);;
  setSyncState ANALYZING;;
  addLog "Analyzing file signatures..." info;;
  let a := analyze config files baseTreeData in
  let filesToDelete := computeFilesToDelete config baseTreeData (processedRemotePaths a) in
  addLog ("Analysis Complete: " +:+ Js.decimal (List.length (filesToUpload a))
          +:+ " to upload, " +:+ Js.decimal (List.length filesToDelete)
          +:+ " to delete.") info;;
  syncPlan gh ai config latestCommitSha baseTreeData a filesToDelete.

(** [startSync].  [isConnected] is the component's flag and [repoDetails]
    what [parseRepoUrl(config.repoUrl)] returned; the progress bar and the
    counters of the display are left out. *)
Definition startSync (gh : Provider) (ai : Gemini) (isConnected : bool)
    (repoDetails : option RepoDetails) (config : SyncConfig)
    (files : list FileToSync.t) : M unit :=
  if negb isConnected then ret tt
  else
    match repoDetails with
    | None => ret tt
    | Some _ =>
        if (List.length files =? 0)%nat && negb (deleteMissing config) then
          addLog "No files selected." warning
        else
          setSyncState SCANNING;;
          try_catch (syncBody gh ai config files)
            (fun e => setSyncState ERROR;;
                      addLog ("Error: " +:+ exn_message e) error)
    end.

(** ** The blob identity as Git documents it

    The hasher is compared with this second definition, written from the
    documentation: the SHA-1 of "blob ", the decimal length, one NUL byte
    and the content, as lowercase hexadecimal, two digits a byte. *)

Definition hex_digit (n : N) : ascii :=
  match n with
  | 0 => "0" | 1 => "1" | 2 => "2" | 3 => "3" | 4 => "4" | 5 => "5"
  | 6 => "6" | 7 => "7" | 8 => "8" | 9 => "9" | 10 => "a" | 11 => "b"
  | 12 => "c" | 13 => "d" | 14 => "e" | _ => "f"
  end%N%char.

Definition hex_lower (bs : list byte) : string :=
  fold_right
    (fun b s =>
       String (hex_digit (Byte.to_N b / 16)) (String (hex_digit (Byte.to_N b mod 16)) s))
    EmptyString bs.

Definition git_blob_identity (content : list byte) : string :=
  hex_lower
    (Sha1.digest
       (list_byte_of_string "blob "
          ++ list_byte_of_string (Js.decimal (List.length content))
          ++ [x00] ++ content)).

(** ** The plan of a run, as sets of paths *)

(** The combined remote path of a local file. *)
Definition remotePathOf (config : SyncConfig) (f : FileToSync.t) : string :=
  sanitizeGitPath (targetPrefix config +:+ FileToSync.path f).

Definition localRemotePaths (config : SyncConfig) (files : list FileToSync.t)
  : list string :=
  List.map (remotePathOf config) files.

Definition unchangedPaths (a : Analysis) : list string := filesSkipped a.

Definition newPaths (a : Analysis) : list string :=
  List.map remotePath (List.filter isNew (filesToUpload a)).

Definition modifiedPaths (a : Analysis) : list string :=
  List.map remotePath (List.filter (fun f => negb (isNew f)) (filesToUpload a)).

(** [p] lies in exactly one of three lists. *)
Definition inExactlyOne (p : string) (l1 l2 l3 : list string) : Prop :=
  (In p l1 /\ ~ In p l2 /\ ~ In p l3)
  \/ (~ In p l1 /\ In p l2 /\ ~ In p l3)
  \/ (~ In p l1 /\ ~ In p l2 /\ In p l3).

(** The partition of the local paths by the analysis: every local path in
    exactly one class, the classes together being the local paths, and the
    delete set apart from the three. *)
Definition exactPartition (config : SyncConfig) (files : list FileToSync.t)
    (baseTreeData : TreeData) : Prop :=
  let a := analyze config files baseTreeData in
  let filesToDelete := computeFilesToDelete config baseTreeData (processedRemotePaths a) in
  (forall p, In p (localRemotePaths config files) ->
             inExactlyOne p (unchangedPaths a) (newPaths a) (modifiedPaths a))
  /\ (forall p, In p (unchangedPaths a) \/ In p (newPaths a) \/ In p (modifiedPaths a)
                <-> In p (localRemotePaths config files))
  /\ (forall p, In p filesToDelete ->
                ~ In p (unchangedPaths a) /\ ~ In p (newPaths a) /\ ~ In p (modifiedPaths a)).

(** The class the loop gives one file. *)
Inductive Class := Unchanged | New | Modified.

Definition classify (config : SyncConfig) (remote : gmap string string)
    (f : FileToSync.t) : Class :=
  match remote !! remotePathOf config f with
  | Some remoteSha =>
      if Js.truthy remoteSha then
        match computeGitBlobSha (FileToSync.file f) with
        | Some localSha => if String.eqb localSha remoteSha then Unchanged else Modified
        | None => Modified
        end
      else New
  | None => New
  end.

Definition isClass (c : Class) (config : SyncConfig) (remote : gmap string string)
    (f : FileToSync.t) : bool :=
  match classify config remote f, c with
  | Unchanged, Unchanged | New, New | Modified, Modified => true
  | _, _ => false
  end.

Definition uploadItemOf (config : SyncConfig) (remote : gmap string string)
    (f : FileToSync.t) : list UploadItem :=
  match classify config remote f with
  | Unchanged => []
  | New => [{| item_file := f; remotePath := remotePathOf config f; isNew := true |}]
  | Modified => [{| item_file := f; remotePath := remotePathOf config f; isNew := false |}]
  end.

(** The blobs of a listing all carry a (non-empty) object id. *)
Definition blobsHaveIds (baseTreeData : TreeData) : Prop :=
  forall item, In item (tree baseTreeData) ->
               GitTreeItem.type item = "blob" -> GitTreeItem.sha item <> "".

(** [if (remoteSha)]: whether a path counts as present on the remote. *)
Definition remoteKnows (remote : gmap string string) (p : string) : bool :=
  match remote !! p with
  | Some s => Js.truthy s
  | None => false
  end.

(** ** Reading a run *)

(** The world after more events and log entries. *)
Definition extend (w : World) (evs : list Event) (lg : list LogEntry) : World :=
  {| syncState := syncState w; logs := logs w ++ lg; events := events w ++ evs;
     branchHead := branchHead w |}.

Definition withState (s : SyncState) (w : World) : World :=
  {| syncState := s; logs := logs w; events := events w; branchHead := branchHead w |}.

Definition withHead (commitSha : string) (w : World) : World :=
  {| syncState := syncState w; logs := logs w; events := events w;
     branchHead := Some commitSha |}.

(** The requests that write a tree, a commit or a ref. *)
Definition isMutation (e : Event) : bool :=
  match e with
  | Call (CreateTree _) | Call (CreateCommit _ _ _)
  | Call (UpdateRef _ _) | Call (CreateRef _ _) => true
  | _ => false
  end.

Definition mutationsOf (evs : list Event) : list Event := List.filter isMutation evs.

(** The batches started, in order. *)
Definition batchesOf (evs : list Event) : list (list string) :=
  List.flat_map (fun e => match e with BatchStarted ps => [ps] | Call _ => [] end) evs.

(** The blob requests, in order. *)
Definition blobCallsOf (evs : list Event) : list string :=
  List.flat_map
    (fun e => match e with Call (CreateBlob c) => [c] | _ => [] end) evs.

(** The messages of the commit requests, in order. *)
Definition commitMessagesOf (evs : list Event) : list string :=
  List.flat_map
    (fun e => match e with Call (CreateCommit m _ _) => [m] | _ => [] end) evs.

(** The trees of the tree requests, in order. *)
Definition treesOf (evs : list Event) : list (list GitTreeItem.t) :=
  List.flat_map
    (fun e => match e with Call (CreateTree t) => [t] | _ => [] end) evs.

(** What one upload gives when it goes through: the file is read, the
    provider accepts the blob. *)
Definition uploadResult (gh : Provider) (item : UploadItem) : option GitTreeItem.t :=
  match readFileAsBase64 (FileToSync.file (item_file item)) with
  | Some base64 =>
      match POST_blobs gh base64 with
      | Ok blobSha =>
          Some {| GitTreeItem.path := remotePath item; GitTreeItem.mode := "100644";
                  GitTreeItem.type := "blob"; GitTreeItem.sha := blobSha |}
      | _ => None
      end
  | None => None
  end.

Fixpoint uploadResults (gh : Provider) (items : list UploadItem)
  : option (list GitTreeItem.t) :=
  match items with
  | [] => Some []
  | item :: rest =>
      match uploadResult gh item, uploadResults gh rest with
      | Some e, Some es => Some (e :: es)
      | _, _ => None
      end
  end.

(** What the scan leaves in [latestCommitSha] and [baseTreeData]. *)
Definition scanOutcome (gh : Provider) (defaultBranch : string)
  : option string * TreeData :=
  match GET_ref gh defaultBranch with
  | Ok latestCommitSha =>
      match GET_tree gh latestCommitSha with
      | Ok baseTreeData => (Some latestCommitSha, baseTreeData)
      | _ => (Some latestCommitSha, emptyTreeData)
      end
  | _ => (None, emptyTreeData)
  end.

(** Events that write nothing and start no batch. *)
Definition quiet (evs : list Event) : Prop :=
  mutationsOf evs = [] /\ batchesOf evs = [].


(** The requests of the scan. *)
Definition scanEvents (gh : Provider) (defaultBranch : string) : list Event :=
  Call (GetRef defaultBranch)
  :: match GET_ref gh defaultBranch with
     | Ok latestCommitSha => [Call (GetTreeRecursive latestCommitSha)]
     | _ => []
     end.

(** The warning of a truncated listing. *)
Definition truncatedWarning : LogEntry :=
  {| message := "Repo too large. " +:+ Js.dquote +:+ "Delete missing" +:+ Js.dquote
                +:+ " disabled safely.";
     type := warning |}.

(** The plan of a run: the outcome of the scan, of the analysis and of the
    delete loop. *)
Record Plan := {
  latestCommitSha : option string;
  baseTreeData : TreeData;
  analysis : Analysis;
  filesToDelete : list string
}.

Definition planOf (gh : Provider) (config : SyncConfig) (files : list FileToSync.t)
  : Plan :=
  let s := scanOutcome gh (defaultBranchOf config) in
  let a := analyze config files (snd s) in
  {| latestCommitSha := fst s; baseTreeData := snd s; analysis := a;
     filesToDelete := computeFilesToDelete config (snd s) (processedRemotePaths a) |}.

(** The tree a plan ends in, given the entries of its uploads. *)
Definition finalTreeOf (config : SyncConfig) (p : Plan) (entries : list GitTreeItem.t)
  : list GitTreeItem.t :=
  assembleFinalTree config (baseTreeData p) entries
    (List.map GitTreeItem.path entries) (filesToDelete p)
    (processedRemotePaths (analysis p)).

Definition parentsOf (latestCommitSha : option string) : list string :=
  match latestCommitSha with
  | Some p => if Js.truthy p then [p] else []
  | None => []
  end.

(** The requests of the commit phase, as far as the provider lets it go. *)
Definition commitEvents (gh : Provider) (defaultBranch : string)
    (latestCommitSha : option string) (finalTree : list GitTreeItem.t)
    (commitMessage : string) : list Event :=
  Call (CreateTree finalTree)
  :: match POST_trees gh finalTree with
     | Ok newTreeSha =>
         Call (CreateCommit commitMessage newTreeSha (parentsOf latestCommitSha))
         :: match POST_commits gh commitMessage newTreeSha (parentsOf latestCommitSha) with
            | Ok newCommitSha =>
                [Call (if isTruthySha latestCommitSha
                       then UpdateRef defaultBranch newCommitSha
                       else CreateRef defaultBranch newCommitSha)]
            | _ => []
            end
     | _ => []
     end.

(** The commit the branch is moved to, when the provider accepts the tree,
    the commit and the ref. *)
Definition commitResult (gh : Provider) (defaultBranch : string)
    (latestCommitSha : option string) (finalTree : list GitTreeItem.t)
    (commitMessage : string) : option string :=
  match POST_trees gh finalTree with
  | Ok newTreeSha =>
      match POST_commits gh commitMessage newTreeSha (parentsOf latestCommitSha) with
      | Ok newCommitSha =>
          match (if isTruthySha latestCommitSha
                 then PATCH_ref gh defaultBranch newCommitSha
                 else POST_refs gh defaultBranch newCommitSha) with
          | Ok _ => Some newCommitSha
          | _ => None
          end
      | _ => None
      end
  | _ => None
  end.


(** The entries to upload of a run, and the world a connected run with a
    parsed repository ends in. *)
Definition uploadsOf (gh : Provider) (config : SyncConfig) (files : list FileToSync.t)
  : list UploadItem :=
  filesToUpload (analysis (planOf gh config files)).

Definition runFrom (gh : Provider) (ai : Gemini) (rd : RepoDetails)
    (config : SyncConfig) (files : list FileToSync.t) (w : World) : World :=
  fst (startSync gh ai true (Some rd) config files w).

(** The commit phase of a run whose uploads gave [es]. *)
Definition commitEventsOf (gh : Provider) (ai : Gemini) (config : SyncConfig)
    (files : list FileToSync.t) (es : list GitTreeItem.t) : list Event :=
  let p := planOf gh config files in
  commitEvents gh (defaultBranchOf config) (latestCommitSha p) (finalTreeOf config p es)
    (chooseCommitMessage ai config (filesToUpload (analysis p)) (filesToDelete p)).

Definition commitResultOf (gh : Provider) (ai : Gemini) (config : SyncConfig)
    (files : list FileToSync.t) (es : list GitTreeItem.t) : option string :=
  let p := planOf gh config files in
  commitResult gh (defaultBranchOf config) (latestCommitSha p) (finalTreeOf config p es)
    (chooseCommitMessage ai config (filesToUpload (analysis p)) (filesToDelete p)).



(** ** Resolving the branch head *)

(** The provider says the ref does not exist. *)
Definition branchAbsent (r : Response string) : Prop :=
  exists message, r = NotOk 404 message.

(** The error of [getRef]. *)
Definition branchNotFound (branch : string) : exn :=
  Error ("Branch '" +:+ branch +:+ "' not found.").

(** First-push mode: no parent commit and an empty remote tree. *)
Definition firstPush : option string * TreeData := (None, emptyTreeData).

(** The head resolution tells the absent branch from every other failure:
    [getRef] throws its not-found error exactly for an absent branch, and
    the scan goes to first-push mode for an absent branch only. *)
Definition absenceIsDistinguished (gh : Provider) (branch : string) (w : World) : Prop :=
  (snd (GitHubService.getRef gh branch w) = Throw (branchNotFound branch)
   <-> branchAbsent (GET_ref gh branch))
  /\ (snd (scan gh branch w) = Normal firstPush -> branchAbsent (GET_ref gh branch)).

(** The ref request fails, for whatever reason. *)
Definition refRequestFails (gh : Provider) (branch : string) : Prop :=
  forall sha, GET_ref gh branch <> Ok sha.

(** ** The commit message *)

(** The templated message. *)
Definition templateMessage (n : nat) : string :=
  "chore: sync " +:+ Js.decimal n +:+ " files".

(** The collaborator is unavailable (no key) or its call fails. *)
Definition collaboratorDown (ai : Gemini) : Prop :=
  Js.truthy (API_KEY ai) = false
  \/ forall added modified deleted, generateContent ai added modified deleted = None.

(** The message [generateCommitMessage] falls back to. *)
Definition fallbackMessage (ai : Gemini) : string :=
  if Js.truthy (API_KEY ai) then "chore: batch update via GitSync Mobile"
  else "chore: sync files via GitSync Mobile".

(** The run commits, once, with the templated message. *)
Definition commitsWithTemplate (gh : Provider) (ai : Gemini) (rd : RepoDetails)
    (config : SyncConfig) (files : list FileToSync.t) (w : World) : Prop :=
  commitMessagesOf (events (runFrom gh ai rd config files w))
  = commitMessagesOf (events w)
      ++ [templateMessage (List.length (uploadsOf gh config files))].

(** ** The final tree *)

Definition isBlob (item : GitTreeItem.t) : bool :=
  String.eqb (GitTreeItem.type item) "blob".

(** The paths of the blobs of a listing, one per entry. *)
Definition remoteBlobPaths (t : TreeData) : list string :=
  List.map GitTreeItem.path (List.filter isBlob (tree t)).

(** No two entries of the final tree share a path, whatever the uploads
    gave. *)
Definition finalTreeHasDistinctPaths (gh : Provider) (config : SyncConfig)
    (files : list FileToSync.t) : Prop :=
  forall es,
    uploadResults gh (uploadsOf gh config files) = Some es ->
    NoDup (List.map GitTreeItem.path (finalTreeOf config (planOf gh config files) es)).

(** ** The scope of the delete option *)

(** The blob paths of a listing that start with the target prefix; all of
    them when there is no prefix. *)
Definition inPrefixBlobPaths (config : SyncConfig) (t : TreeData) : list string :=
  List.map GitTreeItem.path
    (List.filter
       (fun item =>
          isBlob item
          && (negb (Js.truthy (targetPrefix config))
              || Js.startsWith (GitTreeItem.path item) (targetPrefix config)))
       (tree t)).

(** ** Concrete inputs *)

Module Sample.

Definition idle : World :=
  {| syncState := IDLE; logs := []; events := []; branchHead := Some "c0" |}.

Definition localFile (path content : string) : FileToSync.t :=
  {| FileToSync.path := path;
     FileToSync.file := {| arrayBuffer := Some (list_byte_of_string content);
                           dataURL_base64 := Some content |} |}.

Definition blob (path sha : string) : GitTreeItem.t :=
  {| GitTreeItem.path := path; GitTreeItem.mode := "100644";
     GitTreeItem.type := "blob"; GitTreeItem.sha := sha |}.

Definition emptyBlobSha : string := "e69de29bb2d1d6434b8b29ae775ad8c2e48c5391".

Definition config (targetPath : string) (deleteMissing autoCommitMessage : bool)
  : SyncConfig :=
  {| token := "t"; repoUrl := "owner/repo"; branch := "main";
     targetPath := targetPath; deleteMissing := deleteMissing;
     autoCommitMessage := autoCommitMessage |}.

(** A provider that accepts every request; the branch is at "c0" with the
    listing [t]. *)
Definition provider (t : TreeData) : Provider :=
  {| GET_ref := fun _ => Ok "c0";
     GET_tree := fun _ => Ok t;
     POST_blobs := fun content => Ok ("blob:" +:+ content);
     POST_trees := fun _ => Ok "t1";
     POST_commits := fun _ _ _ => Ok "c1";
     PATCH_ref := fun _ _ => Ok tt;
     POST_refs := fun _ _ => Ok tt |}.

(** The message collaborator without a key, and one whose call fails. *)
Definition noKey : Gemini :=
  {| API_KEY := ""; generateContent := fun _ _ _ => None |}.

Definition failing : Gemini :=
  {| API_KEY := "key"; generateContent := fun _ _ _ => None |}.

(** Two local files of one path, the first empty, and a remote that has
    the empty blob at that path. *)
Definition twoFilesOnePath : list FileToSync.t :=
  [localFile "a" ""; localFile "a" "x"].

Definition remoteEmptyA : TreeData :=
  {| tree := [blob "a" emptyBlobSha]; truncated := false |}.

End Sample.

Module Scenario.

(** A provider that refuses the blob of content [bad] and accepts the
    rest. *)
Definition refusing (bad : string) (t : TreeData) : Provider :=
  {| GET_ref := fun _ => Ok "c0";
     GET_tree := fun _ => Ok t;
     POST_blobs := fun content =>
       if String.eqb content bad then NotOk 500 "Server Error"
       else Ok ("blob:" +:+ content);
     POST_trees := fun _ => Ok "t1";
     POST_commits := fun _ _ _ => Ok "c1";
     PATCH_ref := fun _ _ => Ok tt;
     POST_refs := fun _ _ => Ok tt |}.

Definition sevenFiles : list FileToSync.t :=
  List.map (fun n => Sample.localFile n n) ["1"; "2"; "3"; "4"; "5"; "6"; "7"].

Definition noTree : TreeData := {| tree := []; truncated := false |}.

Definition rd : RepoDetails := {| owner := "owner"; repo := "repo" |}.

Definition sixth : UploadItem :=
  {| item_file := Sample.localFile "6" "6"; remotePath := "6"; isNew := true |}.

End Scenario.

Module Credentials.

(** A provider that rejects the token: every request is answered 401. *)
Definition rejected : Provider :=
  {| GET_ref := fun _ => NotOk 401 "Bad credentials";
     GET_tree := fun _ => NotOk 401 "Bad credentials";
     POST_blobs := fun _ => NotOk 401 "Bad credentials";
     POST_trees := fun _ => NotOk 401 "Bad credentials";
     POST_commits := fun _ _ _ => NotOk 401 "Bad credentials";
     PATCH_ref := fun _ _ => NotOk 401 "Bad credentials";
     POST_refs := fun _ _ => NotOk 401 "Bad credentials" |}.

End Credentials.

Module Prefix.

(** The target "src" with the delete option on, no local file, and a
    remote that has one blob, in the neighbouring directory "src2". *)
Definition config : SyncConfig := Sample.config "src" true false.

Definition neighbour : TreeData :=
  {| tree := [Sample.blob "src2/file" "1f"]; truncated := false |}.

(** The same target on a truncated listing with a blob under "src" that
    no local file matches, and one new local file. *)
Definition truncatedListing : TreeData :=
  {| tree := [Sample.blob "src/old" "1f"]; truncated := true |}.

Definition oneNewFile : list FileToSync.t := [Sample.localFile "new" "n"].

End Prefix.

Module Listing.

(** A provider whose branch is at "c0" and whose listing request fails;
    every other request is accepted. *)
Definition unavailable : Provider :=
  {| GET_ref := fun _ => Ok "c0";
     GET_tree := fun _ => NotOk 502 "Bad Gateway";
     POST_blobs := fun content => Ok ("blob:" +:+ content);
     POST_trees := fun _ => Ok "t1";
     POST_commits := fun _ _ _ => Ok "c1";
     PATCH_ref := fun _ _ => Ok tt;
     POST_refs := fun _ _ => Ok tt |}.

(** A provider without the branch: the ref request is answered 404, every
    other request is accepted. *)
Definition noBranch : Provider :=
  {| GET_ref := fun _ => NotOk 404 "Not Found";
     GET_tree := fun _ => NotOk 404 "Not Found";
     POST_blobs := fun content => Ok ("blob:" +:+ content);
     POST_trees := fun _ => Ok "t1";
     POST_commits := fun _ _ _ => Ok "c1";
     PATCH_ref := fun _ _ => Ok tt;
     POST_refs := fun _ _ => Ok tt |}.

End Listing.

Module Messages.

(** A collaborator that answers with a message between blank lines. *)
Definition answer : string :=
  String (ascii_of_nat 10) "feat: add a " +:+ String (ascii_of_nat 10) "".

Definition answering : Gemini :=
  {| API_KEY := "key"; generateContent := fun _ _ _ => Some answer |}.

End Messages.

(** ** Normalized paths *)

(** Whether the character [c] occurs in [s]. *)
Fixpoint hasChar (c : ascii) (s : string) : bool :=
  match s with
  | EmptyString => false
  | String x s' => Ascii.eqb x c || hasChar c s'
  end.

(** A segment of a repository path: not empty, not a dot segment, and
    free of both separators. *)
Definition cleanSegment (s : string) : Prop :=
  s <> "" /\ s <> "." /\ s <> ".."
  /\ hasChar "/" s = false /\ hasChar "\" s = false.

(** A repository path: clean segments joined by single slashes (the empty
    path has no segment). *)
Definition normalizedPath (p : string) : Prop :=
  exists segs, Forall cleanSegment segs /\ p = Js.join "/" segs.

(** ** App: the folder selection *)

(** A file of the picker's list: its path from the selected folder down
    (with the folder's own name first), its name, and the file. *)
Record DeviceFile := {
  webkitRelativePath : string;
  name : string;
  handle : File
}.

(** [relativePath] in the callback of [fileList.map]: the path without
    its first part when it has more than one. *)
Definition relativePathOf (f : DeviceFile) : string :=
  let fullPath := Js.or_else (webkitRelativePath f) (name f) in
  let parts := Js.split "/" fullPath in
  if (1 <? List.length parts)%nat then Js.join "/" (skipn 1 parts) else fullPath.

(** [syncFiles]. *)
Definition syncFilesOf (fileList : list DeviceFile) : list FileToSync.t :=
  List.filter
    (fun f => (0 <? String.length (FileToSync.path f))%nat)
    (List.map
       (fun f => {| FileToSync.path := sanitizeGitPath (relativePathOf f);
                    FileToSync.file := handle f |})
       fileList).

(** The local paths of a selection. *)
Definition localPaths (files : list FileToSync.t) : list string :=
  List.map FileToSync.path files.

(** The prefix the combined remote paths of a run start with: the
    normalized target and a slash, or nothing when the target normalizes
    to the empty path. *)
Definition effectivePrefix (config : SyncConfig) : string :=
  if Js.truthy (sanitizeGitPath (targetPath config))
  then sanitizeGitPath (targetPath config) +:+ "/"
  else "".

(** ** The shape of a run *)

(** Whether [startSync] gets past its three guards. *)
Definition started (isConnected : bool) (repoDetails : option RepoDetails)
    (config : SyncConfig) (files : list FileToSync.t) : bool :=
  isConnected
  && match repoDetails with Some _ => true | None => false end
  && negb ((List.length files =? 0)%nat && negb (deleteMissing config)).

(** The ref request of the commit phase. *)
Definition refCall (defaultBranch : string) (latestCommitSha : option string)
    (newCommitSha : string) : ApiCall :=
  if isTruthySha latestCommitSha
  then UpdateRef defaultBranch newCommitSha
  else CreateRef defaultBranch newCommitSha.

(** The writing requests of one run, in the order of the protocol: none,
    or a tree, or a tree and a commit, or a tree, a commit and a ref. *)
Definition orderedMutations (muts : list Event) : Prop :=
  muts = []
  \/ (exists t, muts = [Call (CreateTree t)])
  \/ (exists t m ts ps, muts = [Call (CreateTree t); Call (CreateCommit m ts ps)])
  \/ (exists t m ts ps r,
         muts = [Call (CreateTree t); Call (CreateCommit m ts ps); Call r]
         /\ ((exists b c, r = UpdateRef b c) \/ (exists b c, r = CreateRef b c))).

(** The upload entry of a file the remote does not have. *)
Definition newItemOf (config : SyncConfig) (f : FileToSync.t) : UploadItem :=
  {| item_file := f; remotePath := remotePathOf config f; isNew := true |}.

(** The blob payloads of the uploads whose file can be read, in order. *)
Definition payloadsOf (items : list UploadItem) : list string :=
  List.flat_map
    (fun item =>
       match readFileAsBase64 (FileToSync.file (item_file item)) with
       | Some base64 => [base64]
       | None => []
       end)
    items.

(** A lowercase hexadecimal digit. *)
Definition isHexDigit (c : ascii) : bool :=
  match nat_of_ascii c with
  | 48 | 49 | 50 | 51 | 52 | 53 | 54 | 55 | 56 | 57
  | 97 | 98 | 99 | 100 | 101 | 102 => true
  | _ => false
  end.

Fixpoint allHexDigits (s : string) : bool :=
  match s with
  | EmptyString => true
  | String c s' => isHexDigit c && allHexDigits s'
  end.

(** ** utils/fileUtils: the repository reference *)

Module JsString.

(** [s.endsWith(t)]: [t] is a suffix of [s]. *)
Fixpoint endsWith (s t : string) : bool :=
  String.eqb s t
  || match s with
     | EmptyString => false
     | String _ s' => endsWith s' t
     end.

(** [s.slice(0, -k)]: [s] without its last [k] characters. *)
Definition dropLast (k : nat) (s : string) : string :=
  String.substring 0 (String.length s - k) s.

(** [s.includes(t)]: [t] starts somewhere in [s]. *)
Fixpoint includes (s t : string) : bool :=
  String.prefix t s
  || match s with
     | EmptyString => false
     | String _ s' => includes s' t
     end.

End JsString.

(** What [new URL(s)] gives, as far as it is read; the parser is the
    platform's and is a parameter of the model ([None] when it throws). *)
Record ParsedUrl := { hostname : string; pathname : string }.

(** [while (cleanUrl.endsWith('/')) cleanUrl = cleanUrl.slice(0, -1)];
    each turn shortens the string, so its length is fuel enough. *)
Fixpoint dropTrailingSlashes (fuel : nat) (cleanUrl : string) : string :=
  match fuel with
  | O => cleanUrl
  | S fuel' =>
      if JsString.endsWith cleanUrl "/"
      then dropTrailingSlashes fuel' (JsString.dropLast 1 cleanUrl)
      else cleanUrl
  end.

(** [parseRepoUrl]; the [catch] is reached by [new URL] only. *)
Definition parseRepoUrl (URL : string -> option ParsedUrl) (url : string)
  : option RepoDetails :=
  if negb (Js.truthy url) then None
  else
    let cleanUrl := Js.trim url in
    let cleanUrl := dropTrailingSlashes (String.length cleanUrl) cleanUrl in
    let cleanUrl :=
      if JsString.endsWith cleanUrl ".git" then JsString.dropLast 4 cleanUrl
      else cleanUrl in
    let cleanUrl := dropTrailingSlashes (String.length cleanUrl) cleanUrl in
    if negb (Js.truthy cleanUrl) then None
    else
      let cleanUrl :=
        if Js.startsWith cleanUrl "github.com/" then "https://" +:+ cleanUrl
        else cleanUrl in
      if negb (Js.startsWith cleanUrl "http") then
        match Js.split "/" cleanUrl with
        | [owner; repo] => Some {| owner := owner; repo := repo |}
        | _ => None
        end
      else
        match URL cleanUrl with
        | None => None
        | Some urlObj =>
            if negb (JsString.includes (hostname urlObj) "github.com") then None
            else
              match List.filter Js.truthy (Js.split "/" (pathname urlObj)) with
              | owner :: repo :: _ => Some {| owner := owner; repo := repo |}
              | _ => None
              end
        end.

(** A name of an owner or of a repository, as it is typed: not empty,
    ASCII, without slash and without white space.  (On ASCII text the white
    space of [trim] is the one-byte white space, [Js.is_space].) *)
Fixpoint allAscii (s : string) : bool :=
  match s with
  | EmptyString => true
  | String x s' => (nat_of_ascii x <? 128)%nat && allAscii s'
  end.

Fixpoint hasSpace (s : string) : bool :=
  match s with
  | EmptyString => false
  | String x s' => Js.is_space x || hasSpace s'
  end.

Definition plainName (s : string) : Prop :=
  s <> "" /\ hasChar "/" s = false /\ hasSpace s = false /\ allAscii s = true.

(** [n] slashes. *)
Definition slashes (n : nat) : string := Js.repeat_char "/" n.

(** One-byte white space only. *)
Fixpoint allSpace (s : string) : bool :=
  match s with
  | EmptyString => true
  | String x s' => Js.is_space x && allSpace s'
  end.

(** What is left of a reference once it is trimmed and its trailing
    slashes, one [.git] and the slashes before it are gone. *)
Definition cleaned (url : string) : string :=
  let c1 := Js.strip_trailing "/" (Js.trim url) in
  let c2 := if JsString.endsWith c1 ".git" then JsString.dropLast 4 c1 else c1 in
  Js.strip_trailing "/" c2.

(** [s] starts with a white-space character. *)
Definition startsWithSpace (s : string) : bool :=
  match s with
  | EmptyString => false
  | String a r =>
      Js.is_space a
      || match r with
         | EmptyString => false
         | String b r2 =>
             Js.is_space2 a b
             || match r2 with
                | EmptyString => false
                | String c _ => Js.is_space3 a b c
                end
         end
  end.

(** White space beyond ASCII, in UTF-8: the no-break space U+00A0, the
    line separator U+2028 and the byte order mark U+FEFF. *)
Module Unicode.

Definition nbsp : string :=
  String (ascii_of_nat 194) (String (ascii_of_nat 160) "").

Definition lineSeparator : string :=
  String (ascii_of_nat 226) (String (ascii_of_nat 128) (String (ascii_of_nat 168) "")).

Definition bom : string :=
  String (ascii_of_nat 239) (String (ascii_of_nat 187) (String (ascii_of_nat 191) "")).

End Unicode.

(** ** App: the connection *)

Module Connect.

(** The provider's answers to the two requests of the connection: the
    [login] of the token's user, and the repository. *)
Record Account := {
  GET_user : Response string;
  GET_repos : string -> string -> Response unit
}.

Inductive Request :=
| GetUser
| GetRepo (owner repo : string).

(** The part of the component's state that [handleConnect] writes, and the
    requests made so far (oldest first). *)
Record State := {
  connectionError : option string;
  isConnected : bool;
  isConnecting : bool;
  logs : list LogEntry;
  requests : list Request
}.

(** What [GitHubService.request] returns or the message of what it throws,
    for an answer of the provider. *)
Definition answer {A} (r : Response A) : A + string :=
  match r with
  | Ok json => inl json
  | NotOk status message =>
      inr (Js.or_else message ("GitHub API Error: " +:+ Js.decimal status))
  | FetchRejected message => inr message
  end.

Definition asked (c : Request) (st : State) : State :=
  {| connectionError := connectionError st; isConnected := isConnected st;
     isConnecting := isConnecting st; logs := logs st;
     requests := requests st ++ [c] |}.

Definition addLog (message : string) (type : LogType) (st : State) : State :=
  {| connectionError := connectionError st; isConnected := isConnected st;
     isConnecting := isConnecting st;
     logs := logs st ++ [{| message := message; type := type |}];
     requests := requests st |}.

(** The [catch] of [handleConnect], followed by its [finally]. *)
Definition failed (msg : string) (st : State) : State :=
  let userFriendlyMsg :=
    if String.eqb msg "Not Found" || JsString.includes msg "404" then
      "Repository not found. Please check the URL, or ensure your Token has 'repo' permissions (private repos require this)."
    else if JsString.includes msg "Bad credentials" || JsString.includes msg "401" then
      "Invalid Token. Please check your Personal Access Token."
    else msg in
  let st := addLog ("Connection failed: " +:+ msg) error st in
  {| connectionError := Some userFriendlyMsg; isConnected := false;
     isConnecting := false; logs := logs st; requests := requests st |}.

(** [handleConnect].  The token goes into the header of the requests only,
    so its cleaning does not show in the model. *)
Definition handleConnect (URL : string -> option ParsedUrl) (acct : Account)
    (config : SyncConfig) (st : State) : State :=
  let st := {| connectionError := None; isConnected := isConnected st;
               isConnecting := isConnecting st; logs := logs st;
               requests := requests st |} in
  if negb (Js.truthy (token config)) || negb (Js.truthy (repoUrl config)) then
    {| connectionError := Some "Please enter a Token and Repository Link.";
       isConnected := isConnected st; isConnecting := isConnecting st;
       logs := logs st; requests := requests st |}
  else
    let st := {| connectionError := connectionError st; isConnected := isConnected st;
                 isConnecting := true; logs := logs st; requests := requests st |} in
    let repoUrl := Js.trim (repoUrl config) in
    match answer (GET_user acct) with
    | inr msg => failed msg (asked GetUser st)
    | inl username =>
        let st := addLog ("Authenticated as: " +:+ username) success (asked GetUser st) in
        match parseRepoUrl URL repoUrl with
        | None => failed "Invalid Repository URL format." st
        | Some repoDetails =>
            let st := asked (GetRepo (owner repoDetails) (repo repoDetails)) st in
            match answer (GET_repos acct (owner repoDetails) (repo repoDetails)) with
            | inr msg => failed msg st
            | inl _ =>
                let st :=
                  addLog ("Repository found: " +:+ owner repoDetails +:+ "/"
                          +:+ repo repoDetails) success st in
                {| connectionError := connectionError st; isConnected := true;
                   isConnecting := false; logs := logs st; requests := requests st |}
            end
        end
    end.

(** An account that answers both requests with success. *)
Definition open : Account :=
  {| GET_user := Ok "octo"; GET_repos := fun _ _ => Ok tt |}.

Definition fresh : State :=
  {| connectionError := None; isConnected := false; isConnecting := false;
     logs := []; requests := [] |}.

End Connect.

(** * Properties *)

(** ** The digest model on the vectors of FIPS 180 and of Git *)

Example sha1_vector_empty :
  hex_lower (Sha1.digest []) = "da39a3ee5e6b4b0d3255bfef95601890afd80709".
Proof. vm_compute. reflexivity. Qed.

Example sha1_vector_abc :
  hex_lower (Sha1.digest (list_byte_of_string "abc"))
  = "a9993e364706816aba3e25717850c26c9cd0d89d".
Proof. vm_compute. reflexivity. Qed.

Example sha1_vector_two_blocks :
  hex_lower (Sha1.digest (list_byte_of_string
      "abcdbcdecdefdefgefghfghighijhijkijkljklmklmnlmnomnopnopq"))
  = "84983e441c3bd26ebaae4aa1f95129e5e54670f1".
Proof. vm_compute. reflexivity. Qed.

(** The blob of the five letters of hello and a line feed, whose name
    [git hash-object] prints as ce0136... *)
Example git_blob_hello :
  gitBlobSha_of_buffer (list_byte_of_string ("hello" +:+ String (ascii_of_nat 10) ""))
  = Some "ce013625030ba8dba906f756967f9e9ca394464a".
Proof. vm_compute. reflexivity. Qed.

(** ** The path normalizer on the examples of its contract *)

Example sanitize_backslashes_and_runs : sanitizeGitPath "a\b//c/" = "a/b/c".
Proof. reflexivity. Qed.

Example sanitize_drops_dot_segments : sanitizeGitPath "../../x" = "x".
Proof. reflexivity. Qed.

Example sanitize_empty : sanitizeGitPath "" = "".
Proof. reflexivity. Qed.

(** ** The content hasher *)

Section Hasher.

Lemma list_byte_of_string_app (a b : string) :
  list_byte_of_string (a +:+ b) = list_byte_of_string a ++ list_byte_of_string b.
Proof.
  unfold list_byte_of_string.
  induction a as [|c a IH]; simpl; [reflexivity|].
  now f_equal.
Qed.

Lemma Uint8Array_set_start (source : list byte) (n : nat) :
  Js.Uint8Array_set (Js.Uint8Array_new (List.length source + n)) source 0
  = Some (source ++ Js.Uint8Array_new n).
Proof.
  unfold Js.Uint8Array_set, Js.Uint8Array_new.
  rewrite List.repeat_length. simpl.
  destruct (Nat.leb_spec (List.length source) (List.length source + n)); [|lia].
  f_equal. f_equal.
  rewrite List.repeat_app, List.skipn_app.
  rewrite List.repeat_length, Nat.sub_diag. simpl.
  rewrite List.skipn_all2; [reflexivity|].
  rewrite List.repeat_length. lia.
Qed.

Lemma Uint8Array_set_tail (head source : list byte) :
  Js.Uint8Array_set (head ++ Js.Uint8Array_new (List.length source)) source
    (List.length head)
  = Some (head ++ source).
Proof.
  unfold Js.Uint8Array_set, Js.Uint8Array_new.
  rewrite List.length_app, List.repeat_length.
  rewrite Nat.leb_refl. f_equal.
  rewrite List.firstn_app, Nat.sub_diag, List.firstn_all. simpl.
  rewrite List.app_nil_r. f_equal.
  rewrite List.skipn_all2; [now rewrite List.app_nil_r|].
  rewrite List.length_app, List.repeat_length. lia.
Qed.

Lemma byte_two_digits (b : byte) :
  Js.padStart 2 "0" (Js.toString16 (Byte.to_N b))
  = String (hex_digit (Byte.to_N b / 16))
      (String (hex_digit (Byte.to_N b mod 16)) EmptyString).
Proof. destruct b; reflexivity. Qed.

Lemma join_two_digits (bs : list byte) :
  Js.join ""
    (List.map (fun b => Js.padStart 2 "0" (Js.toString16 (Byte.to_N b))) bs)
  = hex_lower bs.
Proof.
  unfold Js.join.
  induction bs as [|b bs IH]; [reflexivity|].
  simpl List.map. simpl hex_lower. rewrite <- IH, byte_two_digits.
  destruct bs as [|b' bs]; reflexivity.
Qed.

Lemma gitBlobSha_of_buffer_identity (buffer : list byte) :
  gitBlobSha_of_buffer buffer = Some (git_blob_identity buffer).
Proof.
  unfold gitBlobSha_of_buffer, git_blob_identity, Js.TextEncoder_encode.
  rewrite Uint8Array_set_start, Uint8Array_set_tail, join_two_digits.
  rewrite !list_byte_of_string_app, <- !List.app_assoc.
  reflexivity.
Qed.

End Hasher.

(** C2.  Whatever the content [b] of a file, the hasher resolves, and to
    the Git blob identity of [b]: the SHA-1 of "blob ", the decimal length
    of [b], a NUL byte and [b], in lowercase hexadecimal; it reads nothing
    but the content, and the empty content gives Git's empty-blob name. *)
Theorem C2_hasher_is_git_blob_identity :
  (forall (b : list byte) (d : option string),
      computeGitBlobSha {| arrayBuffer := Some b; dataURL_base64 := d |}
      = Some (git_blob_identity b))
  /\ computeGitBlobSha {| arrayBuffer := Some []; dataURL_base64 := None |}
     = Some "e69de29bb2d1d6434b8b29ae775ad8c2e48c5391".
Proof.
  split.
  - intros b d. unfold computeGitBlobSha. simpl. apply gitBlobSha_of_buffer_identity.
  - vm_compute. reflexivity.
Qed.

(** ** The analysis pass *)

Section Analysis.

Variable config : SyncConfig.
Variable remote : gmap string string.

Let rp := remotePathOf config.

Lemma classify_cases (f : FileToSync.t) :
  (classify config remote f = Unchanged /\ isClass Unchanged config remote f = true
   /\ isClass New config remote f = false /\ isClass Modified config remote f = false)
  \/ (classify config remote f = New /\ isClass Unchanged config remote f = false
      /\ isClass New config remote f = true /\ isClass Modified config remote f = false)
  \/ (classify config remote f = Modified /\ isClass Unchanged config remote f = false
      /\ isClass New config remote f = false /\ isClass Modified config remote f = true).
Proof. unfold isClass. destruct (classify config remote f); intuition. Qed.

(** One turn of the loop pushes the file to the collection of its class. *)
Lemma analyzeFile_classify (acc : Analysis) (f : FileToSync.t) :
  analyzeFile (targetPrefix config) remote acc f =
  {| filesToUpload := filesToUpload acc ++ uploadItemOf config remote f;
     filesSkipped :=
       filesSkipped acc ++ (if isClass Unchanged config remote f then [rp f] else []);
     processedRemotePaths :=
       (if isClass New config remote f then ∅ else {[rp f]}) ∪ processedRemotePaths acc |}.
Proof.
  unfold analyzeFile, uploadItemOf, isClass, classify, rp, remotePathOf.
  destruct (remote !! _) as [sha|]; simpl.
  - destruct (Js.truthy sha); simpl.
    + destruct (computeGitBlobSha _) as [l|]; simpl.
      * destruct (String.eqb l sha); simpl; now rewrite ?List.app_nil_r.
      * now rewrite ?List.app_nil_r.
    + now rewrite List.app_nil_r, (left_id_L ∅ (∪)).
  - now rewrite List.app_nil_r, (left_id_L ∅ (∪)).
Qed.

Lemma analyze_fold (files : list FileToSync.t) (acc : Analysis) :
  fold_left (analyzeFile (targetPrefix config) remote) files acc =
  {| filesToUpload := filesToUpload acc ++ List.flat_map (uploadItemOf config remote) files;
     filesSkipped :=
       filesSkipped acc ++ List.map rp (List.filter (isClass Unchanged config remote) files);
     processedRemotePaths :=
       list_to_set
         (List.map rp (List.filter (fun f => negb (isClass New config remote f)) files))
       ∪ processedRemotePaths acc |}.
Proof.
  revert acc. induction files as [|f files IH]; intros acc.
  - simpl. rewrite !List.app_nil_r, (left_id_L ∅ (∪)). now destruct acc.
  - simpl fold_left. rewrite IH, analyzeFile_classify. simpl.
    rewrite <- !List.app_assoc. f_equal.
    + f_equal. destruct (isClass Unchanged config remote f); reflexivity.
    + destruct (isClass New config remote f); simpl.
      * now rewrite (left_id_L ∅ (∪)).
      * apply set_eq. intros x. rewrite !elem_of_union. tauto.
Qed.

Lemma flat_map_new (files : list FileToSync.t) :
  List.map remotePath (List.filter isNew (List.flat_map (uploadItemOf config remote) files))
  = List.map rp (List.filter (isClass New config remote) files).
Proof.
  induction files as [|f files IH]; [reflexivity|].
  simpl. rewrite List.filter_app, List.map_app, IH.
  unfold uploadItemOf, isClass. now destruct (classify config remote f).
Qed.

Lemma flat_map_modified (files : list FileToSync.t) :
  List.map remotePath
    (List.filter (fun i => negb (isNew i)) (List.flat_map (uploadItemOf config remote) files))
  = List.map rp (List.filter (isClass Modified config remote) files).
Proof.
  induction files as [|f files IH]; [reflexivity|].
  simpl. rewrite List.filter_app, List.map_app, IH.
  unfold uploadItemOf, isClass. now destruct (classify config remote f).
Qed.

Lemma flat_map_remotePath (files : list FileToSync.t) :
  Forall (fun i => remotePath i = rp (item_file i))
    (List.flat_map (uploadItemOf config remote) files).
Proof.
  induction files as [|f files IH]; simpl; [constructor|].
  apply Forall_app; split; [|exact IH].
  unfold uploadItemOf. destruct (classify config remote f); repeat constructor.
Qed.

(** Every file goes to one class: the three lists together are the local
    paths, each as often as it occurs. *)
Lemma classes_permutation (files : list FileToSync.t) :
  Permutation
    (List.map rp (List.filter (isClass Unchanged config remote) files)
     ++ List.map rp (List.filter (isClass New config remote) files)
     ++ List.map rp (List.filter (isClass Modified config remote) files))
    (List.map rp files).
Proof.
  induction files as [|f files IH]; [constructor|].
  simpl.
  destruct (classify_cases f) as [(_ & -> & -> & ->)|[(_ & -> & -> & ->)|(_ & -> & -> & ->)]];
    simpl.
  - now constructor.
  - symmetry. apply Permutation_cons_app. now symmetry.
  - symmetry. rewrite List.app_assoc. apply Permutation_cons_app.
    rewrite <- List.app_assoc. now symmetry.
Qed.

Lemma isClass_New_remoteKnows (f : FileToSync.t) :
  isClass New config remote f = negb (remoteKnows remote (rp f)).
Proof.
  unfold isClass, classify, remoteKnows, rp.
  destruct (remote !! _) as [s|]; [|reflexivity].
  destruct (Js.truthy s); [|reflexivity].
  destruct (computeGitBlobSha _) as [l|]; [|reflexivity].
  now destruct (String.eqb l s).
Qed.

Lemma in_class (c : Class) (files : list FileToSync.t) (p : string) :
  In p (List.map rp (List.filter (isClass c config remote) files))
  <-> exists f, In f files /\ rp f = p /\ isClass c config remote f = true.
Proof.
  rewrite List.in_map_iff. split.
  - intros (f & Hp & Hf). apply List.filter_In in Hf. exists f. tauto.
  - intros (f & Hin & Hp & Hc). exists f. rewrite List.filter_In. tauto.
Qed.

Lemma in_processed (files : list FileToSync.t) (p : string) :
  p ∈ (list_to_set
         (List.map rp (List.filter (fun f => negb (isClass New config remote f)) files))
       : gset string)
  <-> exists f, In f files /\ rp f = p /\ isClass New config remote f = false.
Proof.
  rewrite elem_of_list_to_set, list_elem_of_In, List.in_map_iff. split.
  - intros (f & Hp & Hf). apply List.filter_In in Hf. exists f.
    destruct (isClass New config remote f); intuition.
  - intros (f & Hin & Hp & Hc). exists f. rewrite List.filter_In, Hc. tauto.
Qed.

End Analysis.

(** ** The remote map and the delete set *)

Section RemoteMap.

Let step (m : gmap string string) (item : GitTreeItem.t) : gmap string string :=
  if String.eqb (GitTreeItem.type item) "blob"
  then <[GitTreeItem.path item := GitTreeItem.sha item]> m
  else m.

Lemma remote_fold_lookup (items : list GitTreeItem.t) (m : gmap string string)
    (p s : string) :
  fold_left step items m !! p = Some s ->
  m !! p = Some s
  \/ exists item, In item items /\ GitTreeItem.type item = "blob"
                  /\ GitTreeItem.path item = p /\ GitTreeItem.sha item = s.
Proof.
  revert m. induction items as [|item items IH]; intros m H; [now left|].
  simpl in H. apply IH in H. destruct H as [H|(i & Hin & Hi)].
  - unfold step in H. destruct (String.eqb_spec (GitTreeItem.type item) "blob") as [Hb|Hb].
    + destruct (decide (GitTreeItem.path item = p)) as [Hp|Hp].
      * subst p. rewrite lookup_insert_eq in H. right. exists item. simpl.
        intuition congruence.
      * rewrite lookup_insert_ne in H by exact Hp. now left.
    + now left.
  - right. exists i. simpl. tauto.
Qed.

Lemma remote_fold_some (items : list GitTreeItem.t) (m : gmap string string) (p : string) :
  is_Some (m !! p)
  \/ (exists item, In item items /\ GitTreeItem.type item = "blob"
                   /\ GitTreeItem.path item = p) ->
  is_Some (fold_left step items m !! p).
Proof.
  revert m. induction items as [|item items IH]; intros m H.
  - destruct H as [H|(i & [] & _)]. exact H.
  - simpl. apply IH. destruct H as [H|(i & [Hi|Hi] & Hb & Hp)].
    + left. unfold step. destruct (String.eqb _ _); [|exact H].
      destruct (decide (GitTreeItem.path item = p)) as [Hp|Hp].
      * subst p. rewrite lookup_insert_eq. eauto.
      * now rewrite lookup_insert_ne.
    + subst i. left. unfold step. rewrite Hb, String.eqb_refl, Hp, lookup_insert_eq. eauto.
    + right. exists i. tauto.
Qed.

(** A path the map knows is the path of a blob of the listing, with that
    blob's id. *)
Lemma remoteFileMap_lookup (t : TreeData) (p s : string) :
  remoteFileMap t !! p = Some s ->
  exists item, In item (tree t) /\ GitTreeItem.type item = "blob"
               /\ GitTreeItem.path item = p /\ GitTreeItem.sha item = s.
Proof.
  intros H. apply remote_fold_lookup in H. destruct H as [H|H]; [|exact H].
  now rewrite lookup_empty in H.
Qed.

(** The path of every blob of the listing is in the map. *)
Lemma remoteFileMap_blob (t : TreeData) (item : GitTreeItem.t) :
  In item (tree t) -> GitTreeItem.type item = "blob" ->
  is_Some (remoteFileMap t !! GitTreeItem.path item).
Proof.
  intros Hin Hb. apply remote_fold_some. right. exists item. tauto.
Qed.

Lemma truthy_nonempty (s : string) : Js.truthy s = true <-> s <> "".
Proof.
  unfold Js.truthy. destruct (String.eqb_spec s ""); simpl; split; congruence.
Qed.

(** When the blobs carry ids, the loop takes the path of every blob of
    the listing for present. *)
Lemma remoteKnows_blob (t : TreeData) (item : GitTreeItem.t) :
  blobsHaveIds t -> In item (tree t) -> GitTreeItem.type item = "blob" ->
  remoteKnows (remoteFileMap t) (GitTreeItem.path item) = true.
Proof.
  intros Hids Hin Hb. unfold remoteKnows.
  destruct (remoteFileMap_blob t item Hin Hb) as [s Hs]. rewrite Hs.
  apply remoteFileMap_lookup in Hs. destruct Hs as (i & Hi & Hib & _ & <-).
  apply truthy_nonempty. now apply Hids.
Qed.

End RemoteMap.

Lemma startsWith_app (s p : string) :
  Js.startsWith s p = true <-> exists rest, s = p +:+ rest.
Proof.
  unfold Js.startsWith. revert s. induction p as [|c p IH]; intros s.
  - simpl. split; [exists s; reflexivity|]. now destruct s.
  - destruct s as [|d s]; simpl.
    + split; [discriminate|]. intros (r & Hr).
      change ("" = String c (p +:+ r)) in Hr. discriminate.
    + destruct (Ascii.ascii_dec c d) as [->|Hne].
      * rewrite IH. split; intros (r & Hr); exists r.
        -- subst s. reflexivity.
        -- change (String d s = String d (p +:+ r)) in Hr. congruence.
      * split; [discriminate|]. intros (r & Hr).
        change (String d s = String c (p +:+ r)) in Hr. congruence.
Qed.

(** What the delete loop pushes: with the option on and a whole listing,
    the paths of the blobs that start with the prefix (all of them when
    there is no prefix) and were not matched by a local file. *)
Lemma in_filesToDelete (config : SyncConfig) (t : TreeData) (processed : gset string)
    (p : string) :
  In p (computeFilesToDelete config t processed)
  <-> deleteMissing config = true /\ truncated t = false
      /\ (exists item, In item (tree t) /\ GitTreeItem.type item = "blob"
                       /\ GitTreeItem.path item = p)
      /\ (Js.truthy (targetPrefix config) = false
          \/ Js.startsWith p (targetPrefix config) = true)
      /\ p ∉ processed.
Proof.
  unfold computeFilesToDelete.
  destruct (deleteMissing config), (truncated t); simpl;
    try (split; [intros []|intros (? & ? & _); discriminate]).
  rewrite List.in_map_iff. split.
  - intros (item & Hp & Hf). apply List.filter_In in Hf. destruct Hf as (Hin & Hc).
    apply andb_prop in Hc. destruct Hc as (Hc & Hproc).
    apply andb_prop in Hc. destruct Hc as (Hb & Hpre).
    apply String.eqb_eq in Hb. subst p.
    repeat split; eauto.
    + destruct (Js.truthy _); [|now left]. right.
      simpl in Hpre. now destruct (Js.startsWith _ _).
    + apply negb_true_iff, bool_decide_eq_false in Hproc. exact Hproc.
  - intros (_ & _ & (item & Hin & Hb & Hp) & Hpre & Hproc).
    exists item. split; [exact Hp|]. apply List.filter_In. split; [exact Hin|].
    rewrite Hb, Hp. simpl.
    rewrite (bool_decide_eq_false_2 _ Hproc). simpl.
    destruct Hpre as [-> | ->]; simpl; [reflexivity|].
    now rewrite andb_false_r.
Qed.

(** ** The partition of the local paths *)

(** C1, amended.  When the combined remote paths of the local files are
    pairwise distinct and the blobs of the listing carry ids, the analysis
    puts every local path in exactly one of unchanged, new and modified,
    the three together are the local paths, and the delete set shares no
    path with any of them. *)
Theorem C1_partition_of_distinct_paths (config : SyncConfig)
    (files : list FileToSync.t) (t : TreeData) :
  NoDup (localRemotePaths config files) -> blobsHaveIds t ->
  exactPartition config files t.
Proof.
  intros Hnodup Hids. unfold exactPartition, analyze.
  rewrite analyze_fold. unfold unchangedPaths, newPaths, modifiedPaths. simpl.
  rewrite flat_map_new, flat_map_modified, (right_id_L ∅ (∪)).
  set (remote := remoteFileMap t).
  set (U := List.map _ (List.filter (isClass Unchanged config remote) files)).
  set (N := List.map _ (List.filter (isClass New config remote) files)).
  set (Mo := List.map _ (List.filter (isClass Modified config remote) files)).
  assert (Hperm : Permutation (U ++ N ++ Mo) (localRemotePaths config files))
    by apply classes_permutation.
  assert (Hnd : NoDup (U ++ N ++ Mo)).
  { now rewrite Hperm. }
  apply NoDup_app in Hnd. destruct Hnd as (_ & HU & Hnd).
  apply NoDup_app in Hnd. destruct Hnd as (_ & HN & _).
  assert (Hunion : forall p, In p U \/ In p N \/ In p Mo
                             <-> In p (localRemotePaths config files)).
  { intros p. rewrite <- (Permutation_in' (eq_refl p) Hperm), !List.in_app_iff. tauto. }
  repeat split.
  - intros p Hp. apply Hunion in Hp. unfold inExactlyOne.
    pose proof (HU p) as HU'. pose proof (HN p) as HN'.
    rewrite !list_elem_of_In in HU', HN'. rewrite List.in_app_iff in HU'.
    tauto.
  - apply Hunion.
  - apply Hunion.
  - intros HpU. apply in_filesToDelete in H. destruct H as (_ & _ & _ & _ & Hproc).
    apply Hproc, in_processed. apply in_class in HpU.
    destruct HpU as (f & Hin & Hp & Hc). exists f. repeat split; try assumption.
    destruct (classify_cases config remote f) as [(_&?&?&?)|[(_&?&?&?)|(_&?&?&?)]];
      congruence.
  - intros HpN. apply in_filesToDelete in H.
    destruct H as (_ & _ & (item & Hitem & Hb & Hpath) & _ & _).
    apply in_class in HpN. destruct HpN as (f & Hin & Hp & Hc).
    rewrite isClass_New_remoteKnows, Hp, <- Hpath in Hc.
    unfold remote in Hc. rewrite (remoteKnows_blob t item Hids Hitem Hb) in Hc.
    discriminate.
  - intros HpM. apply in_filesToDelete in H. destruct H as (_ & _ & _ & _ & Hproc).
    apply Hproc, in_processed. apply in_class in HpM.
    destruct HpM as (f & Hin & Hp & Hc). exists f. repeat split; try assumption.
    destruct (classify_cases config remote f) as [(_&?&?&?)|[(_&?&?&?)|(_&?&?&?)]];
      congruence.
Qed.


Lemma C1_partition_of_distinct_paths_witness :
  exactPartition (Sample.config "src" true false)
    [Sample.localFile "a" ""; Sample.localFile "b" "x"]
    {| tree := [Sample.blob "src/a" Sample.emptyBlobSha; Sample.blob "src/old" "1f"];
       truncated := false |}.
Proof.
  apply C1_partition_of_distinct_paths.
  - apply (bool_decide_unpack _). vm_compute. exact I.
  - intros item [<-|[<-|[]]] _; discriminate.
Defined.

(** C1 as stated fails: of two local files that share the remote path "a"
    (the selection sanitizes a backslash in a file name to a slash, so two
    files of a folder can end with one path), one equal to the remote blob
    and one not, the first makes "a" unchanged and the second makes it
    modified. *)
Lemma C1_two_files_one_path_counterexample :
  ~ exactPartition (Sample.config "" false false) Sample.twoFilesOnePath
      Sample.remoteEmptyA.
Proof.
  intros (Hone & _).
  assert (HU : unchangedPaths
                 (analyze (Sample.config "" false false) Sample.twoFilesOnePath
                    Sample.remoteEmptyA) = ["a"]) by (vm_compute; reflexivity).
  assert (HM : modifiedPaths
                 (analyze (Sample.config "" false false) Sample.twoFilesOnePath
                    Sample.remoteEmptyA) = ["a"]) by (vm_compute; reflexivity).
  specialize (Hone "a"). rewrite HU, HM in Hone.
  assert (Hin : In "a" (localRemotePaths (Sample.config "" false false)
                          Sample.twoFilesOnePath)) by (vm_compute; tauto).
  destruct (Hone Hin) as [(_ & _ & H)|[(H & _)|(H & _)]]; apply H; simpl; tauto.
Qed.

(** ** Running the effects *)

Lemma extend_nil (w : World) : extend w [] [] = w.
Proof. destruct w. unfold extend. simpl. now rewrite !List.app_nil_r. Qed.

Lemma extend_extend (w : World) (e1 e2 : list Event) (l1 l2 : list LogEntry) :
  extend (extend w e1 l1) e2 l2 = extend w (e1 ++ e2) (l1 ++ l2).
Proof. unfold extend. simpl. now rewrite !List.app_assoc. Qed.

Lemma bind_run {A B} (m : M A) (k : A -> M B) (w w' : World) (c : Completion A) :
  m w = (w', c) ->
  bind m k w = match c with
               | Normal a => k a w'
               | Throw e => (w', Throw e)
               end.
Proof. intros H. unfold bind. rewrite H. now destruct c. Qed.

Lemma addLog_run (message : string) (type : LogType) (w : World) :
  addLog message type w
  = (extend w [] [{| message := message; type := type |}], Normal tt).
Proof. unfold addLog, extend. now rewrite List.app_nil_r. Qed.

Lemma emit_run (e : Event) (w : World) : emit e w = (extend w [e] [], Normal tt).
Proof. unfold emit, extend. now rewrite List.app_nil_r. Qed.

Lemma setSyncState_run (s : SyncState) (w : World) :
  setSyncState s w = (withState s w, Normal tt).
Proof. reflexivity. Qed.

Lemma request_run {A} (c : ApiCall) (r : Response A) (w : World) :
  GitHubService.request c r w
  = (extend w [Call c] [],
     match r with
     | Ok json => Normal json
     | NotOk status message =>
         Throw (Error (Js.or_else message ("GitHub API Error: " +:+ Js.decimal status)))
     | FetchRejected message => Throw (Error message)
     end).
Proof.
  unfold GitHubService.request. rewrite (bind_run _ _ _ _ _ (emit_run _ _)).
  now destruct r.
Qed.

Lemma quiet_nil : quiet [].
Proof. split; reflexivity. Qed.

Lemma mutationsOf_app (e1 e2 : list Event) :
  mutationsOf (e1 ++ e2) = mutationsOf e1 ++ mutationsOf e2.
Proof. apply List.filter_app. Qed.

Lemma batchesOf_app (e1 e2 : list Event) :
  batchesOf (e1 ++ e2) = batchesOf e1 ++ batchesOf e2.
Proof. apply List.flat_map_app. Qed.

Lemma quiet_app (e1 e2 : list Event) : quiet e1 -> quiet e2 -> quiet (e1 ++ e2).
Proof.
  intros (Hm1 & Hb1) (Hm2 & Hb2). split.
  - now rewrite mutationsOf_app, Hm1, Hm2.
  - now rewrite batchesOf_app, Hb1, Hb2.
Qed.

(** One upload: it writes no tree, commit or ref, and it ends well exactly
    when the file is read and the blob accepted. *)
Lemma uploadItem_run (gh : Provider) (item : UploadItem) (w : World) :
  exists evs lg c,
    uploadItem gh item w = (extend w evs lg, c)
    /\ quiet evs
    /\ match uploadResult gh item with
       | Some e => c = Normal e
       | None => exists x, c = Throw x
       end.
Proof.
  unfold uploadItem, uploadResult, try_catch, GitHubService.createBlob.
  destruct (readFileAsBase64 _) as [base64|].
  - unfold bind at 1 2. unfold ret at 1. rewrite request_run.
    destruct (POST_blobs gh base64) as [blobSha|status message|message].
    + unfold when, bind, ret. destruct (isNew item); cbv beta iota delta [negb].
      * eexists _, _, _. repeat split; reflexivity.
      * rewrite addLog_run, extend_extend.
        eexists _, _, _. repeat split; reflexivity.
    + unfold bind, throw. rewrite addLog_run, extend_extend.
      eexists _, _, _. repeat split; eauto.
    + unfold bind, throw. rewrite addLog_run, extend_extend.
      eexists _, _, _. repeat split; eauto.
  - unfold bind, throw. rewrite addLog_run.
    eexists _, _, _. repeat split; eauto.
Qed.

(** One batch: every upload of it runs, and the batch ends well exactly
    when all of them do. *)
Lemma promiseAll_run (gh : Provider) (chunk : list UploadItem) (w : World) :
  exists evs lg c,
    promiseAll (List.map (uploadItem gh) chunk) w = (extend w evs lg, c)
    /\ quiet evs
    /\ match uploadResults gh chunk with
       | Some es => c = Normal es
       | None => exists x, c = Throw x
       end.
Proof.
  revert w. induction chunk as [|item chunk IH]; intros w.
  - exists [], [], (Normal []). simpl. rewrite extend_nil. auto using quiet_nil.
  - simpl.
    destruct (uploadItem_run gh item w) as (e1 & l1 & c1 & -> & Hq1 & Hc1).
    destruct (IH (extend w e1 l1)) as (e2 & l2 & c2 & Hrun & Hq2 & Hc2).
    rewrite Hrun, extend_extend. simpl.
    exists (e1 ++ e2), (l1 ++ l2).
    destruct (uploadResult gh item) as [e|].
    + subst c1. destruct (uploadResults gh chunk) as [es|].
      * subst c2. eexists. eauto using quiet_app.
      * destruct Hc2 as (x & ->). eexists. eauto using quiet_app.
    + destruct Hc1 as (x & ->). eexists. eauto using quiet_app.
Qed.

Lemma uploadResults_app (gh : Provider) (l1 l2 : list UploadItem) :
  uploadResults gh (l1 ++ l2)
  = match uploadResults gh l1, uploadResults gh l2 with
    | Some e1, Some e2 => Some (e1 ++ e2)
    | _, _ => None
    end.
Proof.
  induction l1 as [|item l1 IH]; simpl.
  - now destruct (uploadResults gh l2).
  - rewrite IH. destruct (uploadResult gh item); [|reflexivity].
    now destruct (uploadResults gh l1), (uploadResults gh l2).
Qed.

Lemma uploadResults_paths (gh : Provider) (items : list UploadItem)
    (es : list GitTreeItem.t) :
  uploadResults gh items = Some es ->
  List.map GitTreeItem.path es = List.map remotePath items.
Proof.
  revert es. induction items as [|item items IH]; intros es H; simpl in H.
  - now inversion H.
  - destruct (uploadResult gh item) as [e|] eqn:He; [|discriminate].
    destruct (uploadResults gh items) as [es'|]; [|discriminate].
    inversion H; subst. simpl. rewrite (IH es' eq_refl). f_equal.
    unfold uploadResult in He.
    destruct (readFileAsBase64 _); [|discriminate].
    destruct (POST_blobs gh _); inversion He. reflexivity.
Qed.

Lemma uploadResults_none (gh : Provider) (items : list UploadItem) :
  uploadResults gh items = None
  <-> exists item, In item items /\ uploadResult gh item = None.
Proof.
  induction items as [|item items IH]; simpl.
  - split; [discriminate|]. intros (i & [] & _).
  - destruct (uploadResult gh item) as [e|] eqn:He.
    + destruct (uploadResults gh items) as [es|].
      * split; [discriminate|]. intros (i & [<-|Hin] & Hi); [congruence|].
        destruct IH as (_ & IH). discriminate IH. eauto.
      * split; [|reflexivity]. intros _. destruct IH as (IH & _).
        destruct (IH eq_refl) as (i & Hin & Hi). eauto.
    + split; [|reflexivity]. intros _. eauto.
Qed.

(** The upload loop: batch after batch; it writes no tree, commit or ref.
    When every upload goes through, all batches are started and the new
    entries are those of the uploads, in order; otherwise the loop throws
    at the first batch with a failing upload and starts none after it. *)
Lemma uploadChunks_run (gh : Provider) (cs : list (list UploadItem))
    (newTree : list GitTreeItem.t) (uploadedPaths : list string) (w : World) :
  exists evs lg c,
    uploadChunks gh cs newTree uploadedPaths w = (extend w evs lg, c)
    /\ mutationsOf evs = []
    /\ match uploadResults gh (List.concat cs) with
       | Some es =>
           c = Normal (newTree ++ es, uploadedPaths ++ List.map GitTreeItem.path es)
           /\ batchesOf evs = List.map (List.map remotePath) cs
       | None =>
           (exists x, c = Throw x)
           /\ exists pre bad post,
               cs = pre ++ bad :: post
               /\ is_Some (uploadResults gh (List.concat pre))
               /\ uploadResults gh bad = None
               /\ batchesOf evs = List.map (List.map remotePath) (pre ++ [bad])
       end.
Proof.
  revert newTree uploadedPaths w.
  induction cs as [|chunk cs IH]; intros newTree uploadedPaths w.
  - exists [], [], (Normal (newTree, uploadedPaths)). simpl.
    rewrite extend_nil, !List.app_nil_r. auto.
  - simpl uploadChunks. unfold bind at 1. rewrite emit_run. unfold bind at 1.
    destruct (promiseAll_run gh chunk (extend w [BatchStarted (List.map remotePath chunk)] []))
      as (e1 & l1 & c1 & -> & (Hm1 & Hb1) & Hc1).
    rewrite extend_extend. simpl List.concat. rewrite uploadResults_app.
    destruct (uploadResults gh chunk) as [es1|] eqn:Hchunk.
    + subst c1.
      destruct (IH (newTree ++ es1) (uploadedPaths ++ List.map GitTreeItem.path es1)
                  (extend w ([BatchStarted (List.map remotePath chunk)] ++ e1) ([] ++ l1)))
        as (e2 & l2 & c2 & -> & Hm2 & Hc2).
      rewrite extend_extend. eexists _, _, c2. split; [reflexivity|]. split.
      * rewrite !mutationsOf_app, Hm1, Hm2. reflexivity.
      * destruct (uploadResults gh (List.concat cs)) as [es2|].
        -- destruct Hc2 as (-> & Hb2). split.
           ++ now rewrite List.map_app, <- !List.app_assoc.
           ++ rewrite !batchesOf_app, Hb1, Hb2. reflexivity.
        -- destruct Hc2 as (Hx & pre & bad & post & -> & Hpre & Hbad & Hb2).
           split; [exact Hx|]. exists (chunk :: pre), bad, post.
           repeat split; try assumption.
           ++ simpl. rewrite uploadResults_app, Hchunk.
              destruct Hpre as (esp & ->). eauto.
           ++ rewrite !batchesOf_app, Hb1, Hb2. reflexivity.
    + destruct Hc1 as (x & ->). eexists _, _, (Throw x). split; [reflexivity|]. split.
      * rewrite !mutationsOf_app, Hm1. reflexivity.
      * split; [eauto|]. exists [], chunk, cs. repeat split; try assumption.
        -- simpl. eauto.
        -- rewrite !batchesOf_app, Hb1. reflexivity.
Qed.

(** ** The slices of the upload loop *)

Section Chunks.

Context {A : Type}.

Lemma chunksFrom_concat (fuel i : nat) (l : list A) :
  List.length l - i <= fuel ->
  List.concat (chunksFrom fuel i l) = skipn i l.
Proof.
  revert i. induction fuel as [|fuel IH]; intros i Hfuel; simpl.
  - symmetry. apply List.skipn_all2. lia.
  - destruct (Nat.ltb_spec i (List.length l)) as [Hlt|Hge].
    + simpl. rewrite IH by (unfold CHUNK_SIZE; lia).
      unfold Js.slice. replace (i + CHUNK_SIZE - i) with CHUNK_SIZE by lia.
      rewrite Nat.add_comm, <- List.skipn_skipn. apply List.firstn_skipn.
    + symmetry. apply List.skipn_all2. lia.
Qed.

(** The slices together are the list: the loop leaves nothing out. *)
Lemma chunks_concat (l : list A) : List.concat (chunks l) = l.
Proof. unfold chunks. rewrite chunksFrom_concat by lia. reflexivity. Qed.

Lemma chunksFrom_sizes (fuel i : nat) (l : list A) (pre post : list (list A))
    (c : list A) :
  chunksFrom fuel i l = pre ++ c :: post ->
  1 <= List.length c <= CHUNK_SIZE /\ (post <> [] -> List.length c = CHUNK_SIZE).
Proof.
  revert i pre. induction fuel as [|fuel IH]; intros i pre H; simpl in H.
  - now destruct pre.
  - destruct (Nat.ltb_spec i (List.length l)) as [Hlt|Hge]; [|now destruct pre].
    destruct pre as [|c0 pre]; simpl in H.
    + injection H as Hc Hpost. subst c.
      unfold Js.slice. replace (i + CHUNK_SIZE - i) with CHUNK_SIZE by lia.
      rewrite List.length_firstn, List.length_skipn. unfold CHUNK_SIZE in *.
      split; [lia|]. intros Hne.
      destruct fuel as [|fuel']; simpl in Hpost; [congruence|].
      destruct (Nat.ltb_spec (i + 5) (List.length l)); [lia|congruence].
    + injection H as Hc Hpost. eapply IH. exact Hpost.
Qed.

(** Every slice has between one and [CHUNK_SIZE] entries, and every slice
    but the last has [CHUNK_SIZE]. *)
Lemma chunks_sizes (l : list A) (pre post : list (list A)) (c : list A) :
  chunks l = pre ++ c :: post ->
  1 <= List.length c <= CHUNK_SIZE /\ (post <> [] -> List.length c = CHUNK_SIZE).
Proof. apply chunksFrom_sizes. Qed.

Lemma chunks_of_twelve (l : list A) :
  List.length l = 12 -> List.map (@List.length A) (chunks l) = [5; 5; 2].
Proof.
  intros H.
  do 12 (destruct l as [|? l]; [simpl in H; discriminate H|]).
  destruct l; [reflexivity|simpl in H; discriminate H].
Qed.

End Chunks.

(** ** The run, phase by phase *)

Lemma scan_run (gh : Provider) (defaultBranch : string) (w : World) :
  exists lg,
    scan gh defaultBranch w
    = (extend w (scanEvents gh defaultBranch) lg, Normal (scanOutcome gh defaultBranch)).
Proof.
  unfold scan, scanOutcome, scanEvents, try_catch, GitHubService.getRef,
    GitHubService.getTreeRecursive.
  unfold bind at 1. unfold try_catch. rewrite request_run.
  destruct (GET_ref gh defaultBranch) as [sha|status message|message].
  - unfold bind at 1. rewrite request_run.
    destruct (GET_tree gh sha) as [t|status message|message].
    + unfold ret. rewrite extend_extend. eexists. reflexivity.
    + unfold bind, ret. rewrite addLog_run, !extend_extend. eexists. reflexivity.
    + unfold bind, ret. rewrite addLog_run, !extend_extend. eexists. reflexivity.
  - unfold throw, bind, ret. rewrite addLog_run, !extend_extend. eexists. reflexivity.
  - unfold throw, bind, ret. rewrite addLog_run, !extend_extend. eexists. reflexivity.
Qed.

(** The body up to the end of the analysis: the requests of the scan, and
    the warning when a truncated listing meets the delete option. *)
Lemma syncBody_run (gh : Provider) (ai : Gemini) (config : SyncConfig)
    (files : list FileToSync.t) (w : World) :
  let p := planOf gh config files in
  exists lg,
    syncBody gh ai config files w
    = syncPlan gh ai config (latestCommitSha p) (baseTreeData p) (analysis p)
        (filesToDelete p)
        (withState ANALYZING (extend w (scanEvents gh (defaultBranchOf config)) lg))
    /\ (truncated (baseTreeData p) && deleteMissing config = true ->
        In truncatedWarning lg).
Proof.
  intros p. unfold syncBody.
  unfold bind at 1. rewrite addLog_run. unfold bind at 1.
  destruct (scan_run gh (defaultBranchOf config)
              (extend w [] [{| message := "Targeting branch: " +:+ defaultBranchOf config;
                               type := info |}])) as (lg & ->).
  rewrite extend_extend. subst p. unfold planOf.
  destruct (scanOutcome gh (defaultBranchOf config)) as [head t]. simpl fst. simpl snd.
  cbv beta iota. unfold bind at 1. unfold when.
  destruct (truncated t && deleteMissing config) eqn:Htr.
  - rewrite addLog_run, extend_extend. unfold bind at 1. rewrite setSyncState_run.
    unfold bind at 1. rewrite addLog_run. unfold bind at 1. rewrite addLog_run.
    unfold withState. simpl. eexists. split.
    + f_equal. unfold extend, withState. simpl. f_equal.
      rewrite <- !List.app_assoc. reflexivity.
      now rewrite !List.app_nil_r.
    + intros _. simpl. rewrite !List.in_app_iff. simpl. fold truncatedWarning. tauto.
  - unfold ret. unfold bind at 1. rewrite setSyncState_run.
    unfold bind at 1. rewrite addLog_run. unfold bind at 1. rewrite addLog_run.
    eexists. split; [|intros H; simpl in H; congruence].
    f_equal. unfold extend, withState. simpl. f_equal.
    rewrite <- !List.app_assoc. reflexivity.
    now rewrite !List.app_nil_r.
Qed.

Lemma commitPhase_run (gh : Provider) (defaultBranch : string)
    (head : option string) (finalTree : list GitTreeItem.t) (commitMessage : string)
    (w : World) :
  exists c,
    commitPhase gh defaultBranch head finalTree commitMessage w
    = (match commitResult gh defaultBranch head finalTree commitMessage with
       | Some newCommitSha =>
           withState SUCCESS
             (withHead newCommitSha
                (extend w (commitEvents gh defaultBranch head finalTree commitMessage)
                   [{| message := "Sync completed successfully."; type := success |}]))
       | None => extend w (commitEvents gh defaultBranch head finalTree commitMessage) []
       end, c)
    /\ match commitResult gh defaultBranch head finalTree commitMessage with
       | Some _ => c = Normal tt
       | None => exists x, c = Throw x
       end.
Proof.
  unfold commitPhase, commitResult, commitEvents, GitHubService.createTree,
    GitHubService.createCommit, GitHubService.updateRef, GitHubService.createRef.
  fold (parentsOf head).
  unfold bind at 1. rewrite request_run.
  destruct (POST_trees gh finalTree) as [tsha|st m|m]; [|eauto..].
  unfold bind at 1. rewrite request_run, extend_extend.
  destruct (POST_commits gh commitMessage tsha (parentsOf head)) as [csha|st m|m];
    [|eauto..].
  unfold bind at 1.
  destruct (isTruthySha head).
  - unfold bind at 1. rewrite request_run, extend_extend.
    destruct (PATCH_ref gh defaultBranch csha) as [[]|st m|m]; [|eauto..].
    unfold moveBranch, bind. rewrite setSyncState_run, addLog_run.
    eexists. split; [|reflexivity]. f_equal.
    unfold withState, withHead, extend. simpl. f_equal.
    all: now rewrite ?List.app_nil_r.
  - unfold bind at 1. rewrite request_run, extend_extend.
    destruct (POST_refs gh defaultBranch csha) as [[]|st m|m]; [|eauto..].
    unfold moveBranch, bind. rewrite setSyncState_run, addLog_run.
    eexists. split; [|reflexivity]. f_equal.
    unfold withState, withHead, extend. simpl. f_equal.
    all: now rewrite ?List.app_nil_r.
Qed.

(** Nothing to upload and nothing to delete: the plan ends at once. *)
Lemma syncPlan_up_to_date (gh : Provider) (ai : Gemini) (config : SyncConfig)
    (head : option string) (t : TreeData) (a : Analysis) (w : World) :
  filesToUpload a = [] ->
  syncPlan gh ai config head t a [] w
  = (withState SUCCESS
       (extend w [] [{| message := "Remote is already up to date!"; type := success |}]),
     Normal tt).
Proof.
  intros Hup. unfold syncPlan. rewrite Hup. simpl.
  unfold bind. now rewrite addLog_run, setSyncState_run.
Qed.

(** An upload fails: the plan throws in the upload loop. *)
Lemma syncPlan_upload_fails (gh : Provider) (ai : Gemini) (config : SyncConfig)
    (head : option string) (t : TreeData) (a : Analysis) (d : list string) (w : World) :
  uploadResults gh (filesToUpload a) = None ->
  exists evs lg x,
    syncPlan gh ai config head t a d w
    = (extend (withState UPLOADING w) evs lg, Throw x)
    /\ mutationsOf evs = []
    /\ exists pre bad post,
        chunks (filesToUpload a) = pre ++ bad :: post
        /\ is_Some (uploadResults gh (List.concat pre))
        /\ uploadResults gh bad = None
        /\ batchesOf evs = List.map (List.map remotePath) (pre ++ [bad]).
Proof.
  intros Hfail. unfold syncPlan.
  destruct (filesToUpload a) as [|item items] eqn:Hup; [discriminate Hfail|].
  rewrite <- Hup in *. replace (List.length (filesToUpload a) =? 0)%nat with false
    by (rewrite Hup; reflexivity).
  cbn [andb].
  unfold bind at 1. rewrite setSyncState_run. unfold bind at 1.
  destruct (uploadChunks_run gh (chunks (filesToUpload a)) [] [] (withState UPLOADING w))
    as (evs & lg & c & -> & Hm & Hc).
  rewrite chunks_concat, Hfail in Hc. destruct Hc as ((x & ->) & Hbatches).
  exists evs, lg, x. auto.
Qed.

(** Every upload goes through: the plan reaches the commit phase, with the
    tree assembled from the new entries. *)
Lemma syncPlan_uploaded (gh : Provider) (ai : Gemini) (config : SyncConfig)
    (head : option string) (t : TreeData) (a : Analysis) (d : list string)
    (es : list GitTreeItem.t) (w : World) :
  filesToUpload a <> [] \/ d <> [] ->
  uploadResults gh (filesToUpload a) = Some es ->
  exists evs lg,
    syncPlan gh ai config head t a d w
    = commitPhase gh (defaultBranchOf config) head
        (assembleFinalTree config t es (List.map GitTreeItem.path es) d
           (processedRemotePaths a))
        (chooseCommitMessage ai config (filesToUpload a) d)
        (withState COMMITTING (extend w evs lg))
    /\ mutationsOf evs = []
    /\ batchesOf evs = List.map (List.map remotePath) (chunks (filesToUpload a)).
Proof.
  intros Hwork Hok. unfold syncPlan.
  replace ((List.length (filesToUpload a) =? 0)%nat && (List.length d =? 0)%nat)
    with false.
  2:{ destruct (filesToUpload a), d; simpl; try reflexivity. destruct Hwork; congruence. }
  unfold bind at 1. rewrite setSyncState_run. unfold bind at 1.
  destruct (uploadChunks_run gh (chunks (filesToUpload a)) [] [] (withState UPLOADING w))
    as (evs & lg & c & -> & Hm & Hc).
  rewrite chunks_concat, Hok in Hc. destruct Hc as (-> & Hb).
  simpl. unfold bind at 1. rewrite setSyncState_run.
  exists evs, lg. auto.
Qed.

(** ** The run as a whole *)

Lemma analyze_no_files (config : SyncConfig) (t : TreeData) :
  analyze config [] t
  = {| filesToUpload := []; filesSkipped := []; processedRemotePaths := ∅ |}.
Proof. reflexivity. Qed.

Lemma uploads_need_files (gh : Provider) (config : SyncConfig)
    (files : list FileToSync.t) :
  uploadsOf gh config files <> [] -> (List.length files =? 0)%nat = false.
Proof.
  destruct files; [|reflexivity]. intros H. now contradiction H.
Qed.

Lemma startSync_started (gh : Provider) (ai : Gemini) (rd : RepoDetails)
    (config : SyncConfig) (files : list FileToSync.t) (w : World) :
  (List.length files =? 0)%nat && negb (deleteMissing config) = false ->
  startSync gh ai true (Some rd) config files w
  = try_catch (syncBody gh ai config files)
      (fun e => setSyncState ERROR;; addLog ("Error: " +:+ exn_message e) error)
      (withState SCANNING w).
Proof.
  intros Hguard. unfold startSync. simpl negb. cbv iota. rewrite Hguard.
  reflexivity.
Qed.

(** A run with nothing to upload and nothing to delete. *)
Lemma run_up_to_date (gh : Provider) (ai : Gemini) (rd : RepoDetails)
    (config : SyncConfig) (files : list FileToSync.t) (w : World) :
  (List.length files =? 0)%nat && negb (deleteMissing config) = false ->
  uploadsOf gh config files = [] ->
  filesToDelete (planOf gh config files) = [] ->
  exists lg,
    startSync gh ai true (Some rd) config files w
    = ({| syncState := SUCCESS; logs := logs w ++ lg;
          events := events w ++ scanEvents gh (defaultBranchOf config);
          branchHead := branchHead w |}, Normal tt)
    /\ (truncated (baseTreeData (planOf gh config files)) && deleteMissing config = true ->
        In truncatedWarning lg).
Proof.
  intros Hguard Hup Hdel. rewrite startSync_started by exact Hguard.
  unfold try_catch.
  destruct (syncBody_run gh ai config files (withState SCANNING w)) as (lg & -> & Hwarn).
  rewrite Hdel, syncPlan_up_to_date by exact Hup.
  unfold withState, withHead, extend; cbn [syncState logs events branchHead];
    rewrite <- ?List.app_assoc, ?List.app_nil_r.
  eexists. split; [reflexivity|].
  intros H. apply List.in_app_iff. left. auto.
Qed.

(** A run in which an upload fails. *)
Lemma run_upload_fails (gh : Provider) (ai : Gemini) (rd : RepoDetails)
    (config : SyncConfig) (files : list FileToSync.t) (w : World) :
  uploadResults gh (uploadsOf gh config files) = None ->
  exists lg evs,
    startSync gh ai true (Some rd) config files w
    = ({| syncState := ERROR; logs := logs w ++ lg;
          events := events w ++ scanEvents gh (defaultBranchOf config) ++ evs;
          branchHead := branchHead w |}, Normal tt)
    /\ mutationsOf evs = []
    /\ exists pre bad post,
        chunks (uploadsOf gh config files) = pre ++ bad :: post
        /\ is_Some (uploadResults gh (List.concat pre))
        /\ uploadResults gh bad = None
        /\ batchesOf evs = List.map (List.map remotePath) (pre ++ [bad]).
Proof.
  intros Hfail.
  assert (Hguard : (List.length files =? 0)%nat && negb (deleteMissing config) = false).
  { rewrite (uploads_need_files gh config files); [reflexivity|].
    intros H. rewrite H in Hfail. discriminate Hfail. }
  rewrite startSync_started by exact Hguard. unfold try_catch.
  destruct (syncBody_run gh ai config files (withState SCANNING w)) as (lg & -> & _).
  destruct (syncPlan_upload_fails gh ai config
              (latestCommitSha (planOf gh config files))
              (baseTreeData (planOf gh config files))
              (analysis (planOf gh config files))
              (filesToDelete (planOf gh config files))
              (withState ANALYZING
                 (extend (withState SCANNING w) (scanEvents gh (defaultBranchOf config)) lg))
              Hfail) as (evs & lg2 & x & -> & Hm & Hb).
  unfold bind. rewrite setSyncState_run, addLog_run.
  unfold withState, withHead, extend; cbn [syncState logs events branchHead];
    rewrite <- ?List.app_assoc, ?List.app_nil_r.
  eexists _, evs. split; [reflexivity|auto].
Qed.

(** A run whose uploads all go through. *)
Lemma run_uploaded (gh : Provider) (ai : Gemini) (rd : RepoDetails)
    (config : SyncConfig) (files : list FileToSync.t) (es : list GitTreeItem.t)
    (w : World) :
  (List.length files =? 0)%nat && negb (deleteMissing config) = false ->
  uploadsOf gh config files <> [] \/ filesToDelete (planOf gh config files) <> [] ->
  uploadResults gh (uploadsOf gh config files) = Some es ->
  exists lg evs,
    startSync gh ai true (Some rd) config files w
    = ({| syncState :=
            match commitResultOf gh ai config files es with
            | Some _ => SUCCESS
            | None => ERROR
            end;
          logs := logs w ++ lg;
          events := events w ++ scanEvents gh (defaultBranchOf config) ++ evs
                    ++ commitEventsOf gh ai config files es;
          branchHead :=
            match commitResultOf gh ai config files es with
            | Some newCommitSha => Some newCommitSha
            | None => branchHead w
            end |}, Normal tt)
    /\ mutationsOf evs = []
    /\ batchesOf evs = List.map (List.map remotePath) (chunks (uploadsOf gh config files))
    /\ (truncated (baseTreeData (planOf gh config files)) && deleteMissing config = true ->
        In truncatedWarning lg).
Proof.
  intros Hguard Hwork Hok. rewrite startSync_started by exact Hguard.
  unfold try_catch.
  destruct (syncBody_run gh ai config files (withState SCANNING w)) as (lg & -> & Hwarn).
  destruct (syncPlan_uploaded gh ai config
              (latestCommitSha (planOf gh config files))
              (baseTreeData (planOf gh config files))
              (analysis (planOf gh config files))
              (filesToDelete (planOf gh config files)) es
              (withState ANALYZING
                 (extend (withState SCANNING w) (scanEvents gh (defaultBranchOf config)) lg))
              Hwork Hok) as (evs & lg2 & -> & Hm & Hb).
  match goal with
  | |- context [commitPhase ?g ?b ?h ?t ?m ?w0] =>
      destruct (commitPhase_run g b h t m w0) as (c & -> & Hc)
  end.
  unfold commitResultOf, commitEventsOf, finalTreeOf, uploadsOf in *.
  simpl latestCommitSha. simpl baseTreeData. simpl filesToDelete. simpl analysis.
  destruct (commitResult _ _ _ _ _) as [csha|].
  - subst c. unfold withState, withHead, extend; cbn [syncState logs events branchHead];
    rewrite <- ?List.app_assoc, ?List.app_nil_r.
    eexists _, evs. split; [reflexivity|].
    repeat split; auto. intros H. rewrite !List.in_app_iff. auto.
  - destruct Hc as (x & ->). unfold bind. rewrite setSyncState_run, addLog_run.
    unfold withState, withHead, extend; cbn [syncState logs events branchHead];
    rewrite <- ?List.app_assoc, ?List.app_nil_r.
    eexists _, evs. split; [reflexivity|].
    repeat split; auto. intros H. rewrite !List.in_app_iff. auto.
Qed.

Lemma scanEvents_reads (gh : Provider) (b : string) :
  mutationsOf (scanEvents gh b) = [] /\ batchesOf (scanEvents gh b) = []
  /\ blobCallsOf (scanEvents gh b) = [] /\ treesOf (scanEvents gh b) = []
  /\ commitMessagesOf (scanEvents gh b) = [].
Proof. unfold scanEvents. destruct (GET_ref gh b); repeat split; reflexivity. Qed.

(** ** Upload failures *)

(** C3.  When an upload of the run fails: the uploads are taken in slices
    of five (every slice but the last has five entries, twelve entries give
    5, 5 and 2), batch after batch; the batches up to the first one with a
    failing upload are started and none after it; the run ends in ERROR;
    no tree, commit or ref request is issued and the branch stays where it
    was. *)
Theorem C3_failed_upload_aborts_run (gh : Provider) (ai : Gemini) (rd : RepoDetails)
    (config : SyncConfig) (files : list FileToSync.t) (w : World) (item : UploadItem) :
  In item (uploadsOf gh config files) ->
  uploadResult gh item = None ->
  syncState (runFrom gh ai rd config files w) = ERROR
  /\ branchHead (runFrom gh ai rd config files w) = branchHead w
  /\ (exists evs pre bad post,
         events (runFrom gh ai rd config files w) = events w ++ evs
         /\ mutationsOf evs = []
         /\ chunks (uploadsOf gh config files) = pre ++ bad :: post
         /\ is_Some (uploadResults gh (List.concat pre))
         /\ uploadResults gh bad = None
         /\ batchesOf evs = List.map (List.map remotePath) (pre ++ [bad]))
  /\ List.concat (chunks (uploadsOf gh config files)) = uploadsOf gh config files
  /\ (forall pre c post,
         chunks (uploadsOf gh config files) = pre ++ c :: post ->
         1 <= List.length c <= 5 /\ (post <> [] -> List.length c = 5))
  /\ (forall l : list UploadItem,
         List.length l = 12 -> List.map (@List.length UploadItem) (chunks l) = [5; 5; 2]).
Proof.
  intros Hin Hitem.
  assert (Hfail : uploadResults gh (uploadsOf gh config files) = None).
  { apply uploadResults_none. eauto. }
  destruct (run_upload_fails gh ai rd config files w Hfail)
    as (lg & evs & Hrun & Hm & pre & bad & post & Hchunks & Hpre & Hbad & Hb).
  unfold runFrom. rewrite Hrun. cbn [fst syncState branchHead events].
  destruct (scanEvents_reads gh (defaultBranchOf config)) as (Hsm & Hsb & _).
  split; [reflexivity|]. split; [reflexivity|]. split; [|split; [|split]].
  - exists (scanEvents gh (defaultBranchOf config) ++ evs), pre, bad, post.
    rewrite mutationsOf_app, batchesOf_app, Hsm, Hsb, Hm.
    split; [reflexivity|]. split; [reflexivity|]. tauto.
  - apply chunks_concat.
  - intros pre' c post' H. exact (chunks_sizes _ _ _ _ H).
  - intros l. apply chunks_of_twelve.
Qed.

Lemma C3_failed_upload_aborts_run_witness :
  syncState (runFrom (Scenario.refusing "6" Scenario.noTree) Sample.noKey Scenario.rd
               (Sample.config "" false false) Scenario.sevenFiles Sample.idle) = ERROR
  /\ branchHead (runFrom (Scenario.refusing "6" Scenario.noTree) Sample.noKey Scenario.rd
                   (Sample.config "" false false) Scenario.sevenFiles Sample.idle)
     = Some "c0".
Proof.
  pose proof (C3_failed_upload_aborts_run (Scenario.refusing "6" Scenario.noTree)
                Sample.noKey Scenario.rd (Sample.config "" false false)
                Scenario.sevenFiles Sample.idle Scenario.sixth) as H.
  destruct H as (Hstate & Hhead & _).
  - vm_compute. tauto.
  - vm_compute. reflexivity.
  - split; assumption.
Defined.

(** That run, event by event: the second batch is started,
    its second upload is never acknowledged, and no request follows. *)
Example seven_files_sixth_refused :
  events (runFrom (Scenario.refusing "6" Scenario.noTree) Sample.noKey Scenario.rd
            (Sample.config "" false false) Scenario.sevenFiles Sample.idle)
  = [Call (GetRef "main"); Call (GetTreeRecursive "c0");
     BatchStarted ["1"; "2"; "3"; "4"; "5"];
     Call (CreateBlob "1"); Call (CreateBlob "2"); Call (CreateBlob "3");
     Call (CreateBlob "4"); Call (CreateBlob "5");
     BatchStarted ["6"; "7"];
     Call (CreateBlob "6"); Call (CreateBlob "7")].
Proof. vm_compute. reflexivity. Qed.

(** ** A run on matching content *)

Lemma be_bytes_length (n : nat) (z : Z) : List.length (Sha1.be_bytes n z) = n.
Proof.
  revert z. induction n as [|n IH]; intros z; simpl; [reflexivity|].
  rewrite List.length_app, IH. simpl. lia.
Qed.

(** The digest has twenty bytes, so the hasher gives forty characters. *)
Lemma digest_length (msg : list byte) : List.length (Sha1.digest msg) = 20.
Proof. unfold Sha1.digest. now rewrite !List.length_app, !be_bytes_length. Qed.

Lemma hex_lower_length (bs : list byte) :
  String.length (hex_lower bs) = 2 * List.length bs.
Proof. induction bs as [|b bs IH]; simpl; [reflexivity|]. rewrite IH. lia. Qed.







(** ** Resolving the branch head *)

Lemma getRef_run (gh : Provider) (branch : string) (w : World) :
  GitHubService.getRef gh branch w
  = (extend w [Call (GetRef branch)] [],
     match GET_ref gh branch with
     | Ok sha => Normal sha
     | _ => Throw (branchNotFound branch)
     end).
Proof.
  unfold GitHubService.getRef, try_catch. rewrite request_run.
  now destruct (GET_ref gh branch).
Qed.

(** C6, amended.  [getRef] throws one and the same not-found error exactly
    when the ref request fails, whatever the cause; the scan never throws,
    and it goes to first-push mode (no parent commit, empty remote tree)
    exactly when the ref request fails. *)
Theorem C6_any_ref_failure_is_branch_not_found (gh : Provider) (branch : string)
    (w : World) :
  (snd (GitHubService.getRef gh branch w) = Throw (branchNotFound branch)
   <-> refRequestFails gh branch)
  /\ snd (scan gh branch w) = Normal (scanOutcome gh branch)
  /\ (snd (scan gh branch w) = Normal firstPush <-> refRequestFails gh branch).
Proof.
  rewrite getRef_run. destruct (scan_run gh branch w) as (lg & ->).
  cbn [snd]. unfold refRequestFails, scanOutcome, firstPush.
  destruct (GET_ref gh branch) as [sha|status message|message].
  - split; [|split; [reflexivity|]].
    + split; [discriminate|]. intros H. now contradiction (H sha).
    + split.
      * destruct (GET_tree gh sha); discriminate.
      * intros H. now contradiction (H sha).
  - repeat split; intros; discriminate.
  - repeat split; intros; discriminate.
Qed.

(** C6 as stated fails on a rejected token: the ref request is answered
    401, yet [getRef] throws the not-found error and the scan goes to
    first-push mode. *)
Lemma C6_bad_credentials_counterexample :
  ~ absenceIsDistinguished Credentials.rejected "main" Sample.idle.
Proof.
  intros (Hget & _).
  destruct Hget as (Hget & _).
  destruct Hget as (message & H).
  - rewrite getRef_run. reflexivity.
  - discriminate H.
Qed.

(** On a rejected token the run goes on as a first push: it takes the
    local file for new and asks for its blob. *)
Example bad_credentials_run :
  events (runFrom Credentials.rejected Sample.noKey Scenario.rd
            (Sample.config "" false false) [Sample.localFile "a" "x"] Sample.idle)
  = [Call (GetRef "main"); BatchStarted ["a"]; Call (CreateBlob "x")].
Proof. vm_compute. reflexivity. Qed.

(** ** The commit message *)

Lemma no_mutation_no_commit (evs : list Event) :
  mutationsOf evs = [] -> commitMessagesOf evs = [] /\ treesOf evs = [].
Proof.
  induction evs as [|e evs IH]; [auto|].
  unfold mutationsOf. simpl. destruct e as [[]|]; simpl; try discriminate; exact IH.
Qed.

Lemma commitMessagesOf_app (e1 e2 : list Event) :
  commitMessagesOf (e1 ++ e2) = commitMessagesOf e1 ++ commitMessagesOf e2.
Proof. apply List.flat_map_app. Qed.

Lemma treesOf_app (e1 e2 : list Event) : treesOf (e1 ++ e2) = treesOf e1 ++ treesOf e2.
Proof. apply List.flat_map_app. Qed.

Lemma commitEvents_tree (gh : Provider) (b : string) (head : option string)
    (finalTree : list GitTreeItem.t) (message : string) :
  treesOf (commitEvents gh b head finalTree message) = [finalTree].
Proof.
  unfold commitEvents. destruct (POST_trees gh finalTree); [|reflexivity..].
  simpl. destruct (POST_commits gh _ _ _); [|reflexivity..].
  simpl. now destruct (isTruthySha head).
Qed.

Lemma commitEvents_message (gh : Provider) (b : string) (head : option string)
    (finalTree : list GitTreeItem.t) (message newTreeSha : string) :
  POST_trees gh finalTree = Ok newTreeSha ->
  commitMessagesOf (commitEvents gh b head finalTree message) = [message].
Proof.
  intros H. unfold commitEvents. rewrite H.
  simpl. destruct (POST_commits gh _ _ _); [|reflexivity..].
  simpl. now destruct (isTruthySha head).
Qed.

(** A run with something to upload or to delete has passed the guard on
    an empty selection. *)
Lemma work_passes_guard (gh : Provider) (config : SyncConfig)
    (files : list FileToSync.t) :
  uploadsOf gh config files <> [] \/ filesToDelete (planOf gh config files) <> [] ->
  (List.length files =? 0)%nat && negb (deleteMissing config) = false.
Proof.
  intros [Hup|Hdel].
  - now rewrite (uploads_need_files gh config files Hup).
  - destruct (deleteMissing config) eqn:Hd; [apply andb_false_r|].
    contradiction Hdel. unfold planOf. cbn [filesToDelete].
    unfold computeFilesToDelete. now rewrite Hd.
Qed.

Lemma fallback_when_down (ai : Gemini) (config : SyncConfig)
    (uploads : list UploadItem) (deleted : list string) :
  autoCommitMessage config = true -> collaboratorDown ai ->
  chooseCommitMessage ai config uploads deleted = fallbackMessage ai.
Proof.
  intros Hauto Hdown. unfold chooseCommitMessage, generateCommitMessage, fallbackMessage.
  rewrite Hauto. destruct Hdown as [-> | Hfail]; [reflexivity|].
  destruct (Js.truthy (API_KEY ai)); [|reflexivity]. simpl. now rewrite Hfail.
Qed.

Lemma digits_no_f (d : Decimal.uint) :
  hasChar "f" (DecimalString.NilEmpty.string_of_uint d) = false.
Proof. induction d; simpl; auto. Qed.

Lemma decimal_no_f (n : nat) : hasChar "f" (Js.decimal n) = false.
Proof.
  unfold Js.decimal, DecimalString.NilZero.string_of_uint.
  destruct (Nat.to_uint n) eqn:E; try reflexivity; rewrite <- E; apply digits_no_f.
Qed.

(** Neither fallback of the helper is a templated message. *)
Lemma fallback_is_not_template (ai : Gemini) (n : nat) :
  fallbackMessage ai <> templateMessage n.
Proof.
  unfold fallbackMessage, templateMessage.
  destruct (Js.truthy (API_KEY ai)); [discriminate|].
  intros H.
  change ("chore: sync " +:+ Js.decimal n +:+ " files")
    with (String "c" (String "h" (String "o" (String "r" (String "e" (String ":"
           (String " " (String "s" (String "y" (String "n" (String "c" (String " "
              (Js.decimal n +:+ " files"))))))))))))) in H.
  injection H as H. pose proof (decimal_no_f n) as Hf.
  destruct (Js.decimal n) as [|x rest]; [discriminate H|].
  change (String x rest +:+ " files") with (String x (rest +:+ " files")) in H.
  injection H as <- _. discriminate Hf.
Qed.

(** C7, amended.  When automatic generation is requested and the
    collaborator has no key or its call fails, a run that reaches the commit
    phase is not aborted: once the tree is created (the provider takes its
    entries in any order) it asks for one commit,
    whose message is the fixed fallback of the helper ("chore: sync files
    via GitSync Mobile" without a key, "chore: batch update via GitSync
    Mobile" after a failed call) and never the templated "chore: sync N
    files", and it ends in SUCCESS when the provider accepts the tree, the
    commit and the ref. *)
Theorem C7_fallback_message_of_helper (gh : Provider) (ai : Gemini) (rd : RepoDetails)
    (config : SyncConfig) (files : list FileToSync.t) (es : list GitTreeItem.t)
    (newTreeSha : string) (w : World) :
  autoCommitMessage config = true ->
  collaboratorDown ai ->
  uploadsOf gh config files <> [] \/ filesToDelete (planOf gh config files) <> [] ->
  uploadResults gh (uploadsOf gh config files) = Some es ->
  (forall sent,
      Permutation sent (finalTreeOf config (planOf gh config files) es) ->
      POST_trees gh sent = Ok newTreeSha) ->
  commitMessagesOf (events (runFrom gh ai rd config files w))
  = commitMessagesOf (events w) ++ [fallbackMessage ai]
  /\ (forall n, fallbackMessage ai <> templateMessage n)
  /\ (forall newCommitSha,
         commitResultOf gh ai config files es = Some newCommitSha ->
         syncState (runFrom gh ai rd config files w) = SUCCESS
         /\ branchHead (runFrom gh ai rd config files w) = Some newCommitSha).
Proof.
  intros Hauto Hdown Hwork Hok Hsent.
  pose proof (Hsent _ (Permutation_refl _)) as Htree.
  destruct (run_uploaded gh ai rd config files es w (work_passes_guard _ _ _ Hwork)
              Hwork Hok) as (lg & evs & Hrun & Hm & _).
  unfold runFrom. rewrite Hrun. cbn [fst syncState branchHead events]. split.
  - rewrite !commitMessagesOf_app.
    destruct (scanEvents_reads gh (defaultBranchOf config)) as (_ & _ & _ & _ & ->).
    destruct (no_mutation_no_commit evs Hm) as (-> & _).
    unfold commitEventsOf.
    rewrite (commitEvents_message _ _ _ _ _ newTreeSha Htree).
    now rewrite (fallback_when_down ai config _ _ Hauto Hdown).
  - split; [intros n; apply fallback_is_not_template|].
    intros c Hc. now rewrite Hc.
Qed.

Lemma C7_fallback_message_of_helper_witness :
  commitMessagesOf
    (events (runFrom (Sample.provider Scenario.noTree) Sample.failing Scenario.rd
               (Sample.config "" false true) [Sample.localFile "a" "x"] Sample.idle))
  = ["chore: batch update via GitSync Mobile"].
Proof.
  refine (proj1 (C7_fallback_message_of_helper (Sample.provider Scenario.noTree)
                   Sample.failing Scenario.rd (Sample.config "" false true)
                   [Sample.localFile "a" "x"]
                   [Sample.blob "a" "blob:x"] "t1" Sample.idle _ _ _ _ _)).
  - reflexivity.
  - right. reflexivity.
  - left. vm_compute. discriminate.
  - vm_compute. reflexivity.
  - intros sent _. reflexivity.
Defined.

(** C7 as stated fails without a key: automatic generation is requested,
    the collaborator is unavailable, one file is uploaded, and the commit
    is asked for with the helper's own message, not "chore: sync 1 files". *)
Lemma C7_no_key_counterexample :
  autoCommitMessage (Sample.config "" false true) = true
  /\ collaboratorDown Sample.noKey
  /\ ~ commitsWithTemplate (Sample.provider Scenario.noTree) Sample.noKey Scenario.rd
         (Sample.config "" false true) [Sample.localFile "a" "x"] Sample.idle.
Proof.
  split; [reflexivity|]. split; [left; reflexivity|].
  unfold commitsWithTemplate. vm_compute. discriminate.
Qed.

(** ** The final tree *)

Lemma uploads_sublist (config : SyncConfig) (remote : gmap string string)
    (files : list FileToSync.t) :
  sublist (List.map remotePath (List.flat_map (uploadItemOf config remote) files))
    (List.map (remotePathOf config) files).
Proof.
  induction files as [|f files IH]; simpl; [constructor|].
  rewrite List.map_app. unfold uploadItemOf at 1.
  destruct (classify config remote f); simpl.
  - now apply sublist_cons.
  - now apply sublist_skip.
  - now apply sublist_skip.
Qed.

Lemma filter_map_sublist {A B} (g : A -> B) (keep among : A -> bool) (l : list A) :
  (forall x, keep x = true -> among x = true) ->
  sublist (List.map g (List.filter keep l)) (List.map g (List.filter among l)).
Proof.
  intros Hsub. induction l as [|x l IH]; simpl; [constructor|].
  destruct (keep x) eqn:Hk.
  - rewrite (Hsub x Hk). simpl. now apply sublist_skip.
  - destruct (among x); simpl; [now apply sublist_cons|exact IH].
Qed.

Section FinalTree.

Variable config : SyncConfig.
Variable t : TreeData.
Variable es : list GitTreeItem.t.
Variable deleted : list string.
Variable processed : gset string.

Let finalTree :=
  assembleFinalTree config t es (List.map GitTreeItem.path es) deleted processed.

(** An entry of the final tree is a new entry, or a blob of the listing
    whose path was not uploaded. *)
Lemma in_finalTree (e : GitTreeItem.t) :
  In e finalTree ->
  In e es
  \/ (In e (tree t) /\ isBlob e = true
      /\ ~ In (GitTreeItem.path e) (List.map GitTreeItem.path es)
      /\ ~ In (GitTreeItem.path e) deleted).
Proof.
  unfold finalTree, assembleFinalTree. rewrite List.in_app_iff, List.in_map_iff.
  intros [He|(x & Hx & Hin)]; [now left|]. right.
  assert (e = x) by (subst e; now destruct x). subst x. clear Hx.
  apply List.filter_In in Hin. destruct Hin as (Hin & Hkeep).
  apply andb_prop in Hkeep. destruct Hkeep as (Hkeep & _).
  apply andb_prop in Hkeep. destruct Hkeep as (Hkeep & Hdel).
  apply andb_prop in Hkeep. destruct Hkeep as (Hblob & Hup).
  apply negb_true_iff, bool_decide_eq_false in Hup, Hdel.
  rewrite elem_of_list_to_set, list_elem_of_In in Hup.
  rewrite list_elem_of_In in Hdel. auto.
Qed.

Lemma finalTree_paths :
  List.map GitTreeItem.path finalTree
  = List.map GitTreeItem.path es
    ++ List.map GitTreeItem.path
         (List.filter
            (fun x =>
               String.eqb (GitTreeItem.type x) "blob"
               && negb (bool_decide (GitTreeItem.path x
                                     ∈ (list_to_set (List.map GitTreeItem.path es)
                                        : gset string)))
               && negb (bool_decide (GitTreeItem.path x ∈ deleted))
               && negb (Js.truthy (targetPrefix config)
                        && Js.startsWith (GitTreeItem.path x) (targetPrefix config)
                        && negb (bool_decide (GitTreeItem.path x ∈ processed))
                        && deleteMissing config))
            (tree t)).
Proof.
  unfold finalTree, assembleFinalTree. rewrite List.map_app, List.map_map. reflexivity.
Qed.

Lemma finalTree_distinct :
  NoDup (List.map GitTreeItem.path es) -> NoDup (remoteBlobPaths t) ->
  NoDup (List.map GitTreeItem.path finalTree).
Proof.
  intros Hes Hremote. rewrite finalTree_paths. apply NoDup_app. split; [exact Hes|].
  split.
  - intros p Hp Hq. rewrite list_elem_of_In in Hp, Hq.
    apply List.in_map_iff in Hq. destruct Hq as (x & <- & Hx).
    apply List.filter_In in Hx. destruct Hx as (_ & Hkeep).
    apply andb_prop in Hkeep. destruct Hkeep as (Hkeep & _).
    apply andb_prop in Hkeep. destruct Hkeep as (Hkeep & _).
    apply andb_prop in Hkeep. destruct Hkeep as (_ & Hup).
    apply negb_true_iff, bool_decide_eq_false in Hup.
    apply Hup. now rewrite elem_of_list_to_set, list_elem_of_In.
  - eapply sublist_NoDup; [exact Hremote|].
    unfold remoteBlobPaths. apply filter_map_sublist. intros x Hx.
    apply andb_prop in Hx. destruct Hx as (Hx & _).
    apply andb_prop in Hx. destruct Hx as (Hx & _).
    apply andb_prop in Hx. destruct Hx as (Hx & _). exact Hx.
Qed.

End FinalTree.

Lemma treesOf_run (gh : Provider) (ai : Gemini) (rd : RepoDetails)
    (config : SyncConfig) (files : list FileToSync.t) (es : list GitTreeItem.t)
    (w : World) :
  uploadsOf gh config files <> [] \/ filesToDelete (planOf gh config files) <> [] ->
  uploadResults gh (uploadsOf gh config files) = Some es ->
  treesOf (events (runFrom gh ai rd config files w))
  = treesOf (events w) ++ [finalTreeOf config (planOf gh config files) es].
Proof.
  intros Hwork Hok.
  destruct (run_uploaded gh ai rd config files es w (work_passes_guard _ _ _ Hwork)
              Hwork Hok) as (lg & evs & Hrun & Hm & _).
  unfold runFrom. rewrite Hrun. cbn [fst events]. rewrite !treesOf_app.
  destruct (scanEvents_reads gh (defaultBranchOf config)) as (_ & _ & _ & -> & _).
  destruct (no_mutation_no_commit evs Hm) as (_ & ->).
  unfold commitEventsOf. now rewrite commitEvents_tree.
Qed.

(** C8, amended.  When the combined remote paths of the local files are
    pairwise distinct and the listing has every blob path once, the final
    tree of a run whose uploads went through has no two entries of one
    path, and an uploaded path is that of its new entry only.  The tree the
    run asks the provider to create has the entries of this tree, in the
    order in which they were pushed, and so no path twice either. *)
Theorem C8_final_tree_of_distinct_paths (gh : Provider) (ai : Gemini) (rd : RepoDetails)
    (config : SyncConfig) (files : list FileToSync.t) (es : list GitTreeItem.t)
    (w : World) :
  NoDup (localRemotePaths config files) ->
  NoDup (remoteBlobPaths (baseTreeData (planOf gh config files))) ->
  uploadResults gh (uploadsOf gh config files) = Some es ->
  NoDup (List.map GitTreeItem.path (finalTreeOf config (planOf gh config files) es))
  /\ (forall e, In e (finalTreeOf config (planOf gh config files) es) ->
                In (GitTreeItem.path e) (List.map remotePath (uploadsOf gh config files)) ->
                In e es)
  /\ (uploadsOf gh config files <> [] \/ filesToDelete (planOf gh config files) <> [] ->
      exists sent,
        treesOf (events (runFrom gh ai rd config files w)) = treesOf (events w) ++ [sent]
        /\ Permutation sent (finalTreeOf config (planOf gh config files) es)
        /\ NoDup (List.map GitTreeItem.path sent)).
Proof.
  intros Hlocal Hremote Hok.
  pose proof (uploadResults_paths gh _ es Hok) as Hpaths.
  assert (Hdistinct : NoDup (List.map GitTreeItem.path
                               (finalTreeOf config (planOf gh config files) es))).
  { apply finalTree_distinct; [|exact Hremote].
    rewrite Hpaths. unfold uploadsOf, planOf. cbn [analysis]. unfold analyze.
    rewrite analyze_fold. cbn [filesToUpload]. simpl List.app.
    eapply sublist_NoDup; [exact Hlocal|apply uploads_sublist]. }
  split; [exact Hdistinct|split].
  - intros e He Hup. rewrite <- Hpaths in Hup.
    apply in_finalTree in He. tauto.
  - intros Hwork. exists (finalTreeOf config (planOf gh config files) es).
    split; [now apply treesOf_run|]. split; [reflexivity|exact Hdistinct].
Qed.

Lemma C8_final_tree_of_distinct_paths_witness :
  NoDup (List.map GitTreeItem.path
           (finalTreeOf (Sample.config "src" true false)
              (planOf (Sample.provider
                         {| tree := [Sample.blob "src/a" "1f"; Sample.blob "b" "2f"];
                            truncated := false |})
                 (Sample.config "src" true false) [Sample.localFile "a" "x"])
              [Sample.blob "src/a" "blob:x"])).
Proof.
  refine (proj1 (C8_final_tree_of_distinct_paths
                   (Sample.provider
                      {| tree := [Sample.blob "src/a" "1f"; Sample.blob "b" "2f"];
                         truncated := false |})
                   Sample.noKey Scenario.rd (Sample.config "src" true false)
                   [Sample.localFile "a" "x"] [Sample.blob "src/a" "blob:x"]
                   Sample.idle _ _ _)).
  - apply (bool_decide_unpack _). vm_compute. exact I.
  - apply (bool_decide_unpack _). vm_compute. exact I.
  - vm_compute. reflexivity.
Defined.

(** C8 as stated fails when two local files have one remote path (a file
    named with a backslash, x\y, beside a file y in a directory x: the
    selection sanitizes both to x/y): both are uploaded and the final tree
    has the path twice. *)
Lemma C8_two_files_one_path_counterexample :
  ~ finalTreeHasDistinctPaths (Sample.provider Scenario.noTree)
      (Sample.config "" false false)
      [Sample.localFile "x/y" "1"; Sample.localFile "x/y" "2"].
Proof.
  intros H.
  specialize (H [Sample.blob "x/y" "blob:1"; Sample.blob "x/y" "blob:2"]).
  assert (Hnd : ~ NoDup ["x/y"; "x/y"]).
  { intros Hnd. apply NoDup_cons in Hnd. destruct Hnd as (Hnd & _).
    apply Hnd. constructor. }
  apply Hnd. apply H. vm_compute. reflexivity.
Qed.

(** ** The scope of the delete option *)

Lemma truthy_append_slash (s : string) : Js.truthy (s +:+ "/") = true.
Proof. now destruct s. Qed.

Lemma targetPrefix_truthy (config : SyncConfig) :
  Js.truthy (targetPath config) = true ->
  targetPrefix config = sanitizeGitPath (targetPath config) +:+ "/"
  /\ Js.truthy (targetPrefix config) = true.
Proof.
  intros H. unfold targetPrefix. rewrite H. split; [reflexivity|].
  apply truthy_append_slash.
Qed.

(** C9, amended.  With a target path set, the prefix the delete loop
    compares with is the sanitized target followed by a slash, so a path
    is scheduled for deletion only if it continues the target after that
    slash; with the target "src", the path "src2/file" is never scheduled. *)
Theorem C9_prefix_ends_at_a_slash (config : SyncConfig) (t : TreeData)
    (processed : gset string) :
  (Js.truthy (targetPath config) = true ->
   forall p,
     In p (computeFilesToDelete config t processed)
     <-> deleteMissing config = true /\ truncated t = false
         /\ (exists item, In item (tree t) /\ GitTreeItem.type item = "blob"
                          /\ GitTreeItem.path item = p)
         /\ (exists rest, p = (sanitizeGitPath (targetPath config) +:+ "/") +:+ rest)
         /\ p ∉ processed)
  /\ (targetPath config = "src" ->
      ~ In "src2/file" (computeFilesToDelete config t processed)).
Proof.
  split.
  - intros Htarget p. destruct (targetPrefix_truthy config Htarget) as (Hpre & Htruthy).
    rewrite in_filesToDelete, Htruthy, startsWith_app, Hpre.
    split; intros (Hd & Htr & Hitem & Hp & Hproc); repeat (split; [assumption|]);
      [split; [|assumption]|split; [|assumption]].
    + destruct Hp as [Hp|Hp]; [discriminate Hp|exact Hp].
    + now right.
  - intros Htarget Hin. apply in_filesToDelete in Hin.
    destruct Hin as (_ & _ & _ & Hp & _).
    unfold targetPrefix in Hp. rewrite Htarget in Hp.
    destruct Hp as [Hp|Hp]; vm_compute in Hp; discriminate Hp.
Qed.

Lemma C9_prefix_ends_at_a_slash_witness :
  ~ In "src2/file"
      (computeFilesToDelete Prefix.config
         {| tree := [Sample.blob "src2/file" "1f"; Sample.blob "src/old" "2f"];
            truncated := false |} ∅)
  /\ exists rest, "src/old" = (sanitizeGitPath "src" +:+ "/") +:+ rest.
Proof.
  pose proof (C9_prefix_ends_at_a_slash Prefix.config
                {| tree := [Sample.blob "src2/file" "1f"; Sample.blob "src/old" "2f"];
                   truncated := false |} ∅) as (Hgeneral & Hsrc).
  split.
  - apply Hsrc. reflexivity.
  - assert (Htarget : Js.truthy (targetPath Prefix.config) = true) by reflexivity.
    destruct (proj1 (Hgeneral Htarget "src/old")) as (_ & _ & _ & Hrest & _).
    + vm_compute. tauto.
    + exact Hrest.
Defined.

(** C9 as stated fails: with the target "src", the delete option on, a
    whole listing and no local file, the remote blob "src2/file" is not
    scheduled for deletion; the delete set is empty. *)
Lemma C9_neighbour_directory_counterexample :
  ~ In "src2/file"
      (filesToDelete (planOf (Sample.provider Prefix.neighbour) Prefix.config []))
  /\ filesToDelete (planOf (Sample.provider Prefix.neighbour) Prefix.config []) = [].
Proof.
  assert (H : filesToDelete (planOf (Sample.provider Prefix.neighbour) Prefix.config [])
              = []) by (vm_compute; reflexivity).
  rewrite H. split; [intros []|reflexivity].
Qed.

(** ** A truncated listing *)

(** On a truncated listing the delete loop is skipped. *)
Lemma truncated_delete_set_empty (config : SyncConfig) (t : TreeData)
    (processed : gset string) :
  truncated t = true -> computeFilesToDelete config t processed = [].
Proof.
  intros H. unfold computeFilesToDelete. rewrite H. now rewrite andb_false_r.
Qed.

(** C4, at the failing input.  Target "src", delete option on, a truncated
    listing with the blob "src/old", one new local file: the delete set is
    empty and the warning is logged, and yet the tree the run creates has
    the new entry only; "src/old", which has no local counterpart, is left
    out of it. *)
Theorem C4_truncated_listing_drops_unmatched_blob :
  filesToDelete (planOf (Sample.provider Prefix.truncatedListing) Prefix.config
                   Prefix.oneNewFile) = []
  /\ In truncatedWarning
       (logs (runFrom (Sample.provider Prefix.truncatedListing) Sample.noKey Scenario.rd
                Prefix.config Prefix.oneNewFile Sample.idle))
  /\ treesOf
       (events (runFrom (Sample.provider Prefix.truncatedListing) Sample.noKey
                  Scenario.rd Prefix.config Prefix.oneNewFile Sample.idle))
     = [[Sample.blob "src/new" "blob:n"]]
  /\ syncState (runFrom (Sample.provider Prefix.truncatedListing) Sample.noKey
                  Scenario.rd Prefix.config Prefix.oneNewFile Sample.idle) = SUCCESS.
Proof.
  split; [vm_compute; reflexivity|].
  split; [vm_compute; tauto|].
  split; vm_compute; reflexivity.
Qed.

(** Without a target path the same listing keeps its unmatched blob: the
    last test of the loop over the listing needs a prefix. *)
Example truncated_listing_without_prefix :
  treesOf
    (events (runFrom (Sample.provider Prefix.truncatedListing) Sample.noKey Scenario.rd
               (Sample.config "" true false) Prefix.oneNewFile Sample.idle))
  = [[Sample.blob "new" "blob:n"; Sample.blob "src/old" "1f"]].
Proof. vm_compute. reflexivity. Qed.

(** ** An empty selection *)

Lemma no_files_plan (gh : Provider) (config : SyncConfig) :
  uploadsOf gh config [] = []
  /\ processedRemotePaths (analysis (planOf gh config [])) = ∅.
Proof. split; reflexivity. Qed.

Lemma no_files_delete_set (gh : Provider) (config : SyncConfig) :
  deleteMissing config = true ->
  truncated (baseTreeData (planOf gh config [])) = false ->
  filesToDelete (planOf gh config [])
  = inPrefixBlobPaths config (baseTreeData (planOf gh config [])).
Proof.
  intros Hd Htr. unfold planOf in *. cbn [filesToDelete baseTreeData analysis] in *.
  unfold computeFilesToDelete, inPrefixBlobPaths. rewrite Hd, Htr. simpl andb. cbv iota.
  f_equal. apply List.filter_ext. intros item. unfold isBlob.
  rewrite (bool_decide_eq_false_2 _ (not_elem_of_empty (GitTreeItem.path item))).
  destruct (String.eqb _ _), (Js.truthy _), (Js.startsWith _ _); reflexivity.
Qed.

(** C10.  With no local file: when the delete option is off the run stops
    at once with a warning, before any state change or request; when it is
    on, the run goes on to the scan and, on a whole listing, the delete set
    is the list of the remote blob paths that start with the target prefix
    (all of them without a prefix), none of them is in the final tree, and,
    when there is one at least, the run asks for that tree and ends in
    SUCCESS on the new commit once the provider accepts tree, commit and
    ref. *)
Theorem C10_empty_selection (gh : Provider) (ai : Gemini) (rd : RepoDetails)
    (config : SyncConfig) (w : World) :
  (deleteMissing config = false ->
   startSync gh ai true (Some rd) config [] w
   = (extend w [] [{| message := "No files selected."; type := warning |}], Normal tt))
  /\ (deleteMissing config = true ->
      (exists evs, events (runFrom gh ai rd config [] w)
                   = events w ++ Call (GetRef (defaultBranchOf config)) :: evs)
      /\ (truncated (baseTreeData (planOf gh config [])) = false ->
          filesToDelete (planOf gh config [])
          = inPrefixBlobPaths config (baseTreeData (planOf gh config []))
          /\ (forall p, In p (filesToDelete (planOf gh config [])) ->
                        ~ In p (List.map GitTreeItem.path
                                  (finalTreeOf config (planOf gh config []) [])))
          /\ (filesToDelete (planOf gh config []) <> [] ->
              treesOf (events (runFrom gh ai rd config [] w))
              = treesOf (events w) ++ [finalTreeOf config (planOf gh config []) []]
              /\ forall newCommitSha,
                  commitResultOf gh ai config [] [] = Some newCommitSha ->
                  syncState (runFrom gh ai rd config [] w) = SUCCESS
                  /\ branchHead (runFrom gh ai rd config [] w) = Some newCommitSha))).
Proof.
  split.
  - intros Hd. unfold startSync. rewrite Hd. simpl. apply addLog_run.
  - intros Hd.
    assert (Hguard : (List.length (@nil FileToSync.t) =? 0)%nat
                     && negb (deleteMissing config) = false)
      by (rewrite Hd; reflexivity).
    split.
    + assert (Hcases : filesToDelete (planOf gh config []) = []
                       \/ filesToDelete (planOf gh config []) <> []).
      { destruct (filesToDelete (planOf gh config [])); [now left|now right]. }
      destruct Hcases as [Hnone|Hsome].
      * destruct (run_up_to_date gh ai rd config [] w Hguard eq_refl Hnone)
          as (lg & Hrun & _).
        unfold runFrom. rewrite Hrun. cbn [fst events]. unfold scanEvents. eauto.
      * destruct (run_uploaded gh ai rd config [] [] w Hguard (or_intror Hsome) eq_refl)
          as (lg & evs & Hrun & _).
        unfold runFrom. rewrite Hrun. cbn [fst events]. unfold scanEvents.
        simpl. eauto.
    + intros Htr. split; [now apply no_files_delete_set|]. split.
      * intros p Hp Hin. apply List.in_map_iff in Hin. destruct Hin as (e & <- & He).
        apply in_finalTree in He. destruct He as [[]|(_ & _ & _ & Hnot)]. now apply Hnot.
      * intros Hsome. split.
        -- apply treesOf_run; [now right|reflexivity].
        -- intros c Hc.
           destruct (run_uploaded gh ai rd config [] [] w Hguard (or_intror Hsome) eq_refl)
             as (lg & evs & Hrun & _).
           unfold runFrom. rewrite Hrun. cbn [fst syncState branchHead].
           now rewrite Hc.
Qed.

Lemma C10_empty_selection_witness :
  filesToDelete (planOf (Sample.provider
                           {| tree := [Sample.blob "src/a" "1f"; Sample.blob "b" "2f"];
                              truncated := false |})
                   Prefix.config [])
  = ["src/a"]
  /\ syncState (runFrom (Sample.provider
                           {| tree := [Sample.blob "src/a" "1f"; Sample.blob "b" "2f"];
                              truncated := false |})
                  Sample.noKey Scenario.rd Prefix.config [] Sample.idle) = SUCCESS.
Proof.
  pose proof (C10_empty_selection
                (Sample.provider
                   {| tree := [Sample.blob "src/a" "1f"; Sample.blob "b" "2f"];
                      truncated := false |})
                Sample.noKey Scenario.rd Prefix.config Sample.idle) as (_ & Hon).
  destruct (Hon eq_refl) as (_ & Hwhole).
  destruct (Hwhole eq_refl) as (Hset & _ & Hcommit).
  split.
  - rewrite Hset. vm_compute. reflexivity.
  - destruct Hcommit as (_ & Hend).
    + rewrite Hset. vm_compute. discriminate.
    + apply (Hend "c1"). vm_compute. reflexivity.
Defined.

(** That run: the tree it asks for keeps "b" only, and the
    commit has the old head for parent. *)
Example empty_selection_deletes_in_prefix :
  events (runFrom (Sample.provider
                     {| tree := [Sample.blob "src/a" "1f"; Sample.blob "b" "2f"];
                        truncated := false |})
            Sample.noKey Scenario.rd Prefix.config [] Sample.idle)
  = [Call (GetRef "main"); Call (GetTreeRecursive "c0");
     Call (CreateTree [Sample.blob "b" "2f"]);
     Call (CreateCommit "chore: sync 0 files" "t1" ["c0"]);
     Call (UpdateRef "main" "c1")].
Proof. vm_compute. reflexivity. Qed.

(** ** The path normalizer *)

Section Normalizer.

Lemma hasChar_app (c : ascii) (a b : string) :
  hasChar c (a +:+ b) = hasChar c a || hasChar c b.
Proof.
  induction a as [|x a IH]; [reflexivity|].
  change (String x a +:+ b) with (String x (a +:+ b)). simpl.
  now rewrite IH, orb_assoc.
Qed.

Lemma replace_char_absent (c d : ascii) (s : string) :
  c <> d -> hasChar c (Js.replace_char c d s) = false.
Proof.
  intros Hne. induction s as [|x s IH]; [reflexivity|]. simpl.
  rewrite IH, orb_false_r.
  destruct (Ascii.eqb_spec x c) as [->|Hx].
  - apply Ascii.eqb_neq. congruence.
  - now apply Ascii.eqb_neq.
Qed.

Lemma replace_char_id (c d : ascii) (s : string) :
  hasChar c s = false -> Js.replace_char c d s = s.
Proof.
  induction s as [|x s IH]; [reflexivity|]. simpl. intros H.
  apply orb_false_elim in H. destruct H as (Hx & Hs).
  now rewrite Hx, IH.
Qed.

Lemma collapse_runs_absent (c d : ascii) (s : string) :
  hasChar d s = false -> hasChar d (Js.collapse_runs c s) = false.
Proof.
  induction s as [|x s IH]; [reflexivity|]. simpl. intros H.
  apply orb_false_elim in H. destruct H as (Hx & Hs). specialize (IH Hs).
  destruct (Ascii.eqb x c).
  - destruct (Js.collapse_runs c s) as [|y r]; simpl; [now rewrite Hx|].
    destruct (Ascii.eqb y c); [exact IH|]. simpl. now rewrite Hx.
  - simpl. now rewrite Hx.
Qed.

Lemma strip_leading_absent (c d : ascii) (s : string) :
  hasChar d s = false -> hasChar d (Js.strip_leading c s) = false.
Proof.
  induction s as [|x s IH]; [reflexivity|]. simpl. intros H.
  destruct (Ascii.eqb x c); [|exact H].
  apply orb_false_elim in H. now apply IH.
Qed.

Lemma strip_trailing_absent (c d : ascii) (s : string) :
  hasChar d s = false -> hasChar d (Js.strip_trailing c s) = false.
Proof.
  induction s as [|x s IH]; [reflexivity|]. simpl. intros H.
  apply orb_false_elim in H. destruct H as (Hx & Hs). specialize (IH Hs).
  destruct (Js.strip_trailing c s) as [|y r].
  - destruct (Ascii.eqb x c); simpl; [reflexivity|now rewrite Hx].
  - simpl in *. now rewrite Hx.
Qed.

(** The parts of a split are free of the separator, and of every
    character the string is free of. *)
Lemma split_parts_absent (c d : ascii) (s : string) :
  d = c \/ hasChar d s = false ->
  Forall (fun part => hasChar d part = false) (Js.split c s).
Proof.
  induction s as [|x s IH]; intros H; simpl.
  - repeat constructor.
  - assert (Hs : d = c \/ hasChar d s = false).
    { destruct H as [H|H]; [now left|right]. simpl in H.
      now apply orb_false_elim in H. }
    specialize (IH Hs).
    destruct (Ascii.eqb_spec x c) as [->|Hx].
    + constructor; [reflexivity|exact IH].
    + destruct (Js.split c s) as [|part parts]; simpl.
      * constructor; [|constructor]. simpl. rewrite orb_false_r.
        destruct H as [->|H]; [now apply Ascii.eqb_neq|].
        simpl in H. now apply orb_false_elim in H.
      * apply Forall_cons in IH. destruct IH as (Hp & Hps).
        constructor; [|exact Hps]. simpl. rewrite Hp, orb_false_r.
        destruct H as [->|H]; [now apply Ascii.eqb_neq|].
        simpl in H. now apply orb_false_elim in H.
Qed.

End Normalizer.

(** The normalizer returns clean segments joined by single slashes. *)
Lemma sanitize_segments (path : string) :
  normalizedPath (sanitizeGitPath path).
Proof.
  unfold sanitizeGitPath, normalizedPath.
  set (cleaned := Js.strip_trailing "/"
                    (Js.strip_leading "/"
                       (Js.collapse_runs "/" (Js.replace_char "\" "/" path)))).
  eexists. split; [|reflexivity].
  assert (Hback : hasChar "\" cleaned = false).
  { apply strip_trailing_absent, strip_leading_absent, collapse_runs_absent.
    apply replace_char_absent. discriminate. }
  pose proof (split_parts_absent "/" "/" cleaned (or_introl eq_refl)) as Hslash.
  pose proof (split_parts_absent "/" "\" cleaned (or_intror Hback)) as Hbs.
  induction (Js.split "/" cleaned) as [|part parts IH]; simpl; [constructor|].
  apply Forall_cons in Hslash, Hbs.
  destruct Hslash as (Hs1 & Hs2), Hbs as (Hb1 & Hb2).
  destruct (Js.truthy part && negb (part =? ".")%string && negb (part =? "..")%string)
    eqn:Hkeep; [|now apply IH].
  constructor; [|now apply IH].
  apply andb_prop in Hkeep. destruct Hkeep as (Hkeep & Hdd).
  apply andb_prop in Hkeep. destruct Hkeep as (Hne & Hd).
  apply truthy_nonempty in Hne.
  apply negb_true_iff, String.eqb_neq in Hd, Hdd.
  repeat split; assumption.
Qed.

(** X1.  Whatever the input, [sanitizeGitPath] returns clean segments
    joined by single slashes: no backslash, no empty, "." or ".." segment,
    hence no leading, trailing or doubled slash. *)
Theorem sanitizeGitPath_normalized (path : string) :
  normalizedPath (sanitizeGitPath path).
Proof. apply sanitize_segments. Qed.

Section NormalizedFixpoint.

Lemma join_cons (sep s : string) (segs : list string) :
  Js.join sep (s :: segs)
  = match segs with
    | [] => s
    | _ :: _ => s +:+ sep +:+ Js.join sep segs
    end.
Proof. now destruct segs. Qed.

Lemma append_nil_r (s : string) : s +:+ "" = s.
Proof.
  induction s as [|x s IH]; [reflexivity|].
  change (String x s +:+ "") with (String x (s +:+ "")). now rewrite IH.
Qed.

Lemma append_assoc (a b c : string) : (a +:+ b) +:+ c = a +:+ (b +:+ c).
Proof.
  induction a as [|x a IH]; [reflexivity|].
  change (String x ((a +:+ b) +:+ c) = String x (a +:+ (b +:+ c))). now rewrite IH.
Qed.

Variable c : ascii.

Lemma collapse_runs_app (a rest : string) :
  hasChar c a = false ->
  Js.collapse_runs c (a +:+ rest) = a +:+ Js.collapse_runs c rest.
Proof.
  induction a as [|x a IH]; [reflexivity|]. simpl. intros H.
  apply orb_false_elim in H. destruct H as (Hx & Ha).
  change (String x a +:+ rest) with (String x (a +:+ rest)).
  change (String x a +:+ Js.collapse_runs c rest)
    with (String x (a +:+ Js.collapse_runs c rest)).
  simpl. now rewrite Hx, IH.
Qed.

Lemma collapse_runs_sep (r : string) (x : ascii) (r' : string) :
  Js.collapse_runs c r = String x r' -> Ascii.eqb x c = false ->
  Js.collapse_runs c (String c r) = String c (String x r').
Proof. intros H Hx. simpl. now rewrite Ascii.eqb_refl, H, Hx. Qed.

Lemma strip_trailing_cons (x : ascii) (s : string) :
  s <> "" -> Js.strip_trailing c s = s ->
  Js.strip_trailing c (String x s) = String x s.
Proof. intros Hne H. simpl. rewrite H. destruct s; [congruence|reflexivity]. Qed.

Lemma strip_leading_head (x : ascii) (s : string) :
  Ascii.eqb x c = false -> Js.strip_leading c (String x s) = String x s.
Proof. intros H. simpl. now rewrite H. Qed.

Lemma strip_trailing_id (s : string) :
  hasChar c s = false -> Js.strip_trailing c s = s.
Proof.
  induction s as [|x s IH]; [reflexivity|]. simpl. intros H.
  apply orb_false_elim in H. destruct H as (Hx & Hs).
  rewrite IH by exact Hs. destruct s; [now rewrite Hx|reflexivity].
Qed.

Lemma strip_trailing_app (a b : string) :
  b <> "" -> Js.strip_trailing c b = b -> Js.strip_trailing c (a +:+ b) = a +:+ b.
Proof.
  intros Hne Hb. induction a as [|x a IH]; [exact Hb|].
  change (String x a +:+ b) with (String x (a +:+ b)). simpl. rewrite IH.
  destruct (a +:+ b) eqn:Hab; [|reflexivity].
  destruct a; [|discriminate Hab]. now contradiction Hne.
Qed.

Lemma split_single (s : string) : hasChar c s = false -> Js.split c s = [s].
Proof.
  induction s as [|x s IH]; [reflexivity|]. simpl. intros H.
  apply orb_false_elim in H. destruct H as (Hx & Hs).
  now rewrite Hx, IH.
Qed.

Lemma split_app (a b : string) :
  hasChar c a = false -> Js.split c (a +:+ String c b) = a :: Js.split c b.
Proof.
  induction a as [|x a IH]; intros H.
  - change ("" +:+ String c b) with (String c b). simpl.
    now rewrite Ascii.eqb_refl.
  - simpl in H. apply orb_false_elim in H. destruct H as (Hx & Ha).
    change (String x a +:+ String c b) with (String x (a +:+ String c b)).
    simpl. now rewrite Hx, IH.
Qed.

End NormalizedFixpoint.

Lemma joined_no_backslash (segs : list string) :
  Forall cleanSegment segs -> hasChar "\" (Js.join "/" segs) = false.
Proof.
  induction 1 as [|s l Hs Hl IH]; [reflexivity|].
  rewrite join_cons. destruct Hs as (_ & _ & _ & _ & Hb).
  destruct l; [exact Hb|]. rewrite !hasChar_app, Hb, IH. reflexivity.
Qed.

(** A joined path with a segment starts with a character that is not a
    slash. *)
Lemma joined_head (segs : list string) :
  Forall cleanSegment segs -> segs <> [] ->
  exists x r, Js.join "/" segs = String x r /\ Ascii.eqb x "/" = false.
Proof.
  intros Hclean Hne. destruct Hclean as [|s l Hs Hl]; [congruence|].
  rewrite join_cons. destruct Hs as (Hs & _ & _ & Hslash & _).
  destruct s as [|x s]; [congruence|]. simpl in Hslash.
  apply orb_false_elim in Hslash. destruct Hslash as (Hx & _).
  destruct l; eauto.
Qed.

Lemma joined_collapse (segs : list string) :
  Forall cleanSegment segs -> Js.collapse_runs "/" (Js.join "/" segs) = Js.join "/" segs.
Proof.
  induction 1 as [|s l Hs Hl IH]; [reflexivity|].
  rewrite join_cons. destruct Hs as (_ & _ & _ & Hslash & _).
  destruct l as [|s' l'].
  - rewrite <- (append_nil_r s) at 1. rewrite collapse_runs_app by exact Hslash.
    apply append_nil_r.
  - rewrite collapse_runs_app by exact Hslash. f_equal.
    destruct (joined_head (s' :: l') Hl) as (x & r & Hp & Hx); [discriminate|].
    change ("/" +:+ Js.join "/" (s' :: l')) with (String "/" (Js.join "/" (s' :: l'))).
    rewrite Hp in IH |- *. now apply collapse_runs_sep.
Qed.

Lemma joined_strip_leading (segs : list string) :
  Forall cleanSegment segs -> Js.strip_leading "/" (Js.join "/" segs) = Js.join "/" segs.
Proof.
  intros Hclean. destruct segs as [|s l]; [reflexivity|].
  destruct (joined_head (s :: l) Hclean) as (x & r & -> & Hx); [discriminate|].
  now apply strip_leading_head.
Qed.

Lemma joined_strip_trailing (segs : list string) :
  Forall cleanSegment segs -> Js.strip_trailing "/" (Js.join "/" segs) = Js.join "/" segs.
Proof.
  induction 1 as [|s l Hs Hl IH]; [reflexivity|].
  rewrite join_cons. destruct Hs as (_ & _ & _ & Hslash & _).
  destruct l as [|s' l']; [now apply strip_trailing_id|].
  apply strip_trailing_app.
  - discriminate.
  - change ("/" +:+ Js.join "/" (s' :: l')) with (String "/" (Js.join "/" (s' :: l'))).
    apply strip_trailing_cons; [|exact IH].
    destruct (joined_head (s' :: l') Hl) as (x & r & -> & _); discriminate.
Qed.

Lemma joined_split (segs : list string) :
  Forall cleanSegment segs -> segs <> [] -> Js.split "/" (Js.join "/" segs) = segs.
Proof.
  induction 1 as [|s l Hs Hl IH]; [congruence|]. intros _.
  rewrite join_cons. destruct Hs as (_ & _ & _ & Hslash & _).
  destruct l as [|s' l']; [now apply split_single|].
  change ("/" +:+ Js.join "/" (s' :: l')) with (String "/" (Js.join "/" (s' :: l'))).
  rewrite split_app by exact Hslash. f_equal. apply IH. discriminate.
Qed.

Lemma clean_segments_kept (segs : list string) :
  Forall cleanSegment segs ->
  List.filter
    (fun part => Js.truthy part && negb (part =? ".")%string && negb (part =? "..")%string)
    segs = segs.
Proof.
  induction 1 as [|s l Hs Hl IH]; [reflexivity|]. simpl.
  destruct Hs as (Hne & Hd & Hdd & _).
  apply truthy_nonempty in Hne. apply String.eqb_neq in Hd, Hdd.
  now rewrite Hne, Hd, Hdd, IH.
Qed.

(** A normalized path is left as it is. *)
Lemma sanitizeGitPath_fixes_normalized (p : string) :
  normalizedPath p -> sanitizeGitPath p = p.
Proof.
  intros (segs & Hclean & ->). unfold sanitizeGitPath.
  rewrite (replace_char_id _ _ _ (joined_no_backslash segs Hclean)).
  rewrite joined_collapse, joined_strip_leading, joined_strip_trailing by exact Hclean.
  destruct segs as [|s l]; [reflexivity|].
  rewrite joined_split by (exact Hclean || discriminate).
  now rewrite clean_segments_kept.
Qed.

(** X2.  [sanitizeGitPath] is idempotent. *)
Theorem sanitizeGitPath_idempotent (path : string) :
  sanitizeGitPath (sanitizeGitPath path) = sanitizeGitPath path.
Proof. apply sanitizeGitPath_fixes_normalized, sanitize_segments. Qed.

(** ** Combined remote paths *)

Lemma joined_nonempty (segs : list string) :
  Forall cleanSegment segs -> (Js.join "/" segs = "" <-> segs = []).
Proof.
  intros Hclean. split; [|now intros ->].
  destruct segs as [|s l]; [reflexivity|]. intros H.
  destruct (joined_head (s :: l) Hclean) as (x & r & Hp & _); [discriminate|].
  congruence.
Qed.

Lemma joined_app (a b : list string) :
  a <> [] -> b <> [] ->
  Js.join "/" (a ++ b) = Js.join "/" a +:+ "/" +:+ Js.join "/" b.
Proof.
  intros Ha Hb. induction a as [|s a IH]; [congruence|].
  change ((s :: a) ++ b) with (s :: (a ++ b)). rewrite !join_cons.
  destruct a as [|s' a'].
  - simpl List.app. destruct b; [congruence|reflexivity].
  - change ((s' :: a') ++ b) with (s' :: (a' ++ b)) in *.
    rewrite IH by discriminate. now rewrite !append_assoc.
Qed.

(** Two normalized paths joined by a slash are a normalized path. *)
Lemma normalized_slash (a b : string) :
  normalizedPath a -> normalizedPath b -> a <> "" -> b <> "" ->
  normalizedPath (a +:+ "/" +:+ b).
Proof.
  intros (sa & Ha & ->) (sb & Hb & ->) Hane Hbne.
  exists (sa ++ sb). split; [now apply Forall_app|].
  symmetry. apply joined_app.
  - intros ->. now apply Hane.
  - intros ->. now apply Hbne.
Qed.

(** A slash before a normalized path is dropped. *)
Lemma sanitizeGitPath_leading_slash (p : string) :
  normalizedPath p -> sanitizeGitPath ("/" +:+ p) = p.
Proof.
  intros Hnorm. rewrite <- (sanitizeGitPath_fixes_normalized p Hnorm) at 2.
  destruct Hnorm as (segs & Hclean & ->). unfold sanitizeGitPath.
  change ("/" +:+ Js.join "/" segs) with (String "/" (Js.join "/" segs)).
  do 4 f_equal.
  change (Js.replace_char "\" "/" (String "/" (Js.join "/" segs)))
    with (String "/" (Js.replace_char "\" "/" (Js.join "/" segs))).
  rewrite (replace_char_id _ _ _ (joined_no_backslash segs Hclean)).
  destruct segs as [|s l]; [reflexivity|].
  destruct (joined_head (s :: l) Hclean) as (x & r & Hp & Hx); [discriminate|].
  pose proof (joined_collapse (s :: l) Hclean) as Hc. rewrite Hp in Hc |- *.
  rewrite (collapse_runs_sep "/" _ _ _ Hc Hx), Hc.
  simpl. now rewrite Hx.
Qed.

(** The remote path of a normalized local path. *)
Lemma remotePathOf_behind_prefix (config : SyncConfig) (f : FileToSync.t) :
  normalizedPath (FileToSync.path f) -> FileToSync.path f <> "" ->
  remotePathOf config f = effectivePrefix config +:+ FileToSync.path f.
Proof.
  intros Hnorm Hne. unfold remotePathOf, targetPrefix, effectivePrefix.
  destruct (Js.truthy (targetPath config)) eqn:Htarget.
  - destruct (Js.truthy (sanitizeGitPath (targetPath config))) eqn:Hsan.
    + rewrite append_assoc. apply sanitizeGitPath_fixes_normalized.
      apply normalized_slash; try assumption.
      * apply sanitize_segments.
      * now apply truthy_nonempty.
    + assert (Hempty : sanitizeGitPath (targetPath config) = "").
      { destruct (sanitizeGitPath (targetPath config)); [reflexivity|discriminate Hsan]. }
      rewrite Hempty. now apply sanitizeGitPath_leading_slash.
  - assert (Hempty : targetPath config = "").
    { destruct (targetPath config); [reflexivity|discriminate Htarget]. }
    rewrite Hempty. now apply sanitizeGitPath_fixes_normalized.
Qed.

(** X3.  For a local file whose path is normalized and not empty, the
    combined remote path is the path itself behind the normalized target
    and a slash; a target that is empty or normalizes to the empty path
    (such as "/" or "..") adds nothing. *)
Theorem remotePathOf_normalized (config : SyncConfig) (f : FileToSync.t) :
  normalizedPath (FileToSync.path f) -> FileToSync.path f <> "" ->
  remotePathOf config f = effectivePrefix config +:+ FileToSync.path f.
Proof. apply remotePathOf_behind_prefix. Qed.

Lemma remotePathOf_normalized_witness :
  remotePathOf (Sample.config "\docs\\site/" false false) (Sample.localFile "a/b.txt" "x")
  = "docs/site/a/b.txt".
Proof.
  rewrite remotePathOf_normalized.
  - reflexivity.
  - exists ["a"; "b.txt"]. split; [|reflexivity].
    repeat constructor; discriminate.
  - discriminate.
Defined.

Lemma append_inj_l (pre a b : string) : pre +:+ a = pre +:+ b -> a = b.
Proof.
  induction pre as [|x pre IH]; [trivial|].
  change (String x (pre +:+ a) = String x (pre +:+ b) -> a = b).
  intros [= H]. now apply IH.
Qed.

(** X4.  Local files with normalized, non-empty and pairwise distinct
    paths have pairwise distinct combined remote paths, whatever the
    target. *)
Theorem distinct_local_paths_stay_distinct (config : SyncConfig)
    (files : list FileToSync.t) :
  Forall (fun f => normalizedPath (FileToSync.path f) /\ FileToSync.path f <> "") files ->
  NoDup (localPaths files) ->
  NoDup (localRemotePaths config files).
Proof.
  unfold localPaths, localRemotePaths.
  induction 1 as [|f files (Hnorm & Hne) Hall IH]; intros Hnd; simpl; [constructor|].
  simpl in Hnd. apply NoDup_cons in Hnd. destruct Hnd as (Hnotin & Hnd).
  apply NoDup_cons. split; [|now apply IH].
  intros Hin. apply Hnotin. rewrite list_elem_of_In in Hin |- *.
  apply List.in_map_iff in Hin. destruct Hin as (g & Hg & Hgin).
  apply List.in_map_iff. exists g. split; [|exact Hgin].
  rewrite Forall_forall in Hall. destruct (Hall g) as (Hgn & Hgne).
  { now apply list_elem_of_In. }
  rewrite !remotePathOf_behind_prefix in Hg by assumption.
  now apply append_inj_l in Hg.
Qed.

Lemma distinct_local_paths_stay_distinct_witness :
  NoDup (localRemotePaths (Sample.config "src" true false)
           [Sample.localFile "a" "1"; Sample.localFile "b/c" "2"]).
Proof.
  apply distinct_local_paths_stay_distinct.
  - repeat constructor; try discriminate.
    + exists ["a"]. split; [|reflexivity]. repeat constructor; discriminate.
    + exists ["b"; "c"]. split; [|reflexivity]. repeat constructor; discriminate.
  - apply (bool_decide_unpack _). vm_compute. exact I.
Defined.

(** ** The folder selection *)

Lemma split_nonempty (c : ascii) (s : string) : Js.split c s <> [].
Proof.
  destruct s as [|x s]; simpl; [discriminate|].
  destruct (Ascii.eqb x c); [discriminate|].
  destruct (Js.split c s); discriminate.
Qed.

(** Splitting and joining on one character gives the string back. *)
Lemma join_split (c : ascii) (s : string) :
  Js.join (String c "") (Js.split c s) = s.
Proof.
  induction s as [|x s IH]; [reflexivity|]. simpl.
  pose proof (split_nonempty c s) as Hne.
  destruct (Ascii.eqb_spec x c) as [->|Hx].
  - rewrite join_cons. destruct (Js.split c s) as [|part parts]; [congruence|].
    rewrite IH. reflexivity.
  - destruct (Js.split c s) as [|part parts]; [congruence|].
    rewrite join_cons in *. destruct parts; rewrite <- IH; reflexivity.
Qed.

(** X5.  A path of the picker, "root/rest", loses the name of the selected
    folder: the relative path is "rest". *)
Theorem relativePath_drops_root (f : DeviceFile) (root rest : string) :
  hasChar "/" root = false ->
  webkitRelativePath f = root +:+ "/" +:+ rest ->
  relativePathOf f = rest.
Proof.
  intros Hroot Hpath. unfold relativePathOf. rewrite Hpath.
  assert (Htruthy : Js.or_else (root +:+ "/" +:+ rest) (name f) = root +:+ "/" +:+ rest).
  { unfold Js.or_else. destruct root; reflexivity. }
  rewrite Htruthy.
  change (root +:+ "/" +:+ rest) with (root +:+ String "/" rest).
  rewrite split_app by exact Hroot.
  pose proof (split_nonempty "/" rest) as Hne.
  destruct (Js.split "/" rest) as [|part parts] eqn:Hsplit; [congruence|].
  change (Js.join "/" (part :: parts) = rest).
  rewrite <- Hsplit. apply (join_split "/").
Qed.

Lemma relativePath_drops_root_witness :
  relativePathOf {| webkitRelativePath := "site/css/main.css"; name := "main.css";
                    handle := {| arrayBuffer := None; dataURL_base64 := None |} |}
  = "css/main.css".
Proof.
  apply (relativePath_drops_root _ "site" "css/main.css"); reflexivity.
Defined.

Lemma length_positive (s : string) : (0 <? String.length s)%nat = true <-> s <> "".
Proof.
  destruct s as [|x s].
  - split; [intros H; vm_compute in H; discriminate H|intros H; now contradiction H].
  - split; [discriminate|reflexivity].
Qed.

(** X6.  Every file of a selection has a normalized, non-empty path, so
    the sync leaves it as it is and only puts the target before it; files
    whose path normalizes to the empty path are not in the selection. *)
Theorem selection_paths_normalized (fileList : list DeviceFile) (config : SyncConfig) :
  Forall
    (fun f => normalizedPath (FileToSync.path f) /\ FileToSync.path f <> ""
              /\ remotePathOf config f = effectivePrefix config +:+ FileToSync.path f)
    (syncFilesOf fileList).
Proof.
  unfold syncFilesOf. apply Forall_forall. intros f Hf.
  apply list_elem_of_In, List.filter_In in Hf. destruct Hf as (Hin & Hlen).
  apply length_positive in Hlen.
  apply List.in_map_iff in Hin. destruct Hin as (d & <- & _). simpl in *.
  pose proof (sanitize_segments (relativePathOf d)) as Hnorm.
  split; [exact Hnorm|]. split; [exact Hlen|].
  now apply remotePathOf_behind_prefix.
Qed.

(** ** The end of a run *)

Lemma commitEvents_mutations (gh : Provider) (b : string) (head : option string)
    (ft : list GitTreeItem.t) (m : string) :
  mutationsOf (commitEvents gh b head ft m) = commitEvents gh b head ft m
  /\ orderedMutations (commitEvents gh b head ft m).
Proof.
  unfold commitEvents, orderedMutations.
  destruct (POST_trees gh ft) as [ts| |]; [|split; [reflexivity|eauto]..].
  destruct (POST_commits gh m ts (parentsOf head)) as [cs| |];
    [|split; [reflexivity|eauto 10]..].
  split; [now destruct (isTruthySha head)|].
  right. right. right. exists ft, m, ts, (parentsOf head).
  destruct (isTruthySha head); eauto 10.
Qed.

Lemma commitResult_events (gh : Provider) (b : string) (head : option string)
    (ft : list GitTreeItem.t) (m c : string) :
  commitResult gh b head ft m = Some c ->
  exists ts, POST_trees gh ft = Ok ts
             /\ POST_commits gh m ts (parentsOf head) = Ok c
             /\ commitEvents gh b head ft m
                = [Call (CreateTree ft); Call (CreateCommit m ts (parentsOf head));
                   Call (refCall b head c)].
Proof.
  unfold commitResult, commitEvents, refCall.
  destruct (POST_trees gh ft) as [ts| |] eqn:Ht; [|discriminate..].
  destruct (POST_commits gh m ts (parentsOf head)) as [cs| |] eqn:Hc; [|discriminate..].
  intros H. exists ts.
  assert (cs = c).
  { destruct (isTruthySha head);
      [destruct (PATCH_ref gh b cs)|destruct (POST_refs gh b cs)]; congruence. }
  subst cs. rewrite Hc. repeat split.
Qed.

(** A run that got past the guards, whatever happens in it. *)
Lemma run_outcome (gh : Provider) (ai : Gemini) (rd : RepoDetails)
    (config : SyncConfig) (files : list FileToSync.t) (w : World) :
  (List.length files =? 0)%nat && negb (deleteMissing config) = false ->
  exists lg pre muts st hd,
    startSync gh ai true (Some rd) config files w
    = ({| syncState := st; logs := logs w ++ lg; events := events w ++ pre ++ muts;
          branchHead := hd |}, Normal tt)
    /\ mutationsOf pre = [] /\ mutationsOf muts = muts /\ orderedMutations muts
    /\ ((st = SUCCESS /\ hd = branchHead w /\ muts = [])
        \/ (st = ERROR /\ hd = branchHead w)
        \/ (st = SUCCESS
            /\ exists t m ts ps c,
                hd = Some c
                /\ muts = [Call (CreateTree t); Call (CreateCommit m ts ps);
                           Call (refCall (defaultBranchOf config)
                                   (latestCommitSha (planOf gh config files)) c)])).
Proof.
  intros Hguard.
  destruct (scanEvents_reads gh (defaultBranchOf config)) as (Hsm & _).
  destruct (uploadResults gh (uploadsOf gh config files)) as [es|] eqn:Hres.
  - assert (Hcases : (uploadsOf gh config files = []
                      /\ filesToDelete (planOf gh config files) = [])
                     \/ (uploadsOf gh config files <> []
                         \/ filesToDelete (planOf gh config files) <> [])).
    { destruct (uploadsOf gh config files), (filesToDelete (planOf gh config files));
        [left; auto|right; right; discriminate|right; left; discriminate..]. }
    destruct Hcases as [(Hup & Hdel)|Hwork].
    + destruct (run_up_to_date gh ai rd config files w Hguard Hup Hdel) as (lg & -> & _).
      exists lg, (scanEvents gh (defaultBranchOf config)), [], SUCCESS, (branchHead w).
      rewrite List.app_nil_r. repeat split; auto. left. auto.
    + destruct (run_uploaded gh ai rd config files es w Hguard Hwork Hres)
        as (lg & evs & -> & Hm & _).
      unfold commitEventsOf, commitResultOf.
      match goal with
      | |- context [commitEvents ?g ?b ?h ?t ?m] =>
          destruct (commitEvents_mutations g b h t m) as (Hcm & Hord);
          pose proof (commitResult_events g b h t m) as Hres'
      end.
      eexists lg, (scanEvents gh (defaultBranchOf config) ++ evs), _, _, _.
      rewrite <- List.app_assoc. split; [reflexivity|].
      rewrite mutationsOf_app, Hsm, Hm.
      split; [reflexivity|]. split; [exact Hcm|]. split; [exact Hord|].
      destruct (commitResult _ _ _ _ _) as [c|].
      * right. right. split; [reflexivity|].
        destruct (Hres' c eq_refl) as (ts & _ & _ & ->). eauto 10.
      * right. left. auto.
  - destruct (run_upload_fails gh ai rd config files w Hres)
      as (lg & evs & -> & Hm & _).
    exists lg, (scanEvents gh (defaultBranchOf config) ++ evs), [], ERROR, (branchHead w).
    rewrite List.app_nil_r, mutationsOf_app, Hsm, Hm.
    repeat split; auto. left. reflexivity.
Qed.

(** How a call of [startSync] ends. *)
Lemma startSync_outcome (gh : Provider) (ai : Gemini) (isConnected : bool)
    (repoDetails : option RepoDetails) (config : SyncConfig)
    (files : list FileToSync.t) (w : World) :
  snd (startSync gh ai isConnected repoDetails config files w) = Normal tt
  /\ (if started isConnected repoDetails config files
      then syncState (fst (startSync gh ai isConnected repoDetails config files w)) = SUCCESS
           \/ syncState (fst (startSync gh ai isConnected repoDetails config files w)) = ERROR
      else syncState (fst (startSync gh ai isConnected repoDetails config files w))
           = syncState w
           /\ events (fst (startSync gh ai isConnected repoDetails config files w))
              = events w
           /\ branchHead (fst (startSync gh ai isConnected repoDetails config files w))
              = branchHead w).
Proof.
  unfold started. destruct isConnected; [|simpl; auto].
  destruct repoDetails as [rd|]; [|simpl; auto].
  destruct ((List.length files =? 0)%nat && negb (deleteMissing config)) eqn:Hguard.
  - assert (Hrun : startSync gh ai true (Some rd) config files w
                   = (extend w [] [{| message := "No files selected."; type := warning |}],
                      Normal tt)).
    { unfold startSync. simpl negb. cbv iota. rewrite Hguard. apply addLog_run. }
    rewrite Hrun. simpl. rewrite List.app_nil_r. auto.
  - destruct (run_outcome gh ai rd config files w Hguard)
      as (lg & pre & muts & st & hd & -> & _ & _ & _ & Hend).
    simpl. split; [reflexivity|].
    destruct Hend as [(-> & _)|[(-> & _)|(-> & _)]]; auto.
Qed.

(** X7.  [startSync] never throws.  Past its guards the run ends in
    SUCCESS or in ERROR; stopped by a guard it leaves the state, the
    branch and the list of requests as they were. *)
Theorem startSync_ends (gh : Provider) (ai : Gemini) (isConnected : bool)
    (repoDetails : option RepoDetails) (config : SyncConfig)
    (files : list FileToSync.t) (w : World) :
  snd (startSync gh ai isConnected repoDetails config files w) = Normal tt
  /\ (if started isConnected repoDetails config files
      then syncState (fst (startSync gh ai isConnected repoDetails config files w)) = SUCCESS
           \/ syncState (fst (startSync gh ai isConnected repoDetails config files w)) = ERROR
      else syncState (fst (startSync gh ai isConnected repoDetails config files w))
           = syncState w
           /\ events (fst (startSync gh ai isConnected repoDetails config files w))
              = events w
           /\ branchHead (fst (startSync gh ai isConnected repoDetails config files w))
              = branchHead w).
Proof. apply startSync_outcome. Qed.

(** X8.  The branch moves only in a run that ends in SUCCESS, and then to
    the commit of the ref request that ends the run; in every other run,
    and in every run that ends in ERROR, the branch is where it was. *)
Theorem branch_moves_only_on_success (gh : Provider) (ai : Gemini) (isConnected : bool)
    (repoDetails : option RepoDetails) (config : SyncConfig)
    (files : list FileToSync.t) (w : World) :
  branchHead (fst (startSync gh ai isConnected repoDetails config files w)) = branchHead w
  \/ (syncState (fst (startSync gh ai isConnected repoDetails config files w)) = SUCCESS
      /\ exists c evs r,
          branchHead (fst (startSync gh ai isConnected repoDetails config files w)) = Some c
          /\ events (fst (startSync gh ai isConnected repoDetails config files w))
             = events w ++ evs ++ [Call r]
          /\ (r = UpdateRef (defaultBranchOf config) c
              \/ r = CreateRef (defaultBranchOf config) c)).
Proof.
  pose proof (startSync_outcome gh ai isConnected repoDetails config files w) as (_ & H).
  unfold started in H. destruct isConnected; [|left; apply H].
  destruct repoDetails as [rd|]; [|left; apply H].
  destruct ((List.length files =? 0)%nat && negb (deleteMissing config)) eqn:Hguard;
    [left; apply H|]. clear H.
  destruct (run_outcome gh ai rd config files w Hguard)
    as (lg & pre & muts & st & hd & -> & _ & _ & _ & Hend).
  cbn [fst syncState branchHead events].
  destruct Hend as [(_ & -> & _)|[(_ & ->)|(-> & t & m & ts & ps & c & -> & ->)]];
    [now left..|].
  right. split; [reflexivity|].
  exists c, (pre ++ [Call (CreateTree t); Call (CreateCommit m ts ps)]),
    (refCall (defaultBranchOf config) (latestCommitSha (planOf gh config files)) c).
  split; [reflexivity|]. split.
  - now rewrite <- !List.app_assoc.
  - unfold refCall. destruct (isTruthySha _); auto.
Qed.

(** X9.  The requests of a run that write come last and in the order of
    the protocol, each once at most: the tree, then the commit, then the
    ref; every blob request is before them. *)
Theorem writes_come_last_in_order (gh : Provider) (ai : Gemini) (isConnected : bool)
    (repoDetails : option RepoDetails) (config : SyncConfig)
    (files : list FileToSync.t) (w : World) :
  exists pre muts,
    events (fst (startSync gh ai isConnected repoDetails config files w))
    = events w ++ pre ++ muts
    /\ mutationsOf pre = [] /\ blobCallsOf muts = [] /\ orderedMutations muts.
Proof.
  pose proof (startSync_outcome gh ai isConnected repoDetails config files w) as (_ & H).
  unfold started in H.
  assert (Hidle : events (fst (startSync gh ai isConnected repoDetails config files w))
                  = events w ->
                  exists pre muts,
                    events (fst (startSync gh ai isConnected repoDetails config files w))
                    = events w ++ pre ++ muts
                    /\ mutationsOf pre = [] /\ blobCallsOf muts = []
                    /\ orderedMutations muts).
  { intros ->. exists [], []. rewrite List.app_nil_r. repeat split. now left. }
  destruct isConnected; [|apply Hidle, H].
  destruct repoDetails as [rd|]; [|apply Hidle, H].
  destruct ((List.length files =? 0)%nat && negb (deleteMissing config)) eqn:Hguard;
    [apply Hidle, H|]. clear H Hidle.
  destruct (run_outcome gh ai rd config files w Hguard)
    as (lg & pre & muts & st & hd & -> & Hpre & _ & Hord & _).
  exists pre, muts. cbn [fst events]. repeat split; try assumption.
  destruct Hord as [->|[(t & ->)|[(t & m & ts & ps & ->)|(t & m & ts & ps & r & -> & Hr)]]];
    try reflexivity.
  destruct Hr as [(b & c & ->)|(b & c & ->)]; reflexivity.
Qed.

(** ** Parent, tree and ref of the commit *)

Lemma committing_run_mutations (gh : Provider) (ai : Gemini) (rd : RepoDetails)
    (config : SyncConfig) (files : list FileToSync.t) (es : list GitTreeItem.t)
    (ts c : string) (w : World) :
  uploadsOf gh config files <> [] \/ filesToDelete (planOf gh config files) <> [] ->
  uploadResults gh (uploadsOf gh config files) = Some es ->
  POST_trees gh (finalTreeOf config (planOf gh config files) es) = Ok ts ->
  POST_commits gh
    (chooseCommitMessage ai config (uploadsOf gh config files)
       (filesToDelete (planOf gh config files)))
    ts (parentsOf (latestCommitSha (planOf gh config files))) = Ok c ->
  mutationsOf (events (runFrom gh ai rd config files w))
  = mutationsOf (events w)
    ++ [Call (CreateTree (finalTreeOf config (planOf gh config files) es));
        Call (CreateCommit
                (chooseCommitMessage ai config (uploadsOf gh config files)
                   (filesToDelete (planOf gh config files)))
                ts (parentsOf (latestCommitSha (planOf gh config files))));
        Call (refCall (defaultBranchOf config)
                (latestCommitSha (planOf gh config files)) c)].
Proof.
  intros Hwork Hok Ht Hc.
  destruct (run_uploaded gh ai rd config files es w (work_passes_guard _ _ _ Hwork)
              Hwork Hok) as (lg & evs & Hrun & Hm & _).
  unfold runFrom. rewrite Hrun. cbn [fst events].
  destruct (scanEvents_reads gh (defaultBranchOf config)) as (Hsm & _).
  rewrite !mutationsOf_app, Hsm, Hm, !List.app_nil_l. f_equal.
  unfold commitEventsOf, uploadsOf in *. cbv zeta.
  rewrite (proj1 (commitEvents_mutations _ _ _ _ _)).
  unfold commitEvents. now rewrite Ht, Hc.
Qed.

Lemma head_of_resolved_ref (gh : Provider) (config : SyncConfig)
    (files : list FileToSync.t) (c0 : string) :
  GET_ref gh (defaultBranchOf config) = Ok c0 ->
  latestCommitSha (planOf gh config files) = Some c0.
Proof.
  intros H. unfold planOf, scanOutcome. cbn [latestCommitSha]. rewrite H.
  now destruct (GET_tree gh c0).
Qed.

(** Without a listing every file is new, nothing is deleted, and the
    final tree is the list of the new entries. *)
Lemma plan_without_listing (gh : Provider) (config : SyncConfig)
    (files : list FileToSync.t) :
  snd (scanOutcome gh (defaultBranchOf config)) = emptyTreeData ->
  uploadsOf gh config files = List.map (newItemOf config) files
  /\ filesToDelete (planOf gh config files) = []
  /\ forall es, finalTreeOf config (planOf gh config files) es = es.
Proof.
  intros Hempty. unfold uploadsOf, finalTreeOf, planOf.
  cbn [analysis filesToDelete baseTreeData]. rewrite Hempty. split; [|split].
  - unfold analyze. rewrite analyze_fold. cbn [filesToUpload]. simpl List.app.
    induction files as [|f files IH]; [reflexivity|]. simpl. rewrite IH.
    unfold uploadItemOf, classify.
    change (remoteFileMap emptyTreeData) with (∅ : gmap string string).
    now rewrite lookup_empty.
  - unfold computeFilesToDelete. simpl. now destruct (deleteMissing config).
  - intros es. unfold assembleFinalTree. simpl. apply List.app_nil_r.
Qed.

(** The writes of a committing run on a resolved ref. *)
Lemma resolved_ref_mutations (gh : Provider) (ai : Gemini) (rd : RepoDetails)
    (config : SyncConfig) (files : list FileToSync.t) (es : list GitTreeItem.t)
    (c0 ts c : string) (w : World) :
  GET_ref gh (defaultBranchOf config) = Ok c0 ->
  Js.truthy c0 = true ->
  uploadsOf gh config files <> [] \/ filesToDelete (planOf gh config files) <> [] ->
  uploadResults gh (uploadsOf gh config files) = Some es ->
  POST_trees gh (finalTreeOf config (planOf gh config files) es) = Ok ts ->
  POST_commits gh
    (chooseCommitMessage ai config (uploadsOf gh config files)
       (filesToDelete (planOf gh config files))) ts [c0] = Ok c ->
  mutationsOf (events (runFrom gh ai rd config files w))
  = mutationsOf (events w)
    ++ [Call (CreateTree (finalTreeOf config (planOf gh config files) es));
        Call (CreateCommit
                (chooseCommitMessage ai config (uploadsOf gh config files)
                   (filesToDelete (planOf gh config files))) ts [c0]);
        Call (UpdateRef (defaultBranchOf config) c)].
Proof.
  intros Href Htruthy Hwork Hok Ht Hc.
  pose proof (head_of_resolved_ref gh config files c0 Href) as Hhead.
  pose proof (committing_run_mutations gh ai rd config files es ts c w Hwork Hok Ht) as H.
  rewrite Hhead in H. unfold parentsOf, refCall, isTruthySha in H.
  rewrite Htruthy in H. now apply H.
Qed.

(** X10.  On an existing branch (the ref resolves to a commit) a run that
    commits asks for a tree with the entries of the final tree, then for a
    commit whose only parent is the resolved head, then for an update of
    the ref, not for its creation.  The order of the entries in the tree
    request is that of the answers to the blob requests, so the tree is
    stated up to a permutation, and the provider is taken to accept it in
    any order. *)
Theorem existing_branch_is_updated (gh : Provider) (ai : Gemini) (rd : RepoDetails)
    (config : SyncConfig) (files : list FileToSync.t) (es : list GitTreeItem.t)
    (c0 ts c : string) (w : World) :
  GET_ref gh (defaultBranchOf config) = Ok c0 ->
  Js.truthy c0 = true ->
  uploadsOf gh config files <> [] \/ filesToDelete (planOf gh config files) <> [] ->
  uploadResults gh (uploadsOf gh config files) = Some es ->
  (forall sent,
      Permutation sent (finalTreeOf config (planOf gh config files) es) ->
      POST_trees gh sent = Ok ts) ->
  POST_commits gh
    (chooseCommitMessage ai config (uploadsOf gh config files)
       (filesToDelete (planOf gh config files))) ts [c0] = Ok c ->
  exists sent,
    Permutation sent (finalTreeOf config (planOf gh config files) es)
    /\ mutationsOf (events (runFrom gh ai rd config files w))
       = mutationsOf (events w)
         ++ [Call (CreateTree sent);
             Call (CreateCommit
                     (chooseCommitMessage ai config (uploadsOf gh config files)
                        (filesToDelete (planOf gh config files))) ts [c0]);
             Call (UpdateRef (defaultBranchOf config) c)].
Proof.
  intros Href Htruthy Hwork Hok Ht Hc.
  exists (finalTreeOf config (planOf gh config files) es).
  split; [reflexivity|].
  apply resolved_ref_mutations; try assumption. now apply Ht.
Qed.

Lemma existing_branch_is_updated_witness :
  exists sent,
    Permutation sent [Sample.blob "b" "blob:x"; Sample.blob "a" Sample.emptyBlobSha]
    /\ mutationsOf
         (events (runFrom (Sample.provider Sample.remoteEmptyA) Sample.noKey Scenario.rd
                    (Sample.config "" false false) [Sample.localFile "b" "x"]
                    Sample.idle))
       = [Call (CreateTree sent);
          Call (CreateCommit "chore: sync 1 files" "t1" ["c0"]);
          Call (UpdateRef "main" "c1")].
Proof.
  refine (existing_branch_is_updated (Sample.provider Sample.remoteEmptyA) Sample.noKey
            Scenario.rd (Sample.config "" false false) [Sample.localFile "b" "x"]
            [Sample.blob "b" "blob:x"] "c0" "t1" "c1" Sample.idle _ _ _ _ _ _).
  - reflexivity.
  - reflexivity.
  - left. vm_compute. discriminate.
  - vm_compute. reflexivity.
  - intros sent _. reflexivity.
  - reflexivity.
Defined.

(** X11.  First push: when the ref request fails, every local file is
    uploaded as new, and a run that commits asks for a tree with the new
    entries only (in the order of the answers to the blob requests, hence
    up to a permutation), for a commit without parent, and for the creation
    of the ref. *)
Theorem first_push_creates_root_commit (gh : Provider) (ai : Gemini) (rd : RepoDetails)
    (config : SyncConfig) (files : list FileToSync.t) (es : list GitTreeItem.t)
    (ts c : string) (w : World) :
  refRequestFails gh (defaultBranchOf config) ->
  files <> [] ->
  uploadResults gh (List.map (newItemOf config) files) = Some es ->
  (forall sent, Permutation sent es -> POST_trees gh sent = Ok ts) ->
  POST_commits gh
    (chooseCommitMessage ai config (List.map (newItemOf config) files) []) ts [] = Ok c ->
  uploadsOf gh config files = List.map (newItemOf config) files
  /\ exists sent,
       Permutation sent es
       /\ mutationsOf (events (runFrom gh ai rd config files w))
          = mutationsOf (events w)
            ++ [Call (CreateTree sent);
                Call (CreateCommit
                        (chooseCommitMessage ai config
                           (List.map (newItemOf config) files) [])
                        ts []);
                Call (CreateRef (defaultBranchOf config) c)].
Proof.
  intros Href Hfiles Hok Ht Hc.
  assert (Hscan : scanOutcome gh (defaultBranchOf config) = (None, emptyTreeData)).
  { unfold scanOutcome, refRequestFails in *.
    destruct (GET_ref gh (defaultBranchOf config)) as [sha| |]; [|reflexivity..].
    now contradiction (Href sha). }
  destruct (plan_without_listing gh config files) as (Hup & Hdel & Hft).
  { now rewrite Hscan. }
  split; [exact Hup|]. exists es. split; [reflexivity|].
  assert (Hhead : latestCommitSha (planOf gh config files) = None).
  { unfold planOf. cbn [latestCommitSha]. now rewrite Hscan. }
  assert (Hwork : uploadsOf gh config files <> []
                  \/ filesToDelete (planOf gh config files) <> []).
  { left. rewrite Hup. destruct files; [congruence|discriminate]. }
  pose proof (committing_run_mutations gh ai rd config files es ts c w Hwork) as H.
  rewrite Hup, Hdel, Hft, Hhead in H. apply H; try assumption. now apply Ht.
Qed.

Lemma first_push_creates_root_commit_witness :
  exists sent,
    Permutation sent [Sample.blob "src/a" "blob:x"]
    /\ mutationsOf
         (events (runFrom Listing.noBranch Sample.noKey Scenario.rd
                    (Sample.config "src" false false) [Sample.localFile "a" "x"]
                    Sample.idle))
       = [Call (CreateTree sent);
          Call (CreateCommit "chore: sync 1 files" "t1" []);
          Call (CreateRef "main" "c1")].
Proof.
  refine (proj2 (first_push_creates_root_commit Listing.noBranch Sample.noKey Scenario.rd
                   (Sample.config "src" false false) [Sample.localFile "a" "x"]
                   [Sample.blob "src/a" "blob:x"] "t1" "c1" Sample.idle _ _ _ _ _)).
  - intros sha. discriminate.
  - discriminate.
  - vm_compute. reflexivity.
  - intros sent _. reflexivity.
  - reflexivity.
Defined.

(** X12.  When the ref resolves but the listing request fails, the run
    goes on without a listing: every local file is uploaded as new, and a
    run that commits updates the branch to a commit on the resolved head
    whose tree has the new entries only (in the order of the answers to
    the blob requests, hence up to a permutation). *)
Theorem failed_listing_commits_uploads_only (gh : Provider) (ai : Gemini)
    (rd : RepoDetails) (config : SyncConfig) (files : list FileToSync.t)
    (es : list GitTreeItem.t) (c0 ts c : string) (w : World) :
  GET_ref gh (defaultBranchOf config) = Ok c0 ->
  Js.truthy c0 = true ->
  (forall t, GET_tree gh c0 <> Ok t) ->
  files <> [] ->
  uploadResults gh (List.map (newItemOf config) files) = Some es ->
  (forall sent, Permutation sent es -> POST_trees gh sent = Ok ts) ->
  POST_commits gh
    (chooseCommitMessage ai config (List.map (newItemOf config) files) []) ts [c0] = Ok c ->
  uploadsOf gh config files = List.map (newItemOf config) files
  /\ exists sent,
       Permutation sent es
       /\ mutationsOf (events (runFrom gh ai rd config files w))
          = mutationsOf (events w)
            ++ [Call (CreateTree sent);
                Call (CreateCommit
                        (chooseCommitMessage ai config
                           (List.map (newItemOf config) files) [])
                        ts [c0]);
                Call (UpdateRef (defaultBranchOf config) c)].
Proof.
  intros Href Htruthy Htree Hfiles Hok Ht Hc.
  assert (Hscan : scanOutcome gh (defaultBranchOf config) = (Some c0, emptyTreeData)).
  { unfold scanOutcome. rewrite Href.
    destruct (GET_tree gh c0) as [t| |] eqn:Hg; [|reflexivity..].
    now contradiction (Htree t). }
  destruct (plan_without_listing gh config files) as (Hup & Hdel & Hft).
  { now rewrite Hscan. }
  split; [exact Hup|]. exists es. split; [reflexivity|].
  assert (Hwork : uploadsOf gh config files <> []
                  \/ filesToDelete (planOf gh config files) <> []).
  { left. rewrite Hup. destruct files; [congruence|discriminate]. }
  pose proof (resolved_ref_mutations gh ai rd config files es c0 ts c w
                Href Htruthy Hwork) as H.
  rewrite Hup, Hdel, Hft in H. apply H; try assumption. now apply Ht.
Qed.

Lemma failed_listing_commits_uploads_only_witness :
  exists sent,
    Permutation sent [Sample.blob "a" "blob:x"]
    /\ mutationsOf
         (events (runFrom Listing.unavailable Sample.noKey Scenario.rd
                    (Sample.config "" false false) [Sample.localFile "a" "x"]
                    Sample.idle))
       = [Call (CreateTree sent);
          Call (CreateCommit "chore: sync 1 files" "t1" ["c0"]);
          Call (UpdateRef "main" "c1")].
Proof.
  refine (proj2 (failed_listing_commits_uploads_only Listing.unavailable Sample.noKey
                   Scenario.rd (Sample.config "" false false) [Sample.localFile "a" "x"]
                   [Sample.blob "a" "blob:x"] "c0" "t1" "c1" Sample.idle _ _ _ _ _ _ _)).
  - reflexivity.
  - reflexivity.
  - intros t. discriminate.
  - discriminate.
  - vm_compute. reflexivity.
  - intros sent _. reflexivity.
  - reflexivity.
Defined.

(** ** What the final tree keeps *)

Lemma finalTree_keeps (config : SyncConfig) (t : TreeData) (es : list GitTreeItem.t)
    (deleted : list string) (processed : gset string) (item : GitTreeItem.t) :
  In item (tree t) -> isBlob item = true ->
  ~ In (GitTreeItem.path item) deleted ->
  Js.truthy (targetPrefix config)
  && Js.startsWith (GitTreeItem.path item) (targetPrefix config)
  && negb (bool_decide (GitTreeItem.path item ∈ processed))
  && deleteMissing config = false ->
  In (GitTreeItem.path item)
    (List.map GitTreeItem.path
       (assembleFinalTree config t es (List.map GitTreeItem.path es) deleted processed)).
Proof.
  intros Hin Hblob Hdel Hline. rewrite finalTree_paths, List.in_app_iff.
  destruct (List.in_dec string_dec (GitTreeItem.path item)
              (List.map GitTreeItem.path es)) as [Hup|Hup]; [now left|right].
  apply List.in_map. apply List.filter_In. split; [exact Hin|].
  unfold isBlob in Hblob. rewrite Hblob, Hline. simpl.
  rewrite bool_decide_eq_false_2, bool_decide_eq_false_2; [reflexivity| |].
  - now rewrite list_elem_of_In.
  - now rewrite elem_of_list_to_set, list_elem_of_In.
Qed.

(** X13.  A blob path of the listing is missing from the final tree
    only if the delete option is on, no local file was matched with the
    path, and the path starts with the target prefix (or no target is
    set); every other blob path is kept with its entry or taken over by an
    upload. *)
Theorem dropped_paths_are_unmatched_in_prefix (gh : Provider) (config : SyncConfig)
    (files : list FileToSync.t) (es : list GitTreeItem.t) (item : GitTreeItem.t) :
  In item (tree (baseTreeData (planOf gh config files))) ->
  isBlob item = true ->
  ~ In (GitTreeItem.path item)
      (List.map GitTreeItem.path (finalTreeOf config (planOf gh config files) es)) ->
  deleteMissing config = true
  /\ (GitTreeItem.path item ∉ processedRemotePaths (analysis (planOf gh config files)))
  /\ (Js.truthy (targetPrefix config) = false
      \/ Js.startsWith (GitTreeItem.path item) (targetPrefix config) = true).
Proof.
  intros Hin Hblob Hgone.
  assert (Hkeep :
            ~ In (GitTreeItem.path item) (filesToDelete (planOf gh config files)) ->
            (Js.truthy (targetPrefix config)
             && Js.startsWith (GitTreeItem.path item) (targetPrefix config)
             && negb (bool_decide
                        (GitTreeItem.path item
                         ∈ processedRemotePaths (analysis (planOf gh config files))))
             && deleteMissing config) = false ->
            False).
  { intros Hdel Hline. apply Hgone. unfold finalTreeOf. now apply finalTree_keeps. }
  destruct (deleteMissing config) eqn:Hd.
  2:{ exfalso. apply Hkeep.
      - intros H. apply in_filesToDelete in H. destruct H as (H & _). congruence.
      - apply andb_false_r. }
  split; [reflexivity|].
  destruct (bool_decide (GitTreeItem.path item
                         ∈ processedRemotePaths (analysis (planOf gh config files))))
    eqn:Hproc.
  { exfalso. apply Hkeep.
    - intros H. apply in_filesToDelete in H. destruct H as (_ & _ & _ & _ & H).
      apply bool_decide_eq_true in Hproc. auto.
    - simpl. now rewrite andb_false_r. }
  apply bool_decide_eq_false in Hproc. split; [exact Hproc|].
  destruct (Js.truthy (targetPrefix config)) eqn:Htruthy; [right|now left].
  destruct (Js.startsWith (GitTreeItem.path item) (targetPrefix config)) eqn:Hstart;
    [reflexivity|].
  exfalso. apply Hkeep.
  - intros H. apply in_filesToDelete in H. destruct H as (_ & _ & _ & [H|H] & _); congruence.
  - reflexivity.
Qed.

Lemma dropped_paths_are_unmatched_in_prefix_witness :
  deleteMissing Prefix.config = true
  /\ Js.startsWith "src/old" (targetPrefix Prefix.config) = true.
Proof.
  destruct (dropped_paths_are_unmatched_in_prefix
              (Sample.provider
                 {| tree := [Sample.blob "docs/readme" "1f"; Sample.blob "src/old" "2f"];
                    truncated := false |})
              Prefix.config [] [] (Sample.blob "src/old" "2f"))
    as (Hd & _ & [Hp|Hp]).
  - vm_compute. tauto.
  - reflexivity.
  - vm_compute. intros [H|[]]. discriminate H.
  - discriminate Hp.
  - split; assumption.
Defined.

Lemma uploadResult_entry (gh : Provider) (item : UploadItem) (e : GitTreeItem.t) :
  uploadResult gh item = Some e ->
  GitTreeItem.type e = "blob" /\ GitTreeItem.mode e = "100644"
  /\ GitTreeItem.path e = remotePath item.
Proof.
  unfold uploadResult. destruct (readFileAsBase64 _); [|discriminate].
  destruct (POST_blobs gh _); [|discriminate..]. intros [= <-]. auto.
Qed.

Lemma uploadResults_entries (gh : Provider) (items : list UploadItem)
    (es : list GitTreeItem.t) :
  uploadResults gh items = Some es ->
  Forall (fun e => GitTreeItem.type e = "blob" /\ GitTreeItem.mode e = "100644") es.
Proof.
  revert es. induction items as [|item items IH]; intros es H; simpl in H.
  - injection H as <-. constructor.
  - destruct (uploadResult gh item) as [e|] eqn:He; [|discriminate].
    destruct (uploadResults gh items) as [es'|]; [|discriminate].
    injection H as <-. constructor; [|now apply IH].
    apply uploadResult_entry in He. tauto.
Qed.

(** X14.  Every entry of the final tree is a blob: an upload, with the
    mode "100644", or a blob entry of the listing, as it was listed; the
    entries of the listing that are not blobs are not in it. *)
Theorem final_tree_has_blobs_only (gh : Provider) (config : SyncConfig)
    (files : list FileToSync.t) (es : list GitTreeItem.t) :
  uploadResults gh (uploadsOf gh config files) = Some es ->
  Forall
    (fun e => GitTreeItem.type e = "blob"
              /\ ((In e es /\ GitTreeItem.mode e = "100644")
                  \/ In e (tree (baseTreeData (planOf gh config files)))))
    (finalTreeOf config (planOf gh config files) es).
Proof.
  intros Hok. pose proof (uploadResults_entries gh _ es Hok) as Hes.
  rewrite Forall_forall in Hes. apply Forall_forall. intros e He.
  apply list_elem_of_In, in_finalTree in He.
  destruct He as [He|(Hin & Hblob & _)].
  - destruct (Hes e) as (Ht & Hm); [now apply list_elem_of_In|]. auto.
  - unfold isBlob in Hblob. apply String.eqb_eq in Hblob. auto.
Qed.

Lemma final_tree_has_blobs_only_witness :
  Forall
    (fun e => GitTreeItem.type e = "blob"
              /\ ((In e [Sample.blob "b" "blob:x"] /\ GitTreeItem.mode e = "100644")
                  \/ In e (tree (baseTreeData
                                   (planOf (Sample.provider Sample.remoteEmptyA)
                                      (Sample.config "" false false)
                                      [Sample.localFile "b" "x"])))))
    (finalTreeOf (Sample.config "" false false)
       (planOf (Sample.provider Sample.remoteEmptyA) (Sample.config "" false false)
          [Sample.localFile "b" "x"])
       [Sample.blob "b" "blob:x"]).
Proof.
  apply final_tree_has_blobs_only. vm_compute. reflexivity.
Defined.

(** ** The analysis, file by file *)

Lemma unreadable_not_unchanged (config : SyncConfig) (remote : gmap string string)
    (f : FileToSync.t) :
  arrayBuffer (FileToSync.file f) = None ->
  exists isNew,
    uploadItemOf config remote f
    = [{| item_file := f; remotePath := remotePathOf config f; isNew := isNew |}].
Proof.
  intros Hread. unfold uploadItemOf, classify, computeGitBlobSha. rewrite Hread.
  destruct (remote !! remotePathOf config f) as [sha|]; [|eauto].
  destruct (Js.truthy sha); eauto.
Qed.

(** X15.  A local file whose content cannot be read for hashing is never
    skipped: it is among the files to upload, whatever the remote has at
    its path. *)
Theorem unreadable_file_is_uploaded (config : SyncConfig) (files : list FileToSync.t)
    (t : TreeData) (f : FileToSync.t) :
  In f files ->
  arrayBuffer (FileToSync.file f) = None ->
  In f (List.map item_file (filesToUpload (analyze config files t))).
Proof.
  intros Hin Hread. unfold analyze. rewrite analyze_fold. cbn [filesToUpload].
  simpl List.app. apply List.in_map_iff.
  destruct (unreadable_not_unchanged config (remoteFileMap t) f Hread) as (n & Hitem).
  eexists. split; [|apply List.in_flat_map; exists f; split; [exact Hin|]].
  2:{ rewrite Hitem. left. reflexivity. }
  reflexivity.
Qed.

Lemma unreadable_file_is_uploaded_witness :
  In {| FileToSync.path := "a";
        FileToSync.file := {| arrayBuffer := None; dataURL_base64 := Some "eA==" |} |}
    (List.map item_file
       (filesToUpload
          (analyze (Sample.config "" false false)
             [{| FileToSync.path := "a";
                 FileToSync.file := {| arrayBuffer := None;
                                       dataURL_base64 := Some "eA==" |} |}]
             Sample.remoteEmptyA))).
Proof.
  apply unreadable_file_is_uploaded; [left|]; reflexivity.
Defined.

Lemma filter_split_length {A} (f : A -> bool) (l : list A) :
  List.length (List.filter f l) + List.length (List.filter (fun x => negb (f x)) l)
  = List.length l.
Proof.
  induction l as [|x l IH]; [reflexivity|]. simpl.
  destruct (f x); simpl; lia.
Qed.

(** X16.  The analysis puts every local file in one class, also when
    paths repeat: the unchanged, new and modified paths together are the
    combined paths of the files, each as often as it occurs, and the
    skipped and the uploaded files add up to the selection. *)
Theorem every_file_classified_once (config : SyncConfig) (files : list FileToSync.t)
    (t : TreeData) :
  Permutation
    (unchangedPaths (analyze config files t) ++ newPaths (analyze config files t)
     ++ modifiedPaths (analyze config files t))
    (localRemotePaths config files)
  /\ List.length (filesSkipped (analyze config files t))
     + List.length (filesToUpload (analyze config files t))
     = List.length files.
Proof.
  assert (Hperm : Permutation
            (unchangedPaths (analyze config files t) ++ newPaths (analyze config files t)
             ++ modifiedPaths (analyze config files t))
            (localRemotePaths config files)).
  { unfold unchangedPaths, newPaths, modifiedPaths, analyze.
    rewrite analyze_fold. cbn [filesToUpload filesSkipped]. simpl List.app.
    rewrite flat_map_new, flat_map_modified. apply classes_permutation. }
  split; [exact Hperm|].
  apply Permutation_length in Hperm.
  unfold unchangedPaths, newPaths, modifiedPaths, localRemotePaths in Hperm.
  rewrite !List.length_app, !List.length_map in Hperm.
  rewrite <- (filter_split_length isNew (filesToUpload (analyze config files t))).
  lia.
Qed.

(** ** Where the commit message comes from *)

(** X17.  The message of the commit request of a run whose tree the
    provider creates (taking its entries in any order): without automatic
    generation it is the template with the number of uploads (a run that
    only deletes says "chore: sync 0 files"); with it, when the
    collaborator answers, it is the answer without the white space around
    it. *)
Theorem commit_message_source (gh : Provider) (ai : Gemini) (rd : RepoDetails)
    (config : SyncConfig) (files : list FileToSync.t) (es : list GitTreeItem.t)
    (newTreeSha : string) (w : World) :
  uploadsOf gh config files <> [] \/ filesToDelete (planOf gh config files) <> [] ->
  uploadResults gh (uploadsOf gh config files) = Some es ->
  (forall sent,
      Permutation sent (finalTreeOf config (planOf gh config files) es) ->
      POST_trees gh sent = Ok newTreeSha) ->
  (autoCommitMessage config = false ->
   commitMessagesOf (events (runFrom gh ai rd config files w))
   = commitMessagesOf (events w)
       ++ [templateMessage (List.length (uploadsOf gh config files))])
  /\ (forall text,
         autoCommitMessage config = true ->
         Js.truthy (API_KEY ai) = true ->
         generateContent ai (newPaths (analysis (planOf gh config files)))
           (modifiedPaths (analysis (planOf gh config files)))
           (filesToDelete (planOf gh config files)) = Some text ->
         commitMessagesOf (events (runFrom gh ai rd config files w))
         = commitMessagesOf (events w) ++ [Js.trim text]).
Proof.
  intros Hwork Hok Hsent.
  pose proof (Hsent _ (Permutation_refl _)) as Htree.
  destruct (run_uploaded gh ai rd config files es w (work_passes_guard _ _ _ Hwork)
              Hwork Hok) as (lg & evs & Hrun & Hm & _).
  assert (Hmsg : commitMessagesOf (events (runFrom gh ai rd config files w))
                 = commitMessagesOf (events w)
                     ++ [chooseCommitMessage ai config (uploadsOf gh config files)
                           (filesToDelete (planOf gh config files))]).
  { unfold runFrom. rewrite Hrun. cbn [fst events]. rewrite !commitMessagesOf_app.
    destruct (scanEvents_reads gh (defaultBranchOf config)) as (_ & _ & _ & _ & ->).
    destruct (no_mutation_no_commit evs Hm) as (-> & _).
    unfold commitEventsOf. cbv zeta.
    now rewrite (commitEvents_message _ _ _ _ _ newTreeSha Htree). }
  rewrite Hmsg. unfold chooseCommitMessage, generateCommitMessage. split.
  - intros ->. reflexivity.
  - intros text -> Hkey Htext. rewrite Hkey. simpl negb. cbv iota.
    unfold newPaths, modifiedPaths, uploadsOf in *. now rewrite Htext.
Qed.

Lemma commit_message_source_witness :
  commitMessagesOf
    (events (runFrom (Sample.provider Scenario.noTree) Messages.answering Scenario.rd
               (Sample.config "" false true) [Sample.localFile "a" "x"] Sample.idle))
  = ["feat: add a"].
Proof.
  refine (proj2 (commit_message_source (Sample.provider Scenario.noTree)
                   Messages.answering Scenario.rd (Sample.config "" false true)
                   [Sample.localFile "a" "x"] [Sample.blob "a" "blob:x"] "t1"
                   Sample.idle _ _ _) Messages.answer _ _ _).
  - left. vm_compute. discriminate.
  - vm_compute. reflexivity.
  - intros sent _. reflexivity.
  - reflexivity.
  - reflexivity.
  - reflexivity.
Defined.

(** ** The blob requests of a run *)

Lemma blobCallsOf_app (e1 e2 : list Event) :
  blobCallsOf (e1 ++ e2) = blobCallsOf e1 ++ blobCallsOf e2.
Proof. apply List.flat_map_app. Qed.

Lemma uploadItem_blobs (gh : Provider) (item : UploadItem) (w : World) :
  blobCallsOf (events (fst (uploadItem gh item w)))
  = blobCallsOf (events w) ++ payloadsOf [item].
Proof.
  unfold uploadItem, payloadsOf, try_catch, GitHubService.createBlob. simpl List.flat_map.
  destruct (readFileAsBase64 _) as [base64|].
  - unfold bind at 1 2. unfold ret at 1. rewrite request_run.
    destruct (POST_blobs gh base64) as [blobSha|status message|message].
    + unfold when, bind, ret. destruct (isNew item); cbv beta iota delta [negb].
      * cbn [fst events extend]. now rewrite blobCallsOf_app.
      * rewrite addLog_run, extend_extend. cbn [fst events extend].
        now rewrite blobCallsOf_app.
    + unfold bind, throw. rewrite addLog_run, extend_extend. cbn [fst events extend].
      now rewrite blobCallsOf_app.
    + unfold bind, throw. rewrite addLog_run, extend_extend. cbn [fst events extend].
      now rewrite blobCallsOf_app.
  - unfold bind, throw. rewrite addLog_run. cbn [fst events extend].
    now rewrite blobCallsOf_app.
Qed.

Lemma promiseAll_fst {A} (task : M A) (rest : list (M A)) (w : World) :
  fst (promiseAll (task :: rest) w) = fst (promiseAll rest (fst (task w))).
Proof.
  simpl. destruct (task w) as [w1 [a|e]]; [|reflexivity].
  simpl. now destruct (promiseAll rest w1) as [w2 [l|e]].
Qed.

Lemma payloadsOf_app (l1 l2 : list UploadItem) :
  payloadsOf (l1 ++ l2) = payloadsOf l1 ++ payloadsOf l2.
Proof. apply List.flat_map_app. Qed.

Lemma promiseAll_blobs (gh : Provider) (chunk : list UploadItem) (w : World) :
  blobCallsOf (events (fst (promiseAll (List.map (uploadItem gh) chunk) w)))
  = blobCallsOf (events w) ++ payloadsOf chunk.
Proof.
  revert w. induction chunk as [|item chunk IH]; intros w.
  - simpl. now rewrite List.app_nil_r.
  - change (List.map (uploadItem gh) (item :: chunk))
      with (uploadItem gh item :: List.map (uploadItem gh) chunk).
    rewrite promiseAll_fst, IH, uploadItem_blobs.
    change (item :: chunk) with ([item] ++ chunk).
    now rewrite payloadsOf_app, List.app_assoc.
Qed.

(** The upload loop asks for the blobs of the batches it starts. *)
Lemma uploadChunks_blobs (gh : Provider) (cs : list (list UploadItem))
    (newTree : list GitTreeItem.t) (uploadedPaths : list string) (w : World)
    (es : list GitTreeItem.t) :
  uploadResults gh (List.concat cs) = Some es ->
  blobCallsOf (events (fst (uploadChunks gh cs newTree uploadedPaths w)))
  = blobCallsOf (events w) ++ payloadsOf (List.concat cs).
Proof.
  revert newTree uploadedPaths w es.
  induction cs as [|chunk cs IH]; intros newTree uploadedPaths w es Hok.
  - simpl. now rewrite List.app_nil_r.
  - simpl List.concat in *. rewrite uploadResults_app in Hok.
    destruct (uploadResults gh chunk) as [es1|] eqn:Hchunk; [|discriminate].
    destruct (uploadResults gh (List.concat cs)) as [es2|] eqn:Hrest; [|discriminate].
    simpl uploadChunks. unfold bind at 1. rewrite emit_run. unfold bind at 1.
    pose proof (promiseAll_blobs gh chunk
                  (extend w [BatchStarted (List.map remotePath chunk)] [])) as Hblobs.
    destruct (promiseAll_run gh chunk
                (extend w [BatchStarted (List.map remotePath chunk)] []))
      as (e1 & l1 & c1 & Hrun & _ & Hc1).
    rewrite Hchunk in Hc1. subst c1. rewrite Hrun in Hblobs |- *.
    cbn [fst] in Hblobs. rewrite (IH _ _ _ es2 eq_refl), Hblobs.
    cbn [events extend]. rewrite blobCallsOf_app, payloadsOf_app.
    simpl. now rewrite List.app_nil_r, List.app_assoc.
Qed.

Lemma uploadResults_payloads (gh : Provider) (items : list UploadItem)
    (es : list GitTreeItem.t) :
  uploadResults gh items = Some es ->
  List.length (payloadsOf items) = List.length items.
Proof.
  revert es. induction items as [|item items IH]; intros es H; [reflexivity|].
  simpl in H. destruct (uploadResult gh item) as [e|] eqn:He; [|discriminate].
  destruct (uploadResults gh items) as [es'|]; [|discriminate].
  change (item :: items) with ([item] ++ items).
  rewrite payloadsOf_app, List.length_app, (IH es' eq_refl).
  unfold uploadResult in He. unfold payloadsOf. simpl.
  destruct (readFileAsBase64 _); [reflexivity|discriminate].
Qed.

Lemma catch_keeps_events (m : M unit) (w : World) :
  events (fst (try_catch m
                 (fun e => setSyncState ERROR;; addLog ("Error: " +:+ exn_message e) error)
                 w))
  = events (fst (m w)).
Proof.
  unfold try_catch. destruct (m w) as [w' [[]|e]]; [reflexivity|].
  unfold bind. rewrite setSyncState_run, addLog_run. simpl. apply List.app_nil_r.
Qed.

Lemma commitEvents_no_blob (gh : Provider) (b : string) (head : option string)
    (ft : list GitTreeItem.t) (m : string) :
  blobCallsOf (commitEvents gh b head ft m) = [].
Proof.
  unfold commitEvents. destruct (POST_trees gh ft); [|reflexivity..].
  simpl. destruct (POST_commits gh _ _ _); [|reflexivity..].
  simpl. now destruct (isTruthySha head).
Qed.

Lemma syncPlan_blobs (gh : Provider) (ai : Gemini) (config : SyncConfig)
    (head : option string) (t : TreeData) (a : Analysis) (d : list string)
    (es : list GitTreeItem.t) (w : World) :
  uploadResults gh (filesToUpload a) = Some es ->
  blobCallsOf (events (fst (syncPlan gh ai config head t a d w)))
  = blobCallsOf (events w) ++ payloadsOf (filesToUpload a).
Proof.
  intros Hok. unfold syncPlan.
  destruct ((List.length (filesToUpload a) =? 0)%nat && (List.length d =? 0)%nat) eqn:Hnone.
  - apply andb_prop in Hnone. destruct Hnone as (Hup & _).
    destruct (filesToUpload a); [|discriminate Hup].
    unfold bind. rewrite addLog_run, setSyncState_run. simpl.
    now rewrite !List.app_nil_r.
  - unfold bind at 1. rewrite setSyncState_run. unfold bind at 1.
    pose proof (uploadChunks_blobs gh (chunks (filesToUpload a)) [] []
                  (withState UPLOADING w) es) as Hblobs.
    rewrite chunks_concat in Hblobs. specialize (Hblobs Hok).
    destruct (uploadChunks_run gh (chunks (filesToUpload a)) [] [] (withState UPLOADING w))
      as (evs & lg & c & Hrun & _ & Hc).
    rewrite chunks_concat, Hok in Hc. destruct Hc as (-> & _).
    rewrite Hrun in Hblobs |- *. cbn [fst] in Hblobs.
    unfold bind at 1. rewrite setSyncState_run.
    match goal with
    | |- context [commitPhase ?g ?b ?h ?ft ?m ?w0] =>
        destruct (commitPhase_run g b h ft m w0) as (c' & -> & _);
        pose proof (commitEvents_no_blob g b h ft m) as Hnb
    end.
    cbn [fst].
    match goal with
    | |- context [match ?r with Some _ => _ | None => _ end] => destruct r
    end; cbn [events withState withHead extend] in *;
      rewrite blobCallsOf_app, Hnb, List.app_nil_r; exact Hblobs.
Qed.

(** The blob requests of a run whose uploads all go through. *)
Lemma run_blob_requests (gh : Provider) (ai : Gemini) (rd : RepoDetails)
    (config : SyncConfig) (files : list FileToSync.t) (es : list GitTreeItem.t)
    (w : World) :
  uploadResults gh (uploadsOf gh config files) = Some es ->
  files <> [] \/ deleteMissing config = true ->
  blobCallsOf (events (runFrom gh ai rd config files w))
  = blobCallsOf (events w) ++ payloadsOf (uploadsOf gh config files).
Proof.
  intros Hok Hstart.
  assert (Hguard : (List.length files =? 0)%nat && negb (deleteMissing config) = false).
  { destruct Hstart as [Hf| ->]; [|apply andb_false_r].
    destruct files; [congruence|reflexivity]. }
  unfold runFrom. rewrite startSync_started by exact Hguard.
  rewrite catch_keeps_events.
  destruct (syncBody_run gh ai config files (withState SCANNING w)) as (lg & -> & _).
  rewrite (syncPlan_blobs _ _ _ _ _ _ _ es) by exact Hok.
  cbn [events withState extend]. rewrite blobCallsOf_app.
  destruct (scanEvents_reads gh (defaultBranchOf config)) as (_ & _ & -> & _).
  now rewrite List.app_nil_r.
Qed.

(** X18.  A run whose uploads all go through asks for one blob for each
    file to upload, with the payload read from the file, and for no other
    blob: an unchanged file costs no request.  The requests of a batch go
    out as the reads complete, so the payloads are stated up to a
    permutation. *)
Theorem one_blob_request_per_upload (gh : Provider) (ai : Gemini) (rd : RepoDetails)
    (config : SyncConfig) (files : list FileToSync.t) (es : list GitTreeItem.t)
    (w : World) :
  uploadResults gh (uploadsOf gh config files) = Some es ->
  files <> [] \/ deleteMissing config = true ->
  exists sent,
    blobCallsOf (events (runFrom gh ai rd config files w)) = blobCallsOf (events w) ++ sent
    /\ Permutation sent (payloadsOf (uploadsOf gh config files))
    /\ List.length sent = List.length (uploadsOf gh config files).
Proof.
  intros Hok Hstart. exists (payloadsOf (uploadsOf gh config files)).
  split; [now apply (run_blob_requests gh ai rd config files es)|].
  split; [reflexivity|now apply (uploadResults_payloads gh _ es)].
Qed.

Lemma one_blob_request_per_upload_witness :
  exists sent,
    blobCallsOf
      (events (runFrom (Sample.provider Sample.remoteEmptyA) Sample.noKey Scenario.rd
                 (Sample.config "" false false)
                 [Sample.localFile "a" ""; Sample.localFile "b" "x";
                  Sample.localFile "c" "y"] Sample.idle))
    = sent
    /\ Permutation sent ["x"; "y"]
    /\ List.length sent = 2.
Proof.
  refine (one_blob_request_per_upload (Sample.provider Sample.remoteEmptyA)
            Sample.noKey Scenario.rd (Sample.config "" false false)
            [Sample.localFile "a" ""; Sample.localFile "b" "x"; Sample.localFile "c" "y"]
            [Sample.blob "b" "blob:x"; Sample.blob "c" "blob:y"] Sample.idle _ _).
  - vm_compute. reflexivity.
  - left. discriminate.
Defined.

(** ** The shape of a content address *)

Lemma hex_digit_is_hex (n : N) : isHexDigit (hex_digit n) = true.
Proof.
  destruct n as [|p]; [reflexivity|].
  do 4 (try destruct p as [p|p|]; try reflexivity).
Qed.

Lemma hex_lower_digits (bs : list byte) : allHexDigits (hex_lower bs) = true.
Proof.
  induction bs as [|b bs IH]; [reflexivity|].
  simpl. now rewrite !hex_digit_is_hex, IH.
Qed.

(** X19.  Whenever the hasher resolves, its result has forty characters,
    all of them lowercase hexadecimal digits. *)
Theorem content_address_shape (file : File) (s : string) :
  computeGitBlobSha file = Some s ->
  String.length s = 40 /\ allHexDigits s = true.
Proof.
  unfold computeGitBlobSha. destruct (arrayBuffer file) as [b|]; [|discriminate].
  rewrite gitBlobSha_of_buffer_identity. intros [= <-].
  unfold git_blob_identity. rewrite hex_lower_length, digest_length.
  split; [reflexivity|apply hex_lower_digits].
Qed.

Lemma content_address_shape_witness :
  String.length Sample.emptyBlobSha = 40 /\ allHexDigits Sample.emptyBlobSha = true.
Proof.
  apply (content_address_shape
           {| arrayBuffer := Some []; dataURL_base64 := None |}).
  vm_compute. reflexivity.
Defined.

(** ** The repository reference *)

Section StringTails.

Lemma length_append (a b : string) :
  String.length (a +:+ b) = String.length a + String.length b.
Proof.
  induction a as [|x a IH]; [reflexivity|].
  change (String x a +:+ b) with (String x (a +:+ b)). simpl. now rewrite IH.
Qed.

Lemma substring_prefix (a b : string) :
  String.substring 0 (String.length a) (a +:+ b) = a.
Proof.
  induction a as [|x a IH]; [now destruct b|].
  change (String x a +:+ b) with (String x (a +:+ b)). simpl. now rewrite IH.
Qed.

Lemma dropLast_app (a b : string) :
  JsString.dropLast (String.length b) (a +:+ b) = a.
Proof.
  unfold JsString.dropLast. rewrite length_append.
  replace (String.length a + String.length b - String.length b) with (String.length a)
    by lia.
  apply substring_prefix.
Qed.

Lemma endsWith_app (a t : string) : JsString.endsWith (a +:+ t) t = true.
Proof.
  induction a as [|x a IH].
  - change ("" +:+ t) with t.
    destruct t; cbn [JsString.endsWith]; now rewrite String.eqb_refl.
  - change (String x a +:+ t) with (String x (a +:+ t)). simpl.
    rewrite IH. apply orb_true_r.
Qed.

Lemma hasChar_eq (c : ascii) (s t : string) :
  hasChar c s = true -> hasChar c t = false -> String.eqb s t = false.
Proof.
  intros Hs Ht. apply String.eqb_neq. intros ->. congruence.
Qed.

(** A suffix without the character [c] lies behind the last [c]. *)
Lemma endsWith_behind (c : ascii) (a b t : string) :
  hasChar c t = false ->
  JsString.endsWith (a +:+ String c b) t = JsString.endsWith b t.
Proof.
  intros Ht. induction a as [|x a IH].
  - change ("" +:+ String c b) with (String c b). cbn [JsString.endsWith].
    rewrite hasChar_eq with (c := c); [reflexivity| |exact Ht].
    cbn [hasChar]. now rewrite Ascii.eqb_refl.
  - change (String x a +:+ String c b) with (String x (a +:+ String c b)).
    cbn [JsString.endsWith].
    rewrite IH, hasChar_eq with (c := c); [reflexivity| |exact Ht].
    cbn [hasChar]. rewrite hasChar_app. cbn [hasChar]. rewrite Ascii.eqb_refl.
    now rewrite !orb_true_r.
Qed.

Lemma endsWith_char (c x : ascii) (s : string) :
  JsString.endsWith (String x s) (String c "")
  = match s with
    | EmptyString => Ascii.eqb x c
    | String _ _ => JsString.endsWith s (String c "")
    end.
Proof.
  cbn [JsString.endsWith]. destruct s as [|y s].
  - simpl. destruct (Ascii.eqb x c); reflexivity.
  - replace (String.eqb (String x (String y s)) (String c "")) with false;
      [reflexivity|].
    simpl. destruct (Ascii.eqb x c); reflexivity.
Qed.

Lemma strip_trailing_keeps (c : ascii) (s : string) :
  JsString.endsWith s (String c "") = false -> Js.strip_trailing c s = s.
Proof.
  induction s as [|x s IH]; [reflexivity|]. rewrite endsWith_char.
  intros H. simpl. destruct s as [|y s].
  - simpl. now rewrite H.
  - rewrite IH by exact H. reflexivity.
Qed.

Lemma endsWith_char_split (c : ascii) (s : string) :
  JsString.endsWith s (String c "") = true -> exists pre, s = pre +:+ String c "".
Proof.
  induction s as [|x s IH]; [discriminate|]. rewrite endsWith_char.
  destruct s as [|y s].
  - intros H. apply Ascii.eqb_eq in H. subst x. now exists "".
  - intros H. destruct (IH H) as (pre & ->). now exists (String x pre).
Qed.

Lemma strip_trailing_slashes (c : ascii) (a : string) (n : nat) :
  Js.strip_trailing c (a +:+ Js.repeat_char c n) = Js.strip_trailing c a.
Proof.
  induction a as [|x a IH].
  - change ("" +:+ Js.repeat_char c n) with (Js.repeat_char c n).
    induction n as [|n IHn]; [reflexivity|]. simpl. rewrite IHn. simpl.
    now rewrite Ascii.eqb_refl.
  - change (String x a +:+ Js.repeat_char c n) with (String x (a +:+ Js.repeat_char c n)).
    simpl. now rewrite IH.
Qed.

(** The loop that drops the trailing slashes gives what the trailing
    strip of the normalizer gives, once the fuel covers the length. *)
Lemma dropTrailingSlashes_strip (fuel : nat) (s : string) :
  String.length s <= fuel -> dropTrailingSlashes fuel s = Js.strip_trailing "/" s.
Proof.
  revert s. induction fuel as [|fuel IH]; intros s Hlen.
  - destruct s; [reflexivity|simpl in Hlen; lia].
  - cbn [dropTrailingSlashes]. destruct (JsString.endsWith s "/") eqn:Hend.
    + destruct (endsWith_char_split "/" s Hend) as (pre & ->).
      change 1 with (String.length "/") at 1.
      rewrite (dropLast_app pre "/").
      rewrite length_append in Hlen. simpl in Hlen.
      rewrite IH by lia.
      symmetry. apply (strip_trailing_slashes "/" pre 1).
    + symmetry. now apply strip_trailing_keeps.
Qed.

Lemma startsWith_before (c : ascii) (a b t : string) :
  hasChar c t = false ->
  Js.startsWith (a +:+ String c b) t = Js.startsWith a t.
Proof.
  unfold Js.startsWith. revert a. induction t as [|y t IH]; intros a Ht.
  - now destruct a.
  - simpl in Ht. apply orb_false_elim in Ht. destruct Ht as (Hy & Ht).
    destruct a as [|x a].
    + change ("" +:+ String c b) with (String c b). simpl.
      destruct (Ascii.ascii_dec y c) as [->|]; [|reflexivity].
      now rewrite Ascii.eqb_refl in Hy.
    + change (String x a +:+ String c b) with (String x (a +:+ String c b)). simpl.
      destruct (Ascii.ascii_dec y x); [now apply IH|reflexivity].
Qed.

(** The part before the first [c] is determined. *)
Lemma first_part_unique (c : ascii) (a a' b b' : string) :
  hasChar c a = false -> hasChar c a' = false ->
  a +:+ String c b = a' +:+ String c b' -> a = a'.
Proof.
  revert a'. induction a as [|x a IH]; intros a' Ha Ha' H.
  - destruct a' as [|x' a']; [reflexivity|].
    change (String c b = String x' (a' +:+ String c b')) in H.
    injection H as <- _. simpl in Ha'. now rewrite Ascii.eqb_refl in Ha'.
  - destruct a' as [|x' a'].
    + change (String x (a +:+ String c b) = String c b') in H.
      injection H as -> _. simpl in Ha. now rewrite Ascii.eqb_refl in Ha.
    + change (String x (a +:+ String c b) = String x' (a' +:+ String c b')) in H.
      injection H as -> H. simpl in Ha, Ha'.
      apply orb_false_elim in Ha, Ha'. f_equal. apply (IH a'); tauto.
Qed.

Lemma hasSpace_app (a b : string) : hasSpace (a +:+ b) = hasSpace a || hasSpace b.
Proof.
  induction a as [|x a IH]; [reflexivity|].
  change (String x a +:+ b) with (String x (a +:+ b)). simpl.
  now rewrite IH, orb_assoc.
Qed.

Lemma allAscii_app (a b : string) : allAscii (a +:+ b) = allAscii a && allAscii b.
Proof.
  induction a as [|x a IH]; [reflexivity|].
  change (String x a +:+ b) with (String x (a +:+ b)). cbn [allAscii].
  now rewrite IH, andb_assoc.
Qed.

Lemma allAscii_slashes (n : nat) : allAscii (slashes n) = true.
Proof. induction n as [|n IH]; [reflexivity|exact IH]. Qed.

Lemma hasSpace_slashes (n : nat) : hasSpace (slashes n) = false.
Proof. induction n as [|n IH]; [reflexivity|exact IH]. Qed.

End StringTails.

Section RepoReference.

Variable URL : string -> option ParsedUrl.

Lemma ascii_not_space2 (a b : ascii) :
  (nat_of_ascii a <? 128)%nat = true -> Js.is_space2 a b = false.
Proof.
  destruct a as [b0 b1 b2 b3 b4 b5 b6 []]; [|intros _; unfold Js.is_space2].
  - destruct b0, b1, b2, b3, b4, b5, b6; intros H; vm_compute in H; discriminate H.
  - destruct b0, b1, b2, b3, b4, b5, b6; reflexivity.
Qed.

Lemma ascii_not_space3 (a b c : ascii) :
  (nat_of_ascii a <? 128)%nat = true -> Js.is_space3 a b c = false.
Proof.
  destruct a as [b0 b1 b2 b3 b4 b5 b6 []]; [|intros _; unfold Js.is_space3].
  - destruct b0, b1, b2, b3, b4, b5, b6; intros H; vm_compute in H; discriminate H.
  - destruct b0, b1, b2, b3, b4, b5, b6; reflexivity.
Qed.

Lemma trimStart_pad (w t : string) :
  allSpace w = true -> Js.trimStart (w +:+ t) = Js.trimStart t.
Proof.
  induction w as [|x w IH]; [reflexivity|].
  change (String x w +:+ t) with (String x (w +:+ t)). cbn [allSpace].
  intros H. apply andb_prop in H. destruct H as (Hx & H).
  cbn [Js.trimStart]. rewrite Hx. now apply IH.
Qed.

Lemma trimStart_space (w : string) : allSpace w = true -> Js.trimStart w = "".
Proof.
  intros H. rewrite <- (append_nil_r w). now rewrite trimStart_pad.
Qed.

(** A text that starts with an ASCII character that is no white space is
    its own [trimStart]. *)
Lemma trimStart_ascii (x : ascii) (t : string) :
  Js.is_space x = false -> (nat_of_ascii x <? 128)%nat = true ->
  Js.trimStart (String x t) = String x t.
Proof.
  intros Hx Hascii. cbn [Js.trimStart]. rewrite Hx.
  destruct t as [|b [|c r]]; [reflexivity| |].
  - now rewrite ascii_not_space2.
  - now rewrite ascii_not_space2, ascii_not_space3.
Qed.

Lemma trimEnd_space (w : string) : allSpace w = true -> Js.trimEnd w = "".
Proof.
  induction w as [|x w IH]; [reflexivity|]. cbn [allSpace Js.trimEnd].
  intros H. apply andb_prop in H. destruct H as (Hx & H).
  rewrite (IH H). cbn [Js.whiteSpace]. now rewrite Hx.
Qed.

Lemma trimEnd_pad (s w : string) :
  allSpace w = true -> Js.trimEnd (s +:+ w) = Js.trimEnd s.
Proof.
  intros H. induction s as [|x s IH].
  - change ("" +:+ w) with w. now rewrite trimEnd_space.
  - change (String x s +:+ w) with (String x (s +:+ w)). cbn [Js.trimEnd].
    now rewrite IH.
Qed.

Lemma ascii_not_whiteSpace (x : ascii) (s : string) :
  Js.is_space x = false -> (nat_of_ascii x <? 128)%nat = true ->
  Js.whiteSpace (String x s) = false.
Proof.
  intros Hx Hascii. destruct s as [|b [|c [|d r]]]; cbn [Js.whiteSpace].
  - exact Hx.
  - now apply ascii_not_space2.
  - now apply ascii_not_space3.
  - reflexivity.
Qed.

Lemma trimEnd_without_space (s : string) :
  hasSpace s = false -> allAscii s = true -> Js.trimEnd s = s.
Proof.
  induction s as [|x s IH]; [reflexivity|]. cbn [hasSpace allAscii Js.trimEnd].
  intros H Hascii. apply orb_false_elim in H. destruct H as (Hx & Hs).
  apply andb_prop in Hascii. destruct Hascii as (Hxa & Hsa).
  rewrite IH by assumption. now rewrite ascii_not_whiteSpace.
Qed.

(** Trimming removes the one-byte white space around an ASCII text that
    has none. *)
Lemma trim_pad (w1 s w2 : string) :
  allSpace w1 = true -> allSpace w2 = true ->
  hasSpace s = false -> allAscii s = true ->
  Js.trim (w1 +:+ s +:+ w2) = s.
Proof.
  intros H1 H2 Hs Hascii. unfold Js.trim. rewrite trimStart_pad by exact H1.
  destruct s as [|x s].
  - change ("" +:+ w2) with w2. now rewrite trimStart_space.
  - change (String x s +:+ w2) with (String x (s +:+ w2)).
    cbn [hasSpace] in Hs. pose proof Hs as Hs'.
    apply orb_false_elim in Hs'. destruct Hs' as (Hx & _).
    cbn [allAscii] in Hascii. pose proof Hascii as Hascii'.
    apply andb_prop in Hascii'. destruct Hascii' as (Hxa & _).
    rewrite trimStart_ascii by assumption.
    change (String x (s +:+ w2)) with (String x s +:+ w2).
    rewrite trimEnd_pad by exact H2. now apply trimEnd_without_space.
Qed.

(** [trim] strips the white space beyond ASCII too, and only at the two
    ends. *)
Example trim_strips_unicode_space :
  Js.trim (Unicode.nbsp +:+ " a" +:+ Unicode.nbsp +:+ "b"
           +:+ Unicode.bom +:+ Unicode.lineSeparator +:+ " ")
  = "a" +:+ Unicode.nbsp +:+ "b".
Proof. vm_compute. reflexivity. Qed.

Lemma trim_without_space (s : string) :
  hasSpace s = false -> allAscii s = true -> Js.trim s = s.
Proof.
  intros Hs Hascii. pose proof (trim_pad "" s "" eq_refl eq_refl Hs Hascii) as H.
  change ("" +:+ s +:+ "") with (s +:+ "") in H. now rewrite append_nil_r in H.
Qed.

Lemma strip_trailing_end (c : ascii) (s : string) :
  JsString.endsWith (Js.strip_trailing c s) (String c "") = false.
Proof.
  induction s as [|x s IH]; [reflexivity|]. cbn [Js.strip_trailing].
  destruct (Js.strip_trailing c s) as [|y t].
  - destruct (Ascii.eqb x c) eqn:Hx; [reflexivity|].
    rewrite endsWith_char. exact Hx.
  - rewrite endsWith_char. exact IH.
Qed.

(** The cleaning of the source is [cleaned]. *)
Lemma parseRepoUrl_cleaned (url : string) :
  parseRepoUrl URL url
  = if negb (Js.truthy url) then None
    else if negb (Js.truthy (cleaned url)) then None
    else
      let cleanUrl :=
        if Js.startsWith (cleaned url) "github.com/" then "https://" +:+ cleaned url
        else cleaned url in
      if negb (Js.startsWith cleanUrl "http") then
        match Js.split "/" cleanUrl with
        | [owner; repo] => Some {| owner := owner; repo := repo |}
        | _ => None
        end
      else
        match URL cleanUrl with
        | None => None
        | Some urlObj =>
            if negb (JsString.includes (hostname urlObj) "github.com") then None
            else
              match List.filter Js.truthy (Js.split "/" (pathname urlObj)) with
              | owner :: repo :: _ => Some {| owner := owner; repo := repo |}
              | _ => None
              end
        end.
Proof.
  unfold parseRepoUrl, cleaned. cbv zeta.
  rewrite !dropTrailingSlashes_strip by lia. reflexivity.
Qed.

(** A bare [owner/repo] goes through the split. *)
Lemma bare_pair_is_split (url o r : string) :
  url <> "" -> cleaned url = o +:+ "/" +:+ r ->
  hasChar "/" o = false -> hasChar "/" r = false ->
  o <> "github.com" -> Js.startsWith o "http" = false ->
  parseRepoUrl URL url = Some {| owner := o; repo := r |}.
Proof.
  intros Hurl Hclean Ho Hr Hgh Hhttp. rewrite parseRepoUrl_cleaned.
  apply truthy_nonempty in Hurl. rewrite Hurl. cbn [negb].
  rewrite Hclean.
  assert (Hne : Js.truthy (o +:+ "/" +:+ r) = true).
  { apply truthy_nonempty. now destruct o. }
  rewrite Hne. cbn [negb]. cbv zeta.
  assert (Hhost : Js.startsWith (o +:+ "/" +:+ r) "github.com/" = false).
  { destruct (Js.startsWith (o +:+ "/" +:+ r) "github.com/") eqn:E; [|reflexivity].
    apply startsWith_app in E. destruct E as (rest & E). exfalso. apply Hgh.
    change ("github.com/" +:+ rest) with ("github.com" +:+ String "/" rest) in E.
    now apply (first_part_unique "/" o "github.com" r rest). }
  rewrite Hhost.
  change (o +:+ "/" +:+ r) with (o +:+ String "/" r).
  rewrite (startsWith_before "/" o r "http") by reflexivity.
  rewrite Hhttp. cbn [negb].
  rewrite split_app by exact Ho. rewrite split_single by exact Hr. reflexivity.
Qed.

Lemma plain_pair_no_space (o r : string) :
  hasSpace o = false -> hasSpace r = false -> hasSpace (o +:+ "/" +:+ r) = false.
Proof. intros Ho Hr. rewrite !hasSpace_app, Ho, Hr. reflexivity. Qed.

Lemma plain_pair_stripped (o r : string) :
  r <> "" -> hasChar "/" r = false ->
  Js.strip_trailing "/" (o +:+ "/" +:+ r) = o +:+ "/" +:+ r.
Proof.
  intros Hne Hr. rewrite <- append_assoc.
  apply strip_trailing_app; [exact Hne|]. now apply strip_trailing_id.
Qed.

End RepoReference.

Section RepoReferenceCleaning.

Lemma append_nonempty_l (a b : string) : a <> "" -> a +:+ b <> "".
Proof. destruct a; [congruence|discriminate]. Qed.

Lemma append_nonempty_r (a b : string) : b <> "" -> a +:+ b <> "".
Proof. destruct a; [now intros|discriminate]. Qed.

Lemma cleaned_plain_pair (w1 w2 o r : string) (a : nat) :
  allSpace w1 = true -> allSpace w2 = true ->
  hasSpace o = false -> hasSpace r = false ->
  allAscii o = true -> allAscii r = true ->
  r <> "" -> hasChar "/" r = false -> JsString.endsWith r ".git" = false ->
  cleaned (w1 +:+ (o +:+ "/" +:+ r +:+ slashes a) +:+ w2) = o +:+ "/" +:+ r.
Proof.
  intros H1 H2 Ho Hr Hoa Hra Hne Hslash Hgit. unfold cleaned. cbv zeta.
  rewrite trim_pad; [|exact H1|exact H2| |].
  2:{ rewrite !hasSpace_app, Ho, Hr, hasSpace_slashes. reflexivity. }
  2:{ rewrite (allAscii_app o), (allAscii_app "/"), (allAscii_app r).
      rewrite Hoa, Hra, allAscii_slashes. reflexivity. }
  replace (o +:+ "/" +:+ r +:+ slashes a) with ((o +:+ "/" +:+ r) +:+ slashes a)
    by now rewrite !append_assoc.
  unfold slashes. rewrite strip_trailing_slashes.
  rewrite plain_pair_stripped by assumption.
  change (o +:+ "/" +:+ r) with (o +:+ String "/" r).
  rewrite (endsWith_behind "/" o r ".git") by reflexivity.
  rewrite Hgit.
  change (o +:+ String "/" r) with (o +:+ "/" +:+ r).
  now apply plain_pair_stripped.
Qed.

Lemma cleaned_git_suffix (w1 w2 o r : string) (a b : nat) :
  allSpace w1 = true -> allSpace w2 = true ->
  hasSpace o = false -> hasSpace r = false ->
  allAscii o = true -> allAscii r = true ->
  r <> "" -> hasChar "/" r = false ->
  cleaned (w1 +:+ (o +:+ "/" +:+ r +:+ slashes a +:+ ".git" +:+ slashes b) +:+ w2)
  = o +:+ "/" +:+ r.
Proof.
  intros H1 H2 Ho Hr Hoa Hra Hne Hslash. unfold cleaned. cbv zeta.
  rewrite trim_pad; [|exact H1|exact H2| |].
  2:{ rewrite !hasSpace_app, Ho, Hr, !hasSpace_slashes. reflexivity. }
  2:{ rewrite (allAscii_app o), (allAscii_app "/"), (allAscii_app r).
      rewrite (allAscii_app (slashes a)), (allAscii_app ".git").
      rewrite Hoa, Hra, !allAscii_slashes. reflexivity. }
  replace (o +:+ "/" +:+ r +:+ slashes a +:+ ".git" +:+ slashes b)
    with ((((o +:+ "/" +:+ r) +:+ slashes a) +:+ ".git") +:+ slashes b)
    by now rewrite !append_assoc.
  unfold slashes. rewrite strip_trailing_slashes.
  rewrite (strip_trailing_app "/" _ ".git") by (discriminate || reflexivity).
  rewrite endsWith_app.
  change 4 with (String.length ".git"). rewrite dropLast_app.
  rewrite strip_trailing_slashes.
  now apply plain_pair_stripped.
Qed.

End RepoReferenceCleaning.

(** X20.  A bare [owner/repo] reference is parsed into its two names,
    whatever white space surrounds it and however many slashes follow it,
    provided the repository name does not itself end in [.git]. *)
Theorem bare_reference_is_parsed (URL : string -> option ParsedUrl)
    (w1 w2 o r : string) (a : nat) :
  plainName o -> plainName r ->
  o <> "github.com" -> Js.startsWith o "http" = false ->
  JsString.endsWith r ".git" = false ->
  allSpace w1 = true -> allSpace w2 = true ->
  parseRepoUrl URL (w1 +:+ (o +:+ "/" +:+ r +:+ slashes a) +:+ w2)
  = Some {| owner := o; repo := r |}.
Proof.
  intros (Hone & Hos & Hosp & Hoa) (Hrne & Hrs & Hrsp & Hra) Hgh Hhttp Hgit H1 H2.
  apply bare_pair_is_split; try assumption.
  - apply append_nonempty_r, append_nonempty_l, append_nonempty_l. exact Hone.
  - now apply cleaned_plain_pair.
Qed.

Lemma bare_reference_is_parsed_witness :
  parseRepoUrl (fun _ => None) (" " +:+ ("octo/site" +:+ slashes 2) +:+ " ")
  = Some {| owner := "octo"; repo := "site" |}.
Proof.
  apply (bare_reference_is_parsed (fun _ => None) " " " " "octo" "site" 2);
    try reflexivity; try discriminate;
    (split; [discriminate|repeat split]).
Defined.

(** X21.  One [.git] suffix is dropped from a bare reference, together
    with the slashes before and after it. *)
Theorem git_suffix_is_dropped (URL : string -> option ParsedUrl)
    (w1 w2 o r : string) (a b : nat) :
  plainName o -> plainName r ->
  o <> "github.com" -> Js.startsWith o "http" = false ->
  allSpace w1 = true -> allSpace w2 = true ->
  parseRepoUrl URL
    (w1 +:+ (o +:+ "/" +:+ r +:+ slashes a +:+ ".git" +:+ slashes b) +:+ w2)
  = Some {| owner := o; repo := r |}.
Proof.
  intros (Hone & Hos & Hosp & Hoa) (Hrne & Hrs & Hrsp & Hra) Hgh Hhttp H1 H2.
  apply bare_pair_is_split; try assumption.
  - apply append_nonempty_r, append_nonempty_l, append_nonempty_l. exact Hone.
  - now apply cleaned_git_suffix.
Qed.

Lemma git_suffix_is_dropped_witness :
  parseRepoUrl (fun _ => None) ("" +:+ ("octo/site" +:+ slashes 0 +:+ ".git" +:+ slashes 1) +:+ "")
  = Some {| owner := "octo"; repo := "site" |}.
Proof.
  apply (git_suffix_is_dropped (fun _ => None) "" "" "octo" "site" 0 1);
    try reflexivity; try discriminate;
    (split; [discriminate|repeat split]).
Defined.

(** X22.  A reference that starts with a slash is accepted with an empty
    owner. *)
Theorem leading_slash_gives_empty_owner (URL : string -> option ParsedUrl)
    (r : string) :
  plainName r -> JsString.endsWith r ".git" = false ->
  parseRepoUrl URL ("/" +:+ r) = Some {| owner := ""; repo := r |}.
Proof.
  intros (Hrne & Hrs & Hrsp & Hra) Hgit.
  apply bare_pair_is_split; try reflexivity; try assumption; try discriminate.
  pose proof (cleaned_plain_pair "" "" "" r 0) as H.
  change ("" +:+ ("" +:+ "/" +:+ r +:+ slashes 0) +:+ "")
    with ("/" +:+ ((r +:+ "") +:+ "")) in H.
  rewrite !append_nil_r in H. now apply H.
Qed.

Lemma leading_slash_gives_empty_owner_witness :
  parseRepoUrl (fun _ => None) ("/" +:+ "site") = Some {| owner := ""; repo := "site" |}.
Proof.
  apply (leading_slash_gives_empty_owner (fun _ => None) "site");
    [split; [discriminate|repeat split]|reflexivity].
Defined.


Lemma filter_truthy_parts (s : string) (part : string) :
  In part (List.filter Js.truthy (Js.split "/" s)) ->
  hasChar "/" part = false /\ part <> "".
Proof.
  intros H. apply List.filter_In in H. destruct H as (Hin & Htruthy). split.
  - pose proof (split_parts_absent "/" "/" s (or_introl eq_refl)) as Hall.
    rewrite List.Forall_forall in Hall. now apply Hall.
  - now apply truthy_nonempty.
Qed.

Lemma two_parts_of_stripped (s o r : string) :
  Js.split "/" (Js.strip_trailing "/" s) = [o; r] ->
  hasChar "/" o = false /\ hasChar "/" r = false /\ r <> "".
Proof.
  intros H.
  pose proof (split_parts_absent "/" "/" (Js.strip_trailing "/" s) (or_introl eq_refl))
    as Hall.
  rewrite H in Hall. inversion Hall as [|? ? Ho Hrest]; subst.
  inversion Hrest as [|? ? Hr _]; subst.
  split; [exact Ho|split; [exact Hr|]]. intros ->.
  pose proof (join_split "/" (Js.strip_trailing "/" s)) as Hjoin.
  rewrite H in Hjoin.
  pose proof (strip_trailing_end "/" s) as Hend.
  rewrite <- Hjoin in Hend.
  change (Js.join "/" [o; ""]) with (o +:+ "/" +:+ "") in Hend.
  change (o +:+ "/" +:+ "") with (o +:+ "/") in Hend.
  now rewrite endsWith_app in Hend.
Qed.

(** X23.  Whatever reference is parsed, the two names hold no slash and the
    repository name is not empty. *)
Theorem parsed_names_are_segments (URL : string -> option ParsedUrl)
    (url : string) (d : RepoDetails) :
  parseRepoUrl URL url = Some d ->
  hasChar "/" (owner d) = false /\ hasChar "/" (repo d) = false /\ repo d <> "".
Proof.
  rewrite parseRepoUrl_cleaned.
  destruct (negb (Js.truthy url)); [discriminate|].
  destruct (negb (Js.truthy (cleaned url))); [discriminate|]. cbv zeta.
  destruct (Js.startsWith (cleaned url) "github.com/") eqn:Hhost.
  - replace (Js.startsWith ("https://" +:+ cleaned url) "http") with true
      by (symmetry; apply startsWith_app; now exists ("s://" +:+ cleaned url)).
    cbn [negb].
    destruct (URL ("https://" +:+ cleaned url)) as [urlObj|]; [|discriminate].
    destruct (negb (JsString.includes (hostname urlObj) "github.com")); [discriminate|].
    destruct (List.filter Js.truthy (Js.split "/" (pathname urlObj)))
      as [|o [|r rest]] eqn:Hparts; try discriminate.
    intros H. injection H as <-. cbn [owner repo].
    destruct (filter_truthy_parts (pathname urlObj) o) as (Ho & _);
      [rewrite Hparts; now left|].
    destruct (filter_truthy_parts (pathname urlObj) r) as (Hr & Hne);
      [rewrite Hparts; right; now left|].
    tauto.
  - destruct (negb (Js.startsWith (cleaned url) "http")).
    + destruct (Js.split "/" (cleaned url)) as [|o [|r [|]]] eqn:Hsplit;
        try discriminate.
      intros H. injection H as <-. cbn [owner repo].
      now apply (two_parts_of_stripped _ o r) in Hsplit.
    + destruct (URL (cleaned url)) as [urlObj|]; [|discriminate].
      destruct (negb (JsString.includes (hostname urlObj) "github.com")); [discriminate|].
      destruct (List.filter Js.truthy (Js.split "/" (pathname urlObj)))
        as [|o [|r rest]] eqn:Hparts; try discriminate.
      intros H. injection H as <-. cbn [owner repo].
      destruct (filter_truthy_parts (pathname urlObj) o) as (Ho & _);
        [rewrite Hparts; now left|].
      destruct (filter_truthy_parts (pathname urlObj) r) as (Hr & Hne);
        [rewrite Hparts; right; now left|].
      tauto.
Qed.

Lemma parsed_names_are_segments_witness :
  hasChar "/" "octo" = false /\ hasChar "/" "site" = false /\ "site" <> "".
Proof.
  apply (parsed_names_are_segments
           (fun _ => Some {| hostname := "github.com"; pathname := "/octo/site/tree/main" |})
           "https://github.com/octo/site/tree/main"
           {| owner := "octo"; repo := "site" |}).
  vm_compute. reflexivity.
Defined.

Lemma endsWith_split (s t : string) :
  JsString.endsWith s t = true -> exists pre, s = pre +:+ t.
Proof.
  induction s as [|x s IH]; cbn [JsString.endsWith]; intros H.
  - rewrite orb_false_r in H. apply String.eqb_eq in H. subst t. now exists "".
  - apply orb_prop in H. destruct H as [H|H].
    + apply String.eqb_eq in H. subst t. now exists "".
    + destruct (IH H) as (pre & ->). now exists (String x pre).
Qed.

Lemma slashless_is_not_a_pair (URL : string -> option ParsedUrl) (url c : string) :
  cleaned url = c -> hasChar "/" c = false -> Js.startsWith c "http" = false ->
  parseRepoUrl URL url = None.
Proof.
  intros Hc Hslash Hhttp. rewrite parseRepoUrl_cleaned.
  destruct (negb (Js.truthy url)); [reflexivity|]. rewrite Hc.
  destruct (negb (Js.truthy c)); [reflexivity|]. cbv zeta.
  assert (Hhost : Js.startsWith c "github.com/" = false).
  { destruct (Js.startsWith c "github.com/") eqn:E; [|reflexivity].
    apply startsWith_app in E. destruct E as (rest & ->).
    change ("github.com/" +:+ rest) with ("github.com" +:+ String "/" rest) in Hslash.
    rewrite hasChar_app in Hslash. cbn [hasChar] in Hslash.
    rewrite Ascii.eqb_refl, orb_true_r in Hslash. discriminate. }
  rewrite Hhost, Hhttp. cbn [negb]. now rewrite split_single.
Qed.

(** X24.  A lone name, with no slash in it, is not a repository reference:
    the parser gives nothing, with or without a [.git] suffix. *)
Theorem lone_name_is_rejected (URL : string -> option ParsedUrl) (s : string) :
  plainName s -> Js.startsWith s "http" = false ->
  parseRepoUrl URL s = None.
Proof.
  intros (Hne & Hslash & Hsp & Hascii) Hhttp.
  assert (Hstrip : Js.strip_trailing "/" (Js.trim s) = s).
  { rewrite trim_without_space by assumption. now apply strip_trailing_id. }
  destruct (JsString.endsWith s ".git") eqn:Hgit.
  - destruct (endsWith_split s ".git" Hgit) as (pre & Hs).
    assert (Hpre : hasChar "/" pre = false).
    { rewrite Hs, hasChar_app in Hslash. now apply orb_false_elim in Hslash. }
    apply (slashless_is_not_a_pair URL s pre); [|exact Hpre|].
    + unfold cleaned. cbv zeta. rewrite Hstrip, Hgit.
      rewrite Hs at 1. change 4 with (String.length ".git").
      rewrite dropLast_app. now apply strip_trailing_id.
    + destruct (Js.startsWith pre "http") eqn:E; [|reflexivity].
      apply startsWith_app in E. destruct E as (rest & ->).
      rewrite <- Hhttp. symmetry. apply startsWith_app.
      exists (rest +:+ ".git"). now rewrite Hs, append_assoc.
  - apply (slashless_is_not_a_pair URL s s); [|exact Hslash|exact Hhttp].
    unfold cleaned. cbv zeta. rewrite Hstrip, Hgit. now apply strip_trailing_id.
Qed.

Lemma lone_name_is_rejected_witness :
  parseRepoUrl (fun _ => None) "site.git" = None.
Proof.
  apply (lone_name_is_rejected (fun _ => None) "site.git");
    [split; [discriminate|repeat split]|reflexivity].
Defined.

(** ** The connection *)

Lemma trimStart_fixed (s : string) :
  startsWithSpace s = false -> Js.trimStart s = s.
Proof.
  destruct s as [|a [|b [|c r]]]; [reflexivity| | |];
    unfold startsWithSpace; cbn [Js.trimStart]; intros H.
  - rewrite orb_false_r in H. now rewrite H.
  - apply orb_false_elim in H. destruct H as (Ha & H).
    rewrite orb_false_r in H. now rewrite Ha, H.
  - apply orb_false_elim in H. destruct H as (Ha & H).
    apply orb_false_elim in H. destruct H as (Hb & Hc).
    now rewrite Ha, Hb, Hc.
Qed.

Lemma trimStart_cons (a : ascii) (r : string) :
  Js.trimStart (String a r)
  = if Js.is_space a then Js.trimStart r
    else match r with
         | String b r2 =>
             if Js.is_space2 a b then Js.trimStart r2
             else match r2 with
                  | String c r3 =>
                      if Js.is_space3 a b c then Js.trimStart r3 else String a r
                  | EmptyString => String a r
                  end
         | EmptyString => String a r
         end.
Proof. destruct r as [|b [|c r3]]; reflexivity. Qed.

Lemma trimStart_head_bounded (n : nat) (s : string) :
  String.length s <= n -> startsWithSpace (Js.trimStart s) = false.
Proof.
  revert s. induction n as [|n IH]; intros s Hlen.
  - destruct s; [reflexivity|simpl in Hlen; lia].
  - destruct s as [|a [|b [|c r3]]]; [reflexivity| | |];
      simpl in Hlen; rewrite trimStart_cons.
    + destruct (Js.is_space a) eqn:Ha; [reflexivity|].
      cbn [startsWithSpace]. now rewrite Ha.
    + destruct (Js.is_space a) eqn:Ha; [apply IH; simpl; lia|].
      destruct (Js.is_space2 a b) eqn:Hb; [reflexivity|].
      cbn [startsWithSpace]. now rewrite Ha, Hb.
    + destruct (Js.is_space a) eqn:Ha; [apply IH; simpl; lia|].
      destruct (Js.is_space2 a b) eqn:Hb; [apply IH; simpl; lia|].
      destruct (Js.is_space3 a b c) eqn:Hc; [apply IH; lia|].
      cbn [startsWithSpace]. now rewrite Ha, Hb, Hc.
Qed.

Lemma trimStart_head (s : string) : startsWithSpace (Js.trimStart s) = false.
Proof. now apply (trimStart_head_bounded (String.length s)). Qed.

Lemma startsWithSpace_app (t suf : string) :
  startsWithSpace t = true -> startsWithSpace (t +:+ suf) = true.
Proof.
  destruct t as [|a [|b [|c r]]]; cbn [startsWithSpace]; intros H.
  - discriminate H.
  - rewrite orb_false_r in H.
    change (String a "" +:+ suf) with (String a suf).
    cbn [startsWithSpace]. now rewrite H.
  - change (String a (String b "") +:+ suf) with (String a (String b suf)).
    cbn [startsWithSpace].
    apply orb_prop in H. destruct H as [->|H]; [reflexivity|].
    rewrite orb_false_r in H. rewrite H. apply orb_true_r.
  - change (String a (String b (String c r)) +:+ suf)
      with (String a (String b (String c (r +:+ suf)))).
    exact H.
Qed.

Lemma trimEnd_prefix (s : string) : exists suf, s = Js.trimEnd s +:+ suf.
Proof.
  induction s as [|x s (suf & IH)]; [now exists ""|]. cbn [Js.trimEnd]. cbv zeta.
  destruct (Js.whiteSpace (String x (Js.trimEnd s))).
  - now exists (String x s).
  - exists suf. change (String x (Js.trimEnd s) +:+ suf)
      with (String x (Js.trimEnd s +:+ suf)).
    now rewrite <- IH.
Qed.

Lemma trimEnd_idempotent (s : string) : Js.trimEnd (Js.trimEnd s) = Js.trimEnd s.
Proof.
  induction s as [|x s IH]; [reflexivity|]. cbn [Js.trimEnd]. cbv zeta.
  destruct (Js.whiteSpace (String x (Js.trimEnd s))) eqn:Hw; [reflexivity|].
  cbn [Js.trimEnd]. cbv zeta. now rewrite IH, Hw.
Qed.

Lemma trim_idempotent (s : string) : Js.trim (Js.trim s) = Js.trim s.
Proof.
  unfold Js.trim.
  assert (Hstart : startsWithSpace (Js.trimEnd (Js.trimStart s)) = false).
  { destruct (startsWithSpace (Js.trimEnd (Js.trimStart s))) eqn:E; [|reflexivity].
    destruct (trimEnd_prefix (Js.trimStart s)) as (suf & Hsuf).
    apply (startsWithSpace_app _ suf) in E. rewrite <- Hsuf in E.
    now rewrite trimStart_head in E. }
  rewrite (trimStart_fixed _ Hstart). apply trimEnd_idempotent.
Qed.

Lemma cleaned_trim (url : string) : cleaned (Js.trim url) = cleaned url.
Proof. unfold cleaned. now rewrite trim_idempotent. Qed.

(** Trimming the reference first changes nothing. *)
Lemma parseRepoUrl_trim (URL : string -> option ParsedUrl) (url : string) :
  parseRepoUrl URL (Js.trim url) = parseRepoUrl URL url.
Proof.
  rewrite !parseRepoUrl_cleaned, cleaned_trim.
  destruct (Js.truthy url) eqn:Hurl.
  - destruct (Js.truthy (Js.trim url)) eqn:Htrim; [reflexivity|].
    cbn [negb].
    assert (Hempty : Js.trim url = "").
    { destruct (Js.trim url); [reflexivity|discriminate Htrim]. }
    unfold cleaned. rewrite Hempty. reflexivity.
  - assert (Hempty : url = "").
    { destruct url; [reflexivity|discriminate Hurl]. }
    subst url. reflexivity.
Qed.

Lemma request_answer {A} (c : ApiCall) (r : Response A) (w : World) :
  snd (GitHubService.request c r w)
  = match Connect.answer r with
    | inl json => Normal json
    | inr msg => Throw (Error msg)
    end.
Proof. destruct r; reflexivity. Qed.

Lemma answer_ok {A} (r : Response A) (a : A) :
  Connect.answer r = inl a <-> r = Ok a.
Proof. destruct r; simpl; split; congruence. Qed.

(** How a call of [handleConnect] with both inputs ends. *)
Lemma handleConnect_outcome (URL : string -> option ParsedUrl) (acct : Connect.Account)
    (config : SyncConfig) (st : Connect.State) :
  token config <> "" -> repoUrl config <> "" ->
  let st' := Connect.handleConnect URL acct config st in
  (exists login rd,
      Connect.GET_user acct = Ok login
      /\ parseRepoUrl URL (repoUrl config) = Some rd
      /\ Connect.GET_repos acct (owner rd) (repo rd) = Ok tt
      /\ Connect.isConnected st' = true
      /\ Connect.connectionError st' = None
      /\ Connect.isConnecting st' = false
      /\ Connect.requests st'
         = Connect.requests st ++ [Connect.GetUser; Connect.GetRepo (owner rd) (repo rd)])
  \/ ((forall login rd,
          Connect.GET_user acct = Ok login ->
          parseRepoUrl URL (repoUrl config) = Some rd ->
          Connect.GET_repos acct (owner rd) (repo rd) <> Ok tt)
      /\ Connect.isConnected st' = false
      /\ Connect.connectionError st' <> None
      /\ Connect.isConnecting st' = false
      /\ (Connect.requests st' = Connect.requests st ++ [Connect.GetUser]
          \/ exists login rd,
               Connect.GET_user acct = Ok login
               /\ parseRepoUrl URL (repoUrl config) = Some rd
               /\ Connect.requests st'
                  = Connect.requests st
                    ++ [Connect.GetUser; Connect.GetRepo (owner rd) (repo rd)])).
Proof.
  intros Htoken Hurl. apply truthy_nonempty in Htoken, Hurl. cbv zeta.
  unfold Connect.handleConnect. rewrite Htoken, Hurl. cbn [negb orb]. cbv zeta.
  rewrite parseRepoUrl_trim.
  destruct (Connect.answer (Connect.GET_user acct)) as [login|msg] eqn:Huser.
  - apply answer_ok in Huser.
    destruct (parseRepoUrl URL (repoUrl config)) as [rd|] eqn:Hparse.
    + destruct (Connect.answer (Connect.GET_repos acct (owner rd) (repo rd)))
        as [[]|msg] eqn:Hrepo.
      * apply answer_ok in Hrepo. left. exists login, rd.
        cbn. rewrite <- List.app_assoc. repeat split; auto.
      * right. cbn. rewrite <- List.app_assoc.
        split; [|repeat split; try discriminate].
        -- intros login' rd' _ Hrd' Hok. injection Hrd' as <-.
           apply answer_ok in Hok. congruence.
        -- right. exists login, rd. auto.
    + right. cbn. split; [|repeat split; try discriminate; now left].
      intros login' rd' _ Hrd'. discriminate Hrd'.
  - right. cbn. split; [|repeat split; try discriminate; now left].
    intros login' rd' Hlogin _. rewrite Hlogin in Huser. discriminate Huser.
Qed.

(** X25.  White space around the reference changes nothing: the trimmed
    reference, which the connection parses, and the reference as typed,
    which the sync parses, give the same result. *)
Theorem outer_space_is_ignored (URL : string -> option ParsedUrl) (url : string) :
  parseRepoUrl URL (Js.trim url) = parseRepoUrl URL url.
Proof. apply parseRepoUrl_trim. Qed.

(** X26.  With a token and a reference entered, [handleConnect] ends
    connected exactly when the user request succeeds, the reference parses
    and the request for the parsed repository succeeds; otherwise it ends
    not connected with an error message set.  Either way it is no longer
    connecting. *)
Theorem connected_iff_both_checks_pass (URL : string -> option ParsedUrl)
    (acct : Connect.Account) (config : SyncConfig) (st : Connect.State) :
  token config <> "" -> repoUrl config <> "" ->
  (Connect.isConnected (Connect.handleConnect URL acct config st) = true
   <-> exists login rd,
         Connect.GET_user acct = Ok login
         /\ parseRepoUrl URL (repoUrl config) = Some rd
         /\ Connect.GET_repos acct (owner rd) (repo rd) = Ok tt)
  /\ (Connect.isConnected (Connect.handleConnect URL acct config st) = false
      -> Connect.connectionError (Connect.handleConnect URL acct config st) <> None)
  /\ Connect.isConnecting (Connect.handleConnect URL acct config st) = false.
Proof.
  intros Htoken Hurl.
  destruct (handleConnect_outcome URL acct config st Htoken Hurl)
    as [(login & rd & Hu & Hp & Hr & Hc & He & Hg & _)
       |(Hnot & Hc & He & Hg & _)].
  - rewrite Hc, He. split; [|split; [discriminate|exact Hg]].
    split; [intros _; now exists login, rd|reflexivity].
  - rewrite Hc. split; [|split; [intros _; exact He|exact Hg]].
    split; [discriminate|].
    intros (login & rd & Hu & Hp & Hr). exfalso. exact (Hnot login rd Hu Hp Hr).
Qed.

Lemma connected_iff_both_checks_pass_witness :
  Connect.isConnected
    (Connect.handleConnect (fun _ => None) Connect.open
       (Sample.config "" false false) Connect.fresh) = true.
Proof.
  apply (proj1 (connected_iff_both_checks_pass (fun _ => None) Connect.open
                  (Sample.config "" false false) Connect.fresh
                  ltac:(discriminate) ltac:(discriminate))).
  exists "octo", {| owner := "owner"; repo := "repo" |}.
  repeat split.
Defined.

(** A reference typed with no-break spaces around it connects to the
    repository it names. *)
Example padded_reference_connects :
  let config := {| token := "t";
                   repoUrl := Unicode.nbsp +:+ "octo/site" +:+ Unicode.nbsp;
                   branch := "main"; targetPath := ""; deleteMissing := false;
                   autoCommitMessage := false |} in
  Connect.isConnected (Connect.handleConnect (fun _ => None) Connect.open config
                         Connect.fresh) = true
  /\ Connect.requests (Connect.handleConnect (fun _ => None) Connect.open config
                         Connect.fresh)
     = [Connect.GetUser; Connect.GetRepo "octo" "site"].
Proof. vm_compute. split; reflexivity. Qed.

(** X27.  The requests of [handleConnect]: none when the token or the
    reference is missing; otherwise the user first, and then, only when the
    user request succeeded and the reference parses, the repository the
    reference parses to; no other request. *)
Theorem repository_is_asked_after_the_user (URL : string -> option ParsedUrl)
    (acct : Connect.Account) (config : SyncConfig) (st : Connect.State) :
  Connect.requests (Connect.handleConnect URL acct config st)
  = Connect.requests st
    ++ (if negb (Js.truthy (token config)) || negb (Js.truthy (repoUrl config))
        then []
        else
          match Connect.GET_user acct, parseRepoUrl URL (repoUrl config) with
          | Ok _, Some rd => [Connect.GetUser; Connect.GetRepo (owner rd) (repo rd)]
          | _, _ => [Connect.GetUser]
          end).
Proof.
  destruct (Js.truthy (token config)) eqn:Htoken.
  - destruct (Js.truthy (repoUrl config)) eqn:Hurl.
    + cbn [negb orb]. apply truthy_nonempty in Htoken, Hurl.
      destruct (handleConnect_outcome URL acct config st Htoken Hurl)
        as [(login & rd & Hu & Hp & _ & _ & _ & _ & Hreq)
           |(Hnot & _ & _ & _ & [Hreq|(login & rd & Hu & Hp & Hreq)])].
      * now rewrite Hreq, Hu, Hp.
      * rewrite Hreq.
        destruct (Connect.GET_user acct) as [login| |] eqn:Hu; [|reflexivity..].
        destruct (parseRepoUrl URL (repoUrl config)) as [rd|] eqn:Hp; [|reflexivity].
        exfalso. revert Hreq. unfold Connect.handleConnect.
        apply truthy_nonempty in Htoken, Hurl. rewrite Htoken, Hurl. cbn [negb orb].
        cbv zeta. rewrite parseRepoUrl_trim, Hu, Hp. cbn [Connect.answer].
        destruct (Connect.answer (Connect.GET_repos acct (owner rd) (repo rd)));
          cbn; rewrite <- List.app_assoc; intros H; apply List.app_inv_head in H;
          discriminate H.
      * now rewrite Hreq, Hu, Hp.
    + unfold Connect.handleConnect. rewrite Htoken, Hurl. cbn.
      now rewrite List.app_nil_r.
  - unfold Connect.handleConnect. rewrite Htoken. cbn. now rewrite List.app_nil_r.
Qed.

(** X28.  After a connection that succeeded, a sync of the same
    configuration is not stopped by the connection guard or by the second
    parse of the reference: it starts unless there is nothing to do. *)
Theorem connected_sync_starts (URL : string -> option ParsedUrl)
    (acct : Connect.Account) (config : SyncConfig) (st : Connect.State)
    (files : list FileToSync.t) :
  token config <> "" -> repoUrl config <> "" ->
  Connect.isConnected (Connect.handleConnect URL acct config st) = true ->
  started (Connect.isConnected (Connect.handleConnect URL acct config st))
          (parseRepoUrl URL (repoUrl config)) config files
  = negb ((List.length files =? 0)%nat && negb (deleteMissing config)).
Proof.
  intros Htoken Hurl Hconn.
  destruct (handleConnect_outcome URL acct config st Htoken Hurl)
    as [(login & rd & _ & Hp & _ & Hc & _)|(_ & Hc & _)].
  - unfold started. now rewrite Hc, Hp.
  - rewrite Hc in Hconn. discriminate Hconn.
Qed.

Lemma connected_sync_starts_witness :
  started (Connect.isConnected
             (Connect.handleConnect (fun _ => None) Connect.open
                (Sample.config "" false false) Connect.fresh))
          (parseRepoUrl (fun _ => None) (repoUrl (Sample.config "" false false)))
          (Sample.config "" false false) [Sample.localFile "a.txt" "x"]
  = true.
Proof.
  apply (connected_sync_starts (fun _ => None) Connect.open
           (Sample.config "" false false) Connect.fresh [Sample.localFile "a.txt" "x"]);
    [discriminate|discriminate|reflexivity].
Defined.
